(** * Forecast-accuracy metrics of [Project/DatasetsForecast.py]

    A shallow embedding of the metric functions and of the NumPy operations
    they call, followed by the properties of the metrics.

    Numbers are IEEE-754 binary64 values, Rocq's primitive [float]: the
    element type of a NumPy [float64] array.  Arrays carry their shape and
    their elements in row-major order.  Exceptions are values of [exn];
    a function that may raise returns a [result].

    Reductions add the elements of a lane from left to right starting at
    [0.0]: NumPy's order for a lane of fewer than eight elements and for a
    reduction along an axis that is not contiguous in memory.  NumPy adds a
    contiguous lane of eight elements or more in eight interleaved partial
    sums, so a sum over such a lane can differ from [fsum] by rounding. *)

From Stdlib Require Import Floats ZArith String List Bool Lia.
From Stdlib Require Import DecimalString.
Import ListNotations.

(** ** Exceptions and results *)

Inductive exn : Type :=
| AssertionError (msg : string)
| ZeroDivisionError
| AxisError
| TypeError
| ValueError
| IndexError
| OverflowError.

Inductive result (A : Type) : Type :=
| Ok (a : A)
| Raise (e : exn).

Arguments Ok {A} a.
Arguments Raise {A} e.

Definition bind {A B : Type} (r : result A) (k : A -> result B) : result B :=
  match r with
  | Ok a => k a
  | Raise e => Raise e
  end.

Notation "x <- r ;; k" := (bind r (fun x => k))
  (at level 61, r at next level, right associativity).

(** ** Arrays *)

Record ndarray (A : Type) : Type := mk_ndarray {
  shape : list nat;
  data : list A
}.

Arguments mk_ndarray {A} shape data.
Arguments shape {A} n.
Arguments data {A} n.

Definition size_of (s : list nat) : nat := fold_right Nat.mul 1%nat s.

Definition ndim {A} (a : ndarray A) : nat := length (shape a).

(** An array is well formed when it holds as many elements as its shape says. *)
Definition wf {A} (a : ndarray A) : Prop := length (data a) = size_of (shape a).

(** A Python float, or the [np.float64] a full reduction returns. *)
Definition scalar {A} (x : A) : ndarray A := mk_ndarray [] [x].

(** [np.array] of a list of numbers, and of a list of rows of one length. *)
Definition vector {A} (l : list A) : ndarray A := mk_ndarray [length l] l.

Definition matrix {A} (rows : list (list A)) : ndarray A :=
  mk_ndarray [length rows; length (hd [] rows)] (concat rows).

Definition shape_eqb (s t : list nat) : bool :=
  if list_eq_dec Nat.eq_dec s t then true else false.

Fixpoint zip_with {A B C} (f : A -> B -> C) (l : list A) (m : list B) : list C :=
  match l, m with
  | x :: l', y :: m' => f x y :: zip_with f l' m'
  | _, _ => []
  end.

(** [chunks n k d]: the first [k] consecutive blocks of [n] elements of [d]. *)
Fixpoint chunks {A} (n k : nat) (d : list A) : list (list A) :=
  match k with
  | O => []
  | S k' => firstn n d :: chunks n k' (skipn n d)
  end.

(** *** Broadcasting *)

(** The broadcast of two shapes, both read from their last dimension. *)
Fixpoint broadcast_rev (s t : list nat) : option (list nat) :=
  match s, t with
  | [], _ => Some t
  | _, [] => Some s
  | a :: s', b :: t' =>
      match broadcast_rev s' t' with
      | None => None
      | Some r =>
          if (a =? b)%nat then Some (a :: r)
          else if (a =? 1)%nat then Some (b :: r)
          else if (b =? 1)%nat then Some (a :: r)
          else None
      end
  end.

Definition broadcast_shapes (s t : list nat) : option (list nat) :=
  option_map (@rev nat) (broadcast_rev (rev s) (rev t)).

(** [tile s t d]: the elements [d] of an array of shape [s] repeated to shape
    [t], where [s] has the length of [t] and each of its dimensions is that of
    [t] or 1. *)
Fixpoint tile {A} (s t : list nat) (d : list A) : list A :=
  match s, t with
  | sd :: s', td :: t' =>
      if (sd =? td)%nat
      then flat_map (tile s' t') (chunks (size_of s') sd d)
      else concat (repeat (tile s' t' d) td)
  | _, _ => d
  end.

Definition broadcast_to {A} (a : ndarray A) (t : list nat) : list A :=
  tile (repeat 1%nat (length t - ndim a) ++ shape a) t (data a).

(** An elementwise binary operation, [np.subtract], [np.less_equal], ... *)
Definition elementwise {A B C} (f : A -> B -> C) (a : ndarray A) (b : ndarray B)
  : result (ndarray C) :=
  match broadcast_shapes (shape a) (shape b) with
  | None => Raise ValueError
  | Some s => Ok (mk_ndarray s (zip_with f (broadcast_to a s) (broadcast_to b s)))
  end.

Definition nd_map {A B} (f : A -> B) (a : ndarray A) : ndarray B :=
  mk_ndarray (shape a) (map f (data a)).

(** *** Lanes and reductions *)

(** The columns of [w]-wide rows. *)
Fixpoint columns {A} (w : nat) (rows : list (list A)) : list (list A) :=
  match w with
  | O => []
  | S w' => flat_map (firstn 1) rows :: columns w' (map (@tl A) rows)
  end.

(** The lanes of an array of shape [s] along axis [ax], in the order of the
    reduced array: one list of [nth ax s] elements per remaining index. *)
Definition lanes {A} (s : list nat) (ax : nat) (d : list A) : list (list A) :=
  let outer := size_of (firstn ax s) in
  let len := nth ax s 0%nat in
  let inner := size_of (skipn (S ax) s) in
  flat_map (fun block => columns inner (chunks inner len block))
           (chunks (len * inner) outer d).

(** The values of a C [int] and of a C [long], as which an axis is parsed. *)
Definition c_int (k : Z) : bool := ((- 2 ^ 31 <=? k) && (k <? 2 ^ 31))%Z.

Definition c_long (k : Z) : bool := ((- 2 ^ 63 <=? k) && (k <? 2 ^ 63))%Z.

(** [normalize_axis_index(axis, n)]: the axis is parsed as a C [int]. *)
Definition normalize_axis (n : nat) (axis : Z) : result nat :=
  if negb (c_int axis) then Raise OverflowError
  else if ((0 <=? axis) && (axis <? Z.of_nat n))%Z then Ok (Z.to_nat axis)
  else if ((- Z.of_nat n <=? axis) && (axis <? 0))%Z
       then Ok (Z.to_nat (axis + Z.of_nat n))
       else Raise AxisError.

(** The same check run for its exceptions only, as [np.mean] and
    [np.average] do before they reduce. *)
Definition check_axis (n : nat) (axis : option Z) : result unit :=
  match axis with
  | None => Ok tt
  | Some k => _ <- normalize_axis n k ;; Ok tt
  end.

Definition drop_axis (s : list nat) (ax : nat) : list nat :=
  firstn ax s ++ skipn (S ax) s.

(** [reduce f a axis], the [reduce] method of a ufunc as [np.sum] calls it:
    [f] applied to the whole array ([axis = None], a scalar) or to each lane
    along [axis].  The axis is converted to a C [long], then to a C [int];
    axis 0 or -1 of a 0-d array is let through and reduces its one element. *)
Definition reduce {A B} (f : list A -> B) (a : ndarray A) (axis : option Z)
  : result (ndarray B) :=
  match axis with
  | None => Ok (scalar (f (data a)))
  | Some k =>
      if negb (c_long k) then Raise OverflowError
      else if negb (c_int k) then Raise ValueError
      else if ((ndim a =? 0)%nat && ((k =? 0) || (k =? -1))%Z)%bool
      then Ok (scalar (f (data a)))
      else
        ax <- normalize_axis (ndim a) k ;;
        Ok (mk_ndarray (drop_axis (shape a) ax) (map f (lanes (shape a) ax (data a))))
  end.

(** [select m d]: the elements of [d] at the true positions of [m]. *)
Fixpoint select {A} (m : list bool) (d : list A) : list A :=
  match m, d with
  | b :: m', x :: d' => if b then x :: select m' d' else select m' d'
  | _, _ => []
  end.

(** [a[mask]] for a boolean array: for a mask of the shape of [a], the
    selected elements as a one-dimensional array.  A mask of another shape is
    turned into one index array per dimension; it may not have more
    dimensions than [a], and each of its dimensions must be that of [a]
    unless it is 0.  The mask then selects among the sub-arrays of [a] over
    the dimensions it does not cover (none, when one of its dimensions is
    0). *)
Definition mask_index {A} (a : ndarray A) (mask : ndarray bool) : result (ndarray A) :=
  if shape_eqb (shape a) (shape mask)
  then let sel := select (data mask) (data a) in Ok (mk_ndarray [length sel] sel)
  else if ((ndim mask <=? ndim a)%nat
           && forallb (fun ts => ((fst ts =? snd ts) || (fst ts =? 0))%nat)
                      (combine (shape mask) (shape a)))%bool
  then let rest := skipn (ndim mask) (shape a) in
       let sel := select (data mask)
                         (chunks (size_of rest) (length (data mask)) (data a)) in
       Ok (mk_ndarray (length sel :: rest) (concat sel))
  else Raise IndexError.

(** [a[mask] = v] in place, for a mask of the shape of [a]. *)
Definition mask_assign {A} (a : ndarray A) (mask : ndarray bool) (v : A) : ndarray A :=
  mk_ndarray (shape a) (zip_with (fun x (b : bool) => if b then v else x) (data a) (data mask)).

(** ** Floating-point operations *)

Local Open Scope float_scope.

Definition np_isnan (x : float) : bool := negb (x =? x).

(** [np.maximum]: the first operand when it is NaN or not below the second. *)
Definition np_maximum (x y : float) : float :=
  if (y <=? x) || np_isnan x then x else y.

(** Conversion of an integer count to [float64]: the nearest binary64
    value. *)
Definition float_of_Z (k : Z) : float := SF2Prim (binary_normalize prec emax k 0 false).

Definition float_of_nat (n : nat) : float := float_of_Z (Z.of_nat n).

Definition float_of_bool (b : bool) : float := if b then 1 else 0.

(** [np.finfo(float).eps] *)
Definition eps : float := 0x1p-52.

Definition fsum (l : list float) : float := fold_left PrimFloat.add l 0.

Definition fmean (l : list float) : float := fsum l / float_of_nat (length l).

(** One lane of [np.nanmean]: NaN replaced by 0 in the sum, and not counted. *)
Definition fnanmean (l : list float) : float :=
  fsum (map (fun x => if np_isnan x then 0 else x) l)
  / float_of_nat (length (filter (fun x => negb (np_isnan x)) l)).

Definition np_sum (a : ndarray float) (axis : option Z) : result (ndarray float) :=
  reduce fsum a axis.

Definition np_mean (a : ndarray float) (axis : option Z) : result (ndarray float) :=
  _ <- check_axis (ndim a) axis ;;
  reduce fmean a axis.

Definition np_nanmean (a : ndarray float) (axis : option Z) : result (ndarray float) :=
  reduce fnanmean a axis.

(** The mean of a boolean array: a [float64] sum of ones and zeros over the
    number of elements. *)
Definition mean_bool (a : ndarray bool) : float :=
  fmean (map float_of_bool (data a)).

Definition np_abs : ndarray float -> ndarray float := nd_map PrimFloat.abs.
Definition np_square : ndarray float -> ndarray float := nd_map (fun x => x * x).
Definition np_sqrt : ndarray float -> ndarray float := nd_map PrimFloat.sqrt.
Definition np_subtract := elementwise PrimFloat.sub.
Definition np_add := elementwise PrimFloat.add.
Definition np_multiply := elementwise PrimFloat.mul.
Definition np_divide := elementwise PrimFloat.div.

(** [np.average] (NumPy 2): the axis is checked first; without weights the
    mean is followed by the division [a.size / avg.size] of two Python
    integers, which raises when the reduced array has no element. *)
Definition np_average (a : ndarray float) (weights : option (ndarray float))
  (axis : option Z) : result (ndarray float) :=
  _ <- check_axis (ndim a) axis ;;
  match weights with
  | None =>
      avg <- np_mean a axis ;;
      if (size_of (shape avg) =? 0)%nat then Raise ZeroDivisionError else Ok avg
  | Some wgt =>
      if shape_eqb (shape a) (shape wgt) then
        scl <- np_sum wgt axis ;;
        if existsb (fun x => x =? 0) (data scl) then Raise ZeroDivisionError
        else
          prod <- np_multiply a wgt ;;
          tot <- np_sum prod axis ;;
          np_divide tot scl
      else
        match axis with
        | None => Raise TypeError
        | Some k =>
            ax <- normalize_axis (ndim a) k ;;
            if shape_eqb (shape wgt) [nth ax (shape a) 0%nat] then
              let scl := fsum (data wgt) in
              if scl =? 0 then Raise ZeroDivisionError
              else Ok (mk_ndarray (drop_axis (shape a) ax)
                         (map (fun lane => fsum (zip_with PrimFloat.mul lane (data wgt)) / scl)
                              (lanes (shape a) ax (data a))))
            else Raise ValueError
        end
  end.

(** ** Python helpers *)

Definition py_int (n : nat) : string := NilEmpty.string_of_uint (Nat.to_uint n).

(** [repr] of a tuple of ints, as an f-string prints a shape. *)
Definition py_tuple (s : list nat) : string :=
  match s with
  | [] => "()"
  | [n] => "(" ++ py_int n ++ ",)"
  | n :: s' => "(" ++ py_int n ++ fold_right (fun k acc => ", " ++ py_int k ++ acc) ")" s'
  end%string.

(** The bounds of [a[start:stop]] on an axis of [n] elements. *)
Definition slice_index (n : nat) (i : Z) : nat :=
  Z.to_nat (Z.max 0 (Z.min (Z.of_nat n) (if (i <? 0)%Z then i + Z.of_nat n else i)%Z)).

(** [a[lo:hi]] on the first axis, for bounds already clamped. *)
Definition slice_rows {A} (a : ndarray A) (lo hi : nat) : result (ndarray A) :=
  match shape a with
  | [] => Raise IndexError
  | n :: rest =>
      let inner := size_of rest in
      Ok (mk_ndarray ((hi - lo)%nat :: rest)
            (firstn ((hi - lo) * inner) (skipn (lo * inner) (data a))))
  end.

(** [a[:stop]] and [a[start:]] *)
Definition slice_to {A} (a : ndarray A) (stop : Z) : result (ndarray A) :=
  slice_rows a 0 (slice_index (hd 0%nat (shape a)) stop).

Definition slice_from {A} (a : ndarray A) (start : Z) : result (ndarray A) :=
  slice_rows a (slice_index (hd 0%nat (shape a)) start) (hd 0%nat (shape a)).

(** The builtin [all] over an array: it iterates over the first axis, and
    the truth value of an item that is itself an array of more than one
    element is an error. *)
Fixpoint py_all_items (items : list (list bool)) : result bool :=
  match items with
  | [] => Ok true
  | [b] :: rest => if b then py_all_items rest else Ok false
  | _ :: _ => Raise ValueError
  end.

Definition py_all (a : ndarray bool) : result bool :=
  match shape a with
  | [] => Raise TypeError
  | n :: rest => py_all_items (chunks (size_of rest) n (data a))
  end.

Definition py_assert (b : bool) (msg : string) : result unit :=
  if b then Ok tt else Raise (AssertionError msg).

Definition np_ones (s : list nat) : ndarray float :=
  mk_ndarray s (repeat 1 (size_of s)).

(** [np.expand_dims(a, axis=-1)] *)
Definition expand_last {A} (a : ndarray A) : ndarray A :=
  mk_ndarray (shape a ++ [1%nat]) (data a).

(** [np.repeat(a, repeats=n, axis=-1)] for an array whose last axis has one
    element. *)
Definition repeat_last {A} (a : ndarray A) (n : nat) : ndarray A :=
  mk_ndarray (removelast (shape a) ++ [n]) (flat_map (fun x => repeat x n) (data a)).

(** [len(a)] *)
Definition py_len {A} (a : ndarray A) : result nat :=
  match shape a with
  | [] => Raise TypeError
  | n :: _ => Ok n
  end.

(** ** The metrics *)

(** The quotient of two 0-d operands is a [np.float64], on which the item
    assignment [div[...] = 0.0] is a [TypeError]. *)
Definition _divide_no_nan (a b : ndarray float) : result (ndarray float) :=
  div <- np_divide a b ;;
  match shape div with
  | [] => Raise TypeError
  | _ :: _ =>
      let div := mask_assign div (nd_map (fun x => negb (x =? x)) div) 0 in
      let div := mask_assign div (nd_map (fun x => x =? infinity) div) 0 in
      Ok div
  end.

Definition _metric_protections (y y_hat : ndarray float) (weights : option (ndarray float))
  : result unit :=
  match weights with
  | None => Ok tt
  | Some w =>
      _ <- py_assert (0 <? fsum (data w)) "Sum of weights cannot be 0" ;;
      py_assert (shape_eqb (shape w) (shape y))
        ("Wrong weight dimension weights.shape " ++ py_tuple (shape w)
         ++ ", y.shape " ++ py_tuple (shape y))
  end.

(** The reduction shared by [mae], [mse] and [quantile_loss]. *)
Definition nan_filtered_average (values : ndarray float) (weights : option (ndarray float))
  (axis : option Z) : result (ndarray float) :=
  match weights with
  | Some w =>
      let keep := nd_map (fun x => negb (np_isnan x)) values in
      vals <- mask_index values keep ;;
      wts <- mask_index w keep ;;
      np_average vals (Some wts) axis
  | None => np_nanmean values axis
  end.

Definition mae (y y_hat : ndarray float) (weights : option (ndarray float))
  (axis : option Z) : result (ndarray float) :=
  _ <- _metric_protections y y_hat weights ;;
  diff <- np_subtract y y_hat ;;
  let delta_y := np_abs diff in
  nan_filtered_average delta_y weights axis.

Definition mse (y y_hat : ndarray float) (weights : option (ndarray float))
  (axis : option Z) : result (ndarray float) :=
  _ <- _metric_protections y y_hat weights ;;
  diff <- np_subtract y y_hat ;;
  let delta_y := np_square diff in
  nan_filtered_average delta_y weights axis.

Definition rmse (y y_hat : ndarray float) (weights : option (ndarray float))
  (axis : option Z) : result (ndarray float) :=
  m <- mse y y_hat weights axis ;;
  Ok (np_sqrt m).

Definition mape (y y_hat : ndarray float) (weights : option (ndarray float))
  (axis : option Z) : result (ndarray float) :=
  _ <- _metric_protections y y_hat weights ;;
  diff <- np_subtract y y_hat ;;
  let delta_y := np_abs diff in
  let scale := np_abs y in
  mape <- _divide_no_nan delta_y scale ;;
  mape <- np_average mape weights axis ;;
  Ok (nd_map (fun x => 100 * x) mape).

Definition smape (y y_hat : ndarray float) (weights : option (ndarray float))
  (axis : option Z) : result (ndarray float) :=
  _ <- _metric_protections y y_hat weights ;;
  diff <- np_subtract y y_hat ;;
  let delta_y := np_abs diff in
  scale <- np_add (np_abs y) (np_abs y_hat) ;;
  smape <- _divide_no_nan delta_y scale ;;
  avg <- np_average smape weights axis ;;
  let smape := nd_map (fun x => 200 * x) avg in
  ok <- match shape smape, data smape with
        | [], [x] => Ok (x <=? 200)
        | _, _ => py_all (nd_map (fun x => x <=? 200) smape)
        end ;;
  _ <- py_assert ok "SMAPE should be lower than 200" ;;
  Ok smape.

Definition mase (y y_hat y_train : ndarray float) (seasonality : Z)
  (weights : option (ndarray float)) (axis : option Z) : result (ndarray float) :=
  diff <- np_subtract y y_hat ;;
  let delta_y := np_abs diff in
  delta_y <- np_average delta_y weights axis ;;
  head <- slice_to y_train (- seasonality) ;;
  tail <- slice_from y_train seasonality ;;
  diff <- np_subtract head tail ;;
  let scale := np_abs diff in
  scale <- np_average scale None axis ;;
  np_divide delta_y scale.

Definition rmae (y y_hat1 y_hat2 : ndarray float) (weights : option (ndarray float))
  (axis : option Z) : result (ndarray float) :=
  numerator <- mae y y_hat1 weights axis ;;
  denominator <- mae y y_hat2 weights axis ;;
  np_divide numerator denominator.

Definition quantile_loss (y y_hat : ndarray float) (q : float)
  (weights : option (ndarray float)) (axis : option Z) : result (ndarray float) :=
  _ <- _metric_protections y y_hat weights ;;
  delta_y <- np_subtract y y_hat ;;
  loss <- elementwise np_maximum (nd_map (fun d => q * d) delta_y)
                                 (nd_map (fun d => (q - 1) * d) delta_y) ;;
  nan_filtered_average loss weights axis.

Definition mqloss (y y_hat quantiles : ndarray float) (weights : option (ndarray float))
  (axis : option Z) : result (ndarray float) :=
  let weights := match weights with None => np_ones (shape y) | Some w => w end in
  _ <- _metric_protections y y_hat (Some weights) ;;
  n_q <- py_len quantiles ;;
  let y_rep := expand_last y in
  error <- np_subtract y_rep y_hat ;;
  lo <- np_multiply quantiles error ;;
  hi <- np_multiply (nd_map (fun q => q - 1) quantiles) error ;;
  mqloss <- elementwise np_maximum lo hi ;;
  let weights := repeat_last (expand_last weights) n_q in
  np_average mqloss (Some weights) axis.

Definition coverage (y y_hat_lo y_hat_hi : ndarray float) : result (ndarray float) :=
  above <- elementwise (fun a b => b <=? a) y y_hat_lo ;;
  below <- elementwise PrimFloat.leb y y_hat_hi ;;
  inside <- elementwise andb above below ;;
  Ok (scalar (100 * mean_bool inside)).

Definition calibration (y y_hat_hi : ndarray float) : result (ndarray float) :=
  below <- elementwise PrimFloat.leb y y_hat_hi ;;
  Ok (scalar (mean_bool below)).

Definition scaled_crps (y y_hat quantiles : ndarray float) (weights : option (ndarray float))
  (axis : option Z) : result (ndarray float) :=
  let norm := fsum (data (np_abs y)) in
  loss <- mqloss y y_hat quantiles weights axis ;;
  let count := fsum (data (np_ones (shape y))) in
  Ok (nd_map (fun l => 2 * l * count / (norm + eps)) loss).


(** ** Notions used in the statements *)

(** What [_divide_no_nan] leaves at one position. *)
Definition safe_quotient (x y : float) : float :=
  let q := x / y in
  if np_isnan q then 0 else if q =? infinity then 0 else q.

(** Classes of binary64 values, read off their specification [Prim2SF]. *)

(** The sign of [r] is [s], or [r] is NaN. *)
Definition sf_signed (s : bool) (r : spec_float) : bool :=
  match r with
  | S754_nan => true
  | S754_zero b | S754_infinity b | S754_finite b _ _ => Bool.eqb b s
  end.

(** NaN, or a value whose sign bit is clear: what [abs] returns. *)
Definition unsigned (x : float) : bool := sf_signed false (Prim2SF x).

(** NaN, a zero of either sign, or a positive value. *)
Definition sf_nonneg (r : spec_float) : bool :=
  match r with
  | S754_nan | S754_zero _ => true
  | S754_infinity b | S754_finite b _ _ => negb b
  end.

Definition nonneg_or_nan (x : float) : bool := sf_nonneg (Prim2SF x).

(** Rounding: the state of a right shift is exact when no bit was lost. *)
Definition rec_exact (r : shr_record) : bool := negb (shr_r r) && negb (shr_s r).

Local Open Scope Z_scope.

(** [V m e] is [m * 2^e] scaled to an integer; every exponent met below is
    above [-2200]. *)
Definition V (m e : Z) : Z := m * 2 ^ (e + 2200).

Arguments V : simpl never.

(** The binary64 value of a rounded mantissa and exponent. *)
Definition pack (m e : Z) : spec_float :=
  match m with
  | Z0 => S754_zero false
  | Zpos p => if e <=? emax - prec then S754_finite false p e else S754_infinity false
  | Zneg _ => S754_nan
  end.

(** Finite values that are not negative, and their scaled value. *)
Definition sf_fin_nonneg (s : spec_float) : bool :=
  match s with
  | S754_zero _ | S754_finite false _ _ => true
  | _ => false
  end.

Definition sf_val (s : spec_float) : Z :=
  match s with
  | S754_finite false m e => V (Z.pos m) e
  | _ => 0
  end.


Local Close Scope Z_scope.

Definition fin_nonneg (x : float) : bool := sf_fin_nonneg (Prim2SF x).

Definition fval (x : float) : Z := sf_val (Prim2SF x).

(** The number of [true] entries. *)
Definition count_true (l : list bool) : Z := Z.of_nat (length (filter (fun b => b) l)).

(** The in-sample errors of the seasonal naive forecast,
    [|y_train[i] - y_train[i + s]|] for every row [i] that has a row [i + s]. *)
Definition seasonal_naive_errors (y_train : ndarray float) (s : nat) : ndarray float :=
  let n := hd 0%nat (shape y_train) in
  let inner := size_of (tl (shape y_train)) in
  mk_ndarray ((n - s)%nat :: tl (shape y_train))
    (zip_with (fun a b => abs (a - b))
       (firstn ((n - s) * inner) (data y_train))
       (skipn (s * inner) (data y_train))).

(** The indicators of [coverage] and [calibration], position by position; an
    observation that is NaN is outside every interval and below no bound. *)
Fixpoint interval_indicator (y lo hi : list float) : list bool :=
  match y, lo, hi with
  | a :: y', l :: lo', h :: hi' =>
      (negb (np_isnan a) && ((l <=? a) && (a <=? h))) :: interval_indicator y' lo' hi'
  | _, _, _ => []
  end.

Fixpoint bound_indicator (y hi : list float) : list bool :=
  match y, hi with
  | a :: y', h :: hi' => (negb (np_isnan a) && (a <=? h)) :: bound_indicator y' hi'
  | _, _ => []
  end.

(** The positions of [y] that hold a number. *)
Definition observed (y : ndarray float) : list bool :=
  map (fun a => negb (np_isnan a)) (data y).

(** Weights none of which is negative. *)
Definition nonneg_weights (weights : option (ndarray float)) : Prop :=
  match weights with
  | None => True
  | Some w => wf w /\ Forall (fun x => (0 <=? x) = true) (data w)
  end.

(** What [smape] has computed when it reaches its assertion. *)
Definition smape_values (y y_hat : ndarray float) (weights : option (ndarray float))
  (axis : option Z) : result (ndarray float) :=
  _ <- _metric_protections y y_hat weights ;;
  diff <- np_subtract y y_hat ;;
  scale <- np_add (np_abs y) (np_abs y_hat) ;;
  quot <- _divide_no_nan (np_abs diff) scale ;;
  avg <- np_average quot weights axis ;;
  Ok (nd_map (fun x => 200 * x) avg).

(** The quantile losses of [mqloss], one per observation and quantile, for a
    forecast that holds one value per observation and quantile. *)
Definition pinball_terms (y y_hat quantiles : ndarray float) : list float :=
  let n_q := length (data quantiles) in
  let error := zip_with PrimFloat.sub (flat_map (fun x => repeat x n_q) (data y))
                        (data y_hat) in
  let q := concat (repeat (data quantiles) (size_of (shape y))) in
  let q1 := concat (repeat (map (fun q => q - 1) (data quantiles)) (size_of (shape y))) in
  zip_with np_maximum (zip_with PrimFloat.mul q error) (zip_with PrimFloat.mul q1 error).

(** The weights [mqloss] averages with: those given, or ones. *)
Definition default_weights (y : ndarray float) (weights : option (ndarray float))
  : ndarray float :=
  match weights with None => np_ones (shape y) | Some w => w end.



(** A one-dimensional array of levels between 0 and 1. *)
Definition quantile_levels (quantiles : ndarray float) : Prop :=
  shape quantiles = [length (data quantiles)]
  /\ Forall (fun q => (0 <=? q) = true /\ (q <=? 1) = true) (data quantiles).

(** The mean of the entries that are numbers. *)
Definition mean_of_numbers (l : list float) : float :=
  fmean (filter (fun x => negb (np_isnan x)) l).

(** The positions of an array that hold a number. *)
Definition kept (values : ndarray float) : list bool :=
  map (fun x => negb (np_isnan x)) (data values).




(** The message of a failed validation. *)
Definition validation_message (y w : ndarray float) : string :=
  if 0 <? fsum (data w) then
    ("Wrong weight dimension weights.shape " ++ py_tuple (shape w)
     ++ ", y.shape " ++ py_tuple (shape y))%string
  else "Sum of weights cannot be 0"%string.

(** No weights, or arrays of one shape with weights none of which is
    negative. *)
Definition plain_or_nonneg (y y_hat : ndarray float) (weights : option (ndarray float))
  : Prop :=
  match weights with
  | None => True
  | Some w => wf y /\ wf y_hat /\ shape y_hat = shape y /\ wf w
              /\ Forall (fun x => (0 <=? x) = true) (data w)
  end.

(** The quantile losses of [quantile_loss], one per observation. *)
Definition quantile_terms (y y_hat : ndarray float) (q : float) : list float :=
  map (fun d => np_maximum (q * d) ((q - 1) * d))
      (zip_with PrimFloat.sub (data y) (data y_hat)).

(** NaN, a zero of either sign, or a negative value. *)
Definition sf_nonpos (r : spec_float) : bool :=
  match r with
  | S754_nan | S754_zero _ => true
  | S754_infinity b | S754_finite b _ _ => b
  end.

Definition nonpos_or_nan (x : float) : bool := sf_nonpos (Prim2SF x).

(** * Properties *)

(** ** Lists, shapes and broadcasting *)

Lemma shape_eqb_refl (s : list nat) : shape_eqb s s = true.
Proof. unfold shape_eqb. destruct (list_eq_dec Nat.eq_dec s s); congruence. Qed.

Lemma shape_eqb_eq (s t : list nat) : shape_eqb s t = true <-> s = t.
Proof.
  unfold shape_eqb. destruct (list_eq_dec Nat.eq_dec s t); split; congruence.
Qed.

Lemma shape_eqb_neq (s t : list nat) : shape_eqb s t = false <-> s <> t.
Proof.
  unfold shape_eqb. destruct (list_eq_dec Nat.eq_dec s t); split; congruence.
Qed.

Lemma zip_with_length {A B C} (f : A -> B -> C) (l : list A) (m : list B) :
  length (zip_with f l m) = Nat.min (length l) (length m).
Proof.
  revert m. induction l as [|x l IH]; intros [|y m]; simpl; auto.
Qed.

Lemma zip_with_map_l {A A' B C} (f : A' -> B -> C) (g : A -> A') l m :
  zip_with f (map g l) m = zip_with (fun x y => f (g x) y) l m.
Proof.
  revert m. induction l as [|x l IH]; intros [|y m]; simpl; auto. now rewrite IH.
Qed.

Lemma zip_with_map_r {A B B' C} (f : A -> B' -> C) (g : B -> B') l m :
  zip_with f l (map g m) = zip_with (fun x y => f x (g y)) l m.
Proof.
  revert m. induction l as [|x l IH]; intros [|y m]; simpl; auto. now rewrite IH.
Qed.

Lemma map_zip_with {A B C D} (g : C -> D) (f : A -> B -> C) l m :
  map g (zip_with f l m) = zip_with (fun x y => g (f x y)) l m.
Proof.
  revert m. induction l as [|x l IH]; intros [|y m]; simpl; auto. now rewrite IH.
Qed.

Lemma zip_with_diag {A C} (f : A -> A -> C) (l : list A) :
  zip_with f l l = map (fun x => f x x) l.
Proof. induction l as [|x l IH]; simpl; congruence. Qed.

Lemma zip_with_ext {A B C} (f g : A -> B -> C) l m :
  (forall x y, f x y = g x y) -> zip_with f l m = zip_with g l m.
Proof.
  intros E. revert m. induction l as [|x l IH]; intros [|y m]; simpl; auto.
  now rewrite E, IH.
Qed.

Lemma chunks_length {A} (n k : nat) (d : list A) : length (chunks n k d) = k.
Proof. revert d. induction k as [|k IH]; intros d; simpl; auto. Qed.

Lemma chunks_concat {A} (n k : nat) (d : list A) :
  length d = (k * n)%nat -> concat (chunks n k d) = d.
Proof.
  revert d. induction k as [|k IH]; intros d H; simpl in *.
  - now destruct d.
  - rewrite IH.
    + apply firstn_skipn.
    + rewrite length_skipn. lia.
Qed.

Lemma chunks_block_length {A} (n k : nat) (d : list A) :
  length d = (k * n)%nat -> Forall (fun c => length c = n) (chunks n k d).
Proof.
  revert d. induction k as [|k IH]; intros d H; simpl in *; constructor.
  - rewrite length_firstn. lia.
  - apply IH. rewrite length_skipn. lia.
Qed.

Lemma flat_map_id_on {A} (f : list A -> list A) (ls : list (list A)) :
  Forall (fun c => f c = c) ls -> flat_map f ls = concat ls.
Proof.
  induction 1 as [|c ls Hc _ IH]; simpl; congruence.
Qed.

Lemma tile_same {A} (s : list nat) (d : list A) :
  length d = size_of s -> tile s s d = d.
Proof.
  revert d. induction s as [|n s IH]; intros d H; simpl in *; auto.
  rewrite Nat.eqb_refl.
  rewrite flat_map_id_on.
  - now apply chunks_concat.
  - eapply Forall_impl; [|apply chunks_block_length; exact H].
    intros c Hc. now apply IH.
Qed.

Lemma broadcast_rev_same (s : list nat) : broadcast_rev s s = Some s.
Proof.
  induction s as [|n s IH]; simpl; auto. now rewrite IH, Nat.eqb_refl.
Qed.

Lemma broadcast_shapes_same (s : list nat) : broadcast_shapes s s = Some s.
Proof.
  unfold broadcast_shapes. rewrite broadcast_rev_same. simpl. now rewrite rev_involutive.
Qed.

Lemma broadcast_to_same {A} (a : ndarray A) : wf a -> broadcast_to a (shape a) = data a.
Proof.
  intros H. unfold broadcast_to, ndim. rewrite Nat.sub_diag. simpl. now apply tile_same.
Qed.

(** On arrays of one shape an elementwise operation pairs the elements. *)
Lemma elementwise_same_shape {A B C} (f : A -> B -> C) (a : ndarray A) (b : ndarray B) :
  wf a -> wf b -> shape a = shape b ->
  elementwise f a b = Ok (mk_ndarray (shape a) (zip_with f (data a) (data b))).
Proof.
  intros Ha Hb E. unfold elementwise. rewrite <- E, broadcast_shapes_same.
  rewrite broadcast_to_same by assumption.
  rewrite E at 2. now rewrite broadcast_to_same by assumption.
Qed.

(** ** Binary64 arithmetic: NaN, zeros, infinities and signs *)

Ltac to_spec :=
  rewrite ?leb_spec, ?ltb_spec, ?FloatAxioms.eqb_spec in *;
  rewrite ?add_spec, ?mul_spec, ?div_spec, ?sub_spec, ?abs_spec, ?sqrt_spec in *.

Lemma SFcompare_refl (s : spec_float) : s <> S754_nan -> SFcompare s s = Some Eq.
Proof.
  destruct s as [[]|[]| |[] m e]; simpl; try congruence; intros _;
    rewrite Z.compare_refl, Pos.compare_cont_refl; reflexivity.
Qed.

Lemma np_isnan_spec (x : float) : np_isnan x = true <-> Prim2SF x = S754_nan.
Proof.
  unfold np_isnan. to_spec. unfold SFeqb.
  destruct (Prim2SF x) eqn:E; try (rewrite SFcompare_refl by congruence);
    simpl; split; congruence.
Qed.

Lemma np_isnan_false (x : float) : np_isnan x = false <-> Prim2SF x <> S754_nan.
Proof.
  rewrite <- np_isnan_spec. destruct (np_isnan x); split; congruence.
Qed.

Lemma np_isnan_eq (x : float) : np_isnan x = true <-> x = nan.
Proof.
  rewrite np_isnan_spec. split.
  - intros H. apply Prim2SF_inj. rewrite H. reflexivity.
  - intros ->. reflexivity.
Qed.

Lemma is_zero_spec (x : float) :
  PrimFloat.is_zero x = true <-> exists s, Prim2SF x = S754_zero s.
Proof.
  unfold PrimFloat.is_zero. to_spec. change (Prim2SF zero) with (S754_zero false).
  destruct (Prim2SF x) as [s|[]| |[] m e]; unfold SFeqb; simpl;
    (split; [try discriminate; eauto | try (intros [? ?]; discriminate); auto]).
Qed.

Lemma is_infinity_spec (x : float) :
  is_infinity x = true <-> exists s, Prim2SF x = S754_infinity s.
Proof.
  unfold is_infinity. to_spec. change (Prim2SF infinity) with (S754_infinity false).
  destruct (Prim2SF x) as [s|s| |s m e]; unfold SFeqb; simpl;
    (split; [try discriminate; eauto | try (intros [? ?]; discriminate); auto]).
Qed.

Lemma leb_nan_l (x : float) : (nan <=? x) = false.
Proof. to_spec. reflexivity. Qed.

Lemma leb_nan_r (x : float) : (x <=? nan) = false.
Proof.
  to_spec. change (Prim2SF nan) with S754_nan.
  unfold SFleb. destruct (Prim2SF x) as [s|s| |s m e]; reflexivity.
Qed.

Lemma leb_true_not_nan (x y : float) :
  (x <=? y) = true -> np_isnan x = false /\ np_isnan y = false.
Proof.
  intros H. split; apply not_true_is_false; rewrite np_isnan_eq; intros ->.
  - now rewrite leb_nan_l in H.
  - now rewrite leb_nan_r in H.
Qed.

Lemma ltb_true_not_nan (x y : float) :
  (x <? y) = true -> np_isnan x = false /\ np_isnan y = false.
Proof.
  intros H. split; apply np_isnan_false; intros E; to_spec; rewrite E in H.
  - discriminate.
  - unfold SFltb in H. destruct (Prim2SF x) as [s|s| |s m e]; discriminate.
Qed.

(** *** What a rounded result can be *)

Lemma binary_round_aux_signed (s : bool) (m e : Z) (l : location) :
  sf_signed s (binary_round_aux prec emax s m e l) = true.
Proof.
  unfold binary_round_aux.
  destruct (shr_fexp prec emax m e l) as [r1 e1].
  destruct (shr_fexp prec emax _ e1 loc_Exact) as [r2 e2].
  destruct (shr_m r2); [| destruct (e2 <=? emax - prec)%Z |]; simpl;
    try apply Bool.eqb_reflx; reflexivity.
Qed.

Lemma binary_round_signed (s : bool) (m : positive) (e : Z) :
  sf_signed s (binary_round prec emax s m e) = true.
Proof.
  unfold binary_round. destruct (shl_align m e _). apply binary_round_aux_signed.
Qed.

Lemma sf_signed_nonneg (r : spec_float) : sf_signed false r = true -> sf_nonneg r = true.
Proof. destruct r as [[]|[]| |[] m e]; simpl; auto. Qed.

Lemma unsigned_nonneg (x : float) : unsigned x = true -> nonneg_or_nan x = true.
Proof. apply sf_signed_nonneg. Qed.

Lemma nonneg_leb (x : float) :
  (0 <=? x) = true <-> nonneg_or_nan x = true /\ np_isnan x = false.
Proof.
  rewrite np_isnan_false. unfold nonneg_or_nan. to_spec.
  change (Prim2SF 0) with (S754_zero false).
  destruct (Prim2SF x) as [s|[]| |[] m e]; unfold SFleb; simpl;
    intuition (try discriminate; try congruence).
Qed.

Lemma abs_unsigned (x : float) : unsigned (abs x) = true.
Proof. unfold unsigned. to_spec. destruct (Prim2SF x); reflexivity. Qed.

Lemma add_unsigned (x y : float) :
  unsigned x = true -> unsigned y = true -> unsigned (x + y) = true.
Proof.
  unfold unsigned. to_spec.
  destruct (Prim2SF x) as [[]|[]| |[] mx ex]; simpl; try discriminate;
    destruct (Prim2SF y) as [[]|[]| |[] my ey]; simpl; try discriminate; auto.
  intros _ _. unfold SF64add, SFadd. simpl cond_Zopp.
  apply binary_round_signed.
Qed.

Lemma div_unsigned (x y : float) :
  unsigned x = true -> unsigned y = true -> unsigned (x / y) = true.
Proof.
  unfold unsigned. to_spec.
  destruct (Prim2SF x) as [[]|[]| |[] mx ex]; simpl; try discriminate;
    destruct (Prim2SF y) as [[]|[]| |[] my ey]; simpl; try discriminate; auto.
  intros _ _. unfold SF64div, SFdiv.
  destruct (SFdiv_core_binary prec emax (Z.pos mx) ex (Z.pos my) ey) as [[mz ez] lz].
  apply binary_round_aux_signed.
Qed.

Lemma add_nonneg (x y : float) :
  nonneg_or_nan x = true -> nonneg_or_nan y = true -> nonneg_or_nan (x + y) = true.
Proof.
  unfold nonneg_or_nan. to_spec.
  destruct (Prim2SF x) as [[]|[]| |[] mx ex]; simpl; try discriminate;
    destruct (Prim2SF y) as [[]|[]| |[] my ey]; simpl; try discriminate; auto.
  intros _ _. unfold SF64add, SFadd. simpl cond_Zopp.
  apply sf_signed_nonneg, binary_round_signed.
Qed.

Lemma mul_nonneg (x y : float) :
  nonneg_or_nan x = true -> nonneg_or_nan y = true -> nonneg_or_nan (x * y) = true.
Proof.
  unfold nonneg_or_nan. to_spec.
  destruct (Prim2SF x) as [[]|[]| |[] mx ex]; simpl; try discriminate;
    destruct (Prim2SF y) as [[]|[]| |[] my ey]; simpl; try discriminate; auto.
  intros _ _. apply sf_signed_nonneg, binary_round_aux_signed.
Qed.

(** Division by a positive value keeps what is not negative so. *)
Lemma div_nonneg (x y : float) :
  nonneg_or_nan x = true -> (0 <? y) = true -> nonneg_or_nan (x / y) = true.
Proof.
  unfold nonneg_or_nan. to_spec. change (Prim2SF 0) with (S754_zero false).
  destruct (Prim2SF x) as [[]|[]| |[] mx ex]; simpl; try discriminate;
    destruct (Prim2SF y) as [[]|[]| |[] my ey]; simpl; try discriminate; auto.
  intros _ _. unfold SF64div, SFdiv.
  destruct (SFdiv_core_binary prec emax (Z.pos mx) ex (Z.pos my) ey) as [[mz ez] lz].
  apply sf_signed_nonneg, binary_round_aux_signed.
Qed.

(** ** Rounding to binary64 *)

Ltac fexp_unfold := unfold fexp, SpecFloat.emin, prec, emax in *.

Section Rounding.
Local Open Scope Z_scope.

Lemma digits2_size (p : positive) : digits2_pos p = Pos.size p.
Proof. induction p; simpl; congruence. Qed.

Lemma digits_upper (p : positive) : Z.pos p < 2 ^ Z.pos (digits2_pos p).
Proof.
  rewrite digits2_size. pose proof (Pos.size_gt p) as H.
  apply Pos2Z.pos_lt_pos in H. now rewrite Pos2Z.inj_pow in H.
Qed.

Lemma digits_lower (p : positive) : 2 ^ (Z.pos (digits2_pos p) - 1) <= Z.pos p.
Proof.
  rewrite digits2_size. pose proof (Pos.size_le p) as H.
  apply Pos2Z.pos_le_pos in H. rewrite Pos2Z.inj_pow in H.
  replace (Z.pos (Pos.size p)) with (1 + (Z.pos (Pos.size p) - 1)) in H by lia.
  rewrite Z.pow_add_r in H by lia. change (2 ^ 1) with 2 in H.
  change (Z.pos p~0) with (2 * Z.pos p) in H. lia.
Qed.

Lemma Zdigits2_nonneg (m : Z) : 0 <= Zdigits2 m.
Proof. destruct m; simpl; lia. Qed.

Lemma Zdigits2_upper (m : Z) : 0 <= m -> m < 2 ^ Zdigits2 m.
Proof.
  destruct m as [|p|p]; simpl; intros H; try lia. apply digits_upper.
Qed.

Lemma Zdigits2_lower (m : Z) : 0 < m -> 2 ^ (Zdigits2 m - 1) <= m.
Proof.
  destruct m as [|p|p]; simpl; intros H; try lia. apply digits_lower.
Qed.

(** The number of digits is determined by the binade. *)
Lemma Zdigits2_unique (m d : Z) : 2 ^ (d - 1) <= m < 2 ^ d -> 0 < d -> Zdigits2 m = d.
Proof.
  intros [L U] Hd.
  assert (0 < m) by (pose proof (Z.pow_pos_nonneg 2 (d - 1)); lia).
  pose proof (Zdigits2_upper m ltac:(lia)) as U'.
  pose proof (Zdigits2_lower m ltac:(lia)) as L'.
  pose proof (Zdigits2_nonneg m) as N.
  destruct (Z.lt_trichotomy (Zdigits2 m) d) as [C|[C|C]]; auto; exfalso.
  - assert (2 ^ Zdigits2 m <= 2 ^ (d - 1)) by (apply Z.pow_le_mono_r; lia). lia.
  - assert (2 ^ d <= 2 ^ (Zdigits2 m - 1)) by (apply Z.pow_le_mono_r; lia). lia.
Qed.

Lemma Zdigits2_le (m n : Z) : 0 <= m <= n -> Zdigits2 m <= Zdigits2 n.
Proof.
  intros [H0 H].
  destruct (Z.eq_dec m 0) as [->|N].
  - apply Zdigits2_nonneg.
  - pose proof (Zdigits2_lower m ltac:(lia)).
    pose proof (Zdigits2_upper n ltac:(lia)).
    destruct (Z_lt_le_dec (Zdigits2 n) (Zdigits2 m)); auto; try lia.
    assert (2 ^ Zdigits2 n <= 2 ^ (Zdigits2 m - 1)) by (apply Z.pow_le_mono_r; lia).
    lia.
Qed.


(** *** Right shifts *)


Lemma rec_exact_loc (r : shr_record) :
  rec_exact r = true <-> loc_of_shr_record r = loc_Exact.
Proof.
  destruct r as [m [] []]; unfold rec_exact; simpl; split; intros; try discriminate; auto.
Qed.

Lemma shr_record_of_loc_m (m : Z) (l : location) : shr_m (shr_record_of_loc m l) = m.
Proof. destruct l as [|[]]; reflexivity. Qed.

Lemma shr_record_of_loc_exact (m : Z) (l : location) :
  rec_exact (shr_record_of_loc m l) = true <-> l = loc_Exact.
Proof.
  destruct l as [|[]]; unfold rec_exact; simpl; split; intros; try discriminate; auto.
Qed.

Lemma shr_1_m (r : shr_record) : 0 <= shr_m r -> shr_m (shr_1 r) = shr_m r / 2.
Proof.
  destruct r as [m b s]. simpl. intros H.
  rewrite <- Z.div2_div. destruct m as [|[p|p|]|p]; simpl; auto; lia.
Qed.

Lemma shr_1_exact (r : shr_record) :
  0 <= shr_m r -> rec_exact r = true -> shr_m r mod 2 = 0 -> rec_exact (shr_1 r) = true.
Proof.
  destruct r as [m b s]. unfold rec_exact. simpl. intros H E M.
  apply andb_prop in E. destruct E as [Eb Es].
  apply negb_true_iff in Eb, Es. subst b s.
  destruct m as [|[p|p|]|p]; simpl; auto; try lia.
  - rewrite Pos2Z.inj_xI in M. rewrite Z.add_comm, Z.mul_comm, Z.mod_add in M by lia.
    discriminate.
  - discriminate.
Qed.

Lemma iter_pos_nat {A} (f : A -> A) (p : positive) (x : A) :
  SpecFloat.iter_pos f p x = Nat.iter (Pos.to_nat p) f x.
Proof.
  revert x. induction p as [p IH|p IH|]; intros x.
  - change (SpecFloat.iter_pos f p~1 x)
      with (SpecFloat.iter_pos f p (SpecFloat.iter_pos f p (f x))).
    rewrite !IH, Pos2Nat.inj_xI. rewrite <- Nat.iter_succ_r, <- Nat.iter_add.
    f_equal. lia.
  - change (SpecFloat.iter_pos f p~0 x)
      with (SpecFloat.iter_pos f p (SpecFloat.iter_pos f p x)).
    rewrite !IH, Pos2Nat.inj_xO. rewrite <- Nat.iter_add. f_equal. lia.
  - reflexivity.
Qed.

Lemma shr_iter_m (n : nat) (r : shr_record) :
  0 <= shr_m r -> shr_m (Nat.iter n shr_1 r) = shr_m r / 2 ^ Z.of_nat n.
Proof.
  intros H. induction n as [|n IH].
  - simpl. now rewrite Z.div_1_r.
  - rewrite Nat.iter_succ, shr_1_m, IH.
    + rewrite Z.div_div by lia. f_equal.
      rewrite Nat2Z.inj_succ, Z.pow_succ_r by lia. lia.
    + rewrite IH. apply Z.div_pos; lia.
Qed.

Lemma shr_iter_exact (n : nat) (r : shr_record) :
  0 <= shr_m r -> rec_exact r = true -> shr_m r mod 2 ^ Z.of_nat n = 0 ->
  rec_exact (Nat.iter n shr_1 r) = true.
Proof.
  intros H E. induction n as [|n IH]; intros M.
  - exact E.
  - rewrite Nat2Z.inj_succ, Z.pow_succ_r in M by lia.
    assert (P : 0 < 2 ^ Z.of_nat n) by (apply Z.pow_pos_nonneg; lia).
    apply Z.mod_divide in M; [|lia]. destruct M as [k M].
    rewrite Nat.iter_succ. apply shr_1_exact.
    + rewrite shr_iter_m by assumption. apply Z.div_pos; lia.
    + apply IH. rewrite M. apply Z.mod_divide; [lia|]. exists (k * 2). lia.
    + rewrite shr_iter_m by assumption. rewrite M.
      replace (k * (2 * 2 ^ Z.of_nat n)) with ((k * 2) * 2 ^ Z.of_nat n) by lia.
      rewrite Z.div_mul by lia. now rewrite Z.mod_mul.
Qed.

(** [shr] divides the mantissa by a power of two, and keeps an exact
    location when the division is exact. *)
Lemma shr_spec (m : Z) (l : location) (e n : Z) (r : shr_record) (e' : Z) :
  0 <= m -> shr (shr_record_of_loc m l) e n = (r, e') ->
  e' = e + Z.max 0 n /\ shr_m r = m / 2 ^ Z.max 0 n /\
  (l = loc_Exact -> m mod 2 ^ Z.max 0 n = 0 -> loc_of_shr_record r = loc_Exact).
Proof.
  intros H S. destruct n as [|p|p]; simpl in S; inversion S; subst; clear S.
  - simpl. rewrite Z.div_1_r, shr_record_of_loc_m. repeat split; try lia.
    intros ->. reflexivity.
  - rewrite iter_pos_nat.
    replace (Z.max 0 (Z.pos p)) with (Z.of_nat (Pos.to_nat p)) by lia.
    repeat split.
    + lia.
    + rewrite shr_iter_m; rewrite shr_record_of_loc_m; auto.
    + intros El M. apply rec_exact_loc. apply shr_iter_exact.
      * now rewrite shr_record_of_loc_m.
      * now apply shr_record_of_loc_exact.
      * now rewrite shr_record_of_loc_m.
  - simpl. rewrite Z.div_1_r, shr_record_of_loc_m. repeat split; try lia.
    intros ->. reflexivity.
Qed.

Lemma round_nearest_even_bounds (m : Z) (l : location) :
  m <= round_nearest_even m l <= m + 1 /\ (l = loc_Exact -> round_nearest_even m l = m).
Proof.
  destruct l as [|[]]; simpl; try destruct (Z.even m); split; auto; try lia; discriminate.
Qed.


(** *** Values on a common scale *)


Lemma pow2_pos (n : Z) : 0 <= n -> 0 < 2 ^ n.
Proof. intros. apply Z.pow_pos_nonneg; lia. Qed.

Lemma V_shift (m e n : Z) : 0 <= n -> -2200 <= e -> V m (e + n) = V (m * 2 ^ n) e.
Proof.
  intros Hn He. unfold V.
  replace (e + n + 2200) with (n + (e + 2200)) by lia.
  rewrite Z.pow_add_r by lia. lia.
Qed.

Lemma V_le (m m' e : Z) : -2200 <= e -> m <= m' -> V m e <= V m' e.
Proof.
  intros He H. unfold V. apply Z.mul_le_mono_nonneg_r; auto.
  pose proof (pow2_pos (e + 2200)); lia.
Qed.

Lemma V_lt (m m' e : Z) : -2200 <= e -> m < m' -> V m e < V m' e.
Proof.
  intros He H. unfold V. apply Z.mul_lt_mono_pos_r; auto.
  apply pow2_pos; lia.
Qed.

Lemma V_lt_inv (m m' e : Z) : -2200 <= e -> V m e < V m' e -> m < m'.
Proof.
  intros He H. unfold V in H. apply Z.mul_lt_mono_pos_r in H; auto.
  apply pow2_pos; lia.
Qed.

Lemma V_le_inv (m m' e : Z) : -2200 <= e -> V m e <= V m' e -> m <= m'.
Proof.
  intros He H. unfold V in H. apply Z.mul_le_mono_pos_r in H; auto.
  apply pow2_pos; lia.
Qed.

(** A [d]-digit mantissa at exponent [e] lies in the binade of [2^(d+e)]. *)
Lemma V_binade (m e : Z) :
  0 < m -> -2200 <= e ->
  2 ^ (Zdigits2 m - 1 + e + 2200) <= V m e < 2 ^ (Zdigits2 m + e + 2200).
Proof.
  intros Hm He. unfold V.
  pose proof (Zdigits2_lower m Hm) as L. pose proof (Zdigits2_upper m ltac:(lia)) as U.
  assert (D : 0 < Zdigits2 m) by (destruct m; simpl; lia).
  pose proof (pow2_pos (e + 2200) ltac:(lia)) as P.
  split.
  - replace (Zdigits2 m - 1 + e + 2200) with ((Zdigits2 m - 1) + (e + 2200)) by lia.
    rewrite (Z.pow_add_r 2 (Zdigits2 m - 1) (e + 2200)) by lia.
    apply Z.mul_le_mono_nonneg_r; lia.
  - replace (Zdigits2 m + e + 2200) with (Zdigits2 m + (e + 2200)) by lia.
    rewrite (Z.pow_add_r 2 (Zdigits2 m) (e + 2200)) by lia.
    apply Z.mul_lt_mono_pos_r; lia.
Qed.

Lemma floor_pow2 (m n : Z) :
  0 <= m -> 0 <= n -> (m / 2 ^ n) * 2 ^ n <= m < (m / 2 ^ n + 1) * 2 ^ n.
Proof.
  intros Hm Hn. pose proof (pow2_pos n Hn) as P.
  pose proof (Z.div_mod m (2 ^ n) ltac:(lia)) as D.
  pose proof (Z.mod_pos_bound m (2 ^ n) P) as B. nia.
Qed.

(** *** Truncation to the format *)

Lemma truncation (mx ex : Z) :
  0 <= mx -> ex <= fexp prec emax (Zdigits2 mx + ex) ->
  let e1 := fexp prec emax (Zdigits2 mx + ex) in
  let m1 := mx / 2 ^ (e1 - ex) in
  0 <= m1 /\ -1074 <= e1 /\
  (0 < m1 -> Zdigits2 m1 + e1 = Zdigits2 mx + ex) /\
  (m1 = 0 -> e1 = -1074) /\
  (-1074 < e1 -> 2 ^ 52 <= m1).
Proof.
  intros Hm Hn e1 m1.
  assert (Hn' : 0 <= e1 - ex) by (subst e1; lia).
  pose proof (pow2_pos _ Hn') as P.
  pose proof (floor_pow2 mx (e1 - ex) Hm Hn') as F. fold m1 in F.
  pose proof (Zdigits2_nonneg mx) as Dn.
  assert (H1 : 0 <= m1) by (subst m1; apply Z.div_pos; lia).
  assert (E1 : -1074 <= e1) by (subst e1; fexp_unfold; lia).
  assert (Hd : 0 < m1 -> Zdigits2 m1 = Zdigits2 mx - (e1 - ex)).
  { intros Hp.
    assert (Hmx : 0 < mx) by nia.
    pose proof (Zdigits2_lower mx Hmx) as L. pose proof (Zdigits2_upper mx Hm) as U.
    assert (Hlt : e1 - ex < Zdigits2 mx).
    { destruct (Z_lt_le_dec (e1 - ex) (Zdigits2 mx)); auto.
      assert (2 ^ Zdigits2 mx <= 2 ^ (e1 - ex)) by (apply Z.pow_le_mono_r; lia).
      nia. }
    apply Zdigits2_unique; [|lia].
    replace (Zdigits2 mx) with ((Zdigits2 mx - (e1 - ex)) + (e1 - ex)) in U by lia.
    replace (Zdigits2 mx - 1) with ((Zdigits2 mx - (e1 - ex) - 1) + (e1 - ex)) in L by lia.
    rewrite Z.pow_add_r in U, L by lia.
    pose proof (pow2_pos (Zdigits2 mx - (e1 - ex) - 1) ltac:(lia)).
    split; nia. }
  repeat split; auto.
  - intros Hp. rewrite (Hd Hp). lia.
  - intros Hz. destruct (Z.eq_dec mx 0) as [->|Hx].
    + subst e1. simpl in *. fexp_unfold. lia.
    + assert (Hmx : 0 < mx) by lia.
      pose proof (Zdigits2_lower mx Hmx) as L.
      rewrite Hz in F.
      assert (Zdigits2 mx - 1 < e1 - ex).
      { destruct (Z_lt_le_dec (Zdigits2 mx - 1) (e1 - ex)); auto.
        assert (2 ^ (e1 - ex) <= 2 ^ (Zdigits2 mx - 1)) by (apply Z.pow_le_mono_r; lia).
        lia. }
      subst e1. fexp_unfold. lia.
  - intros He.
    assert (Hmx : 0 < mx).
    { destruct (Z.eq_dec mx 0) as [->|Hx]; [|lia].
      subst e1. simpl in *. fexp_unfold. lia. }
    pose proof (Zdigits2_lower mx Hmx) as L.
    assert (Ee : e1 - ex = Zdigits2 mx - 53) by (subst e1; fexp_unfold; lia).
    subst m1. rewrite Ee. apply Z.div_le_lower_bound; [apply pow2_pos; lia|].
    rewrite <- Z.pow_add_r by lia.
    replace (Zdigits2 mx - 53 + 52) with (Zdigits2 mx - 1) by lia. exact L.
Qed.


(** *** Renormalisation after rounding *)

Lemma renormalisation (m1 m2 e1 : Z) (r3 : shr_record) (e3 : Z) :
  0 <= m1 -> -1074 <= e1 ->
  (0 < m1 -> fexp prec emax (Zdigits2 m1 + e1) = e1) ->
  (m1 = 0 -> e1 = -1074) ->
  m1 <= m2 <= m1 + 1 ->
  shr_fexp prec emax m2 e1 loc_Exact = (r3, e3) ->
  0 <= shr_m r3 /\ e1 <= e3 /\ V (shr_m r3) e3 = V m2 e1 /\
  (0 < shr_m r3 -> fexp prec emax (Zdigits2 (shr_m r3) + e3) = e3).
Proof.
  intros H1 He C1 Z1 B S. unfold shr_fexp in S.
  apply shr_spec in S; [|lia]. destruct S as (-> & -> & _).
  pose proof (Zdigits2_upper m1 H1) as U1.
  pose proof (Zdigits2_nonneg m1) as N1.
  destruct (Z_lt_le_dec m2 (2 ^ Zdigits2 m1)) as [Lt|Ge].
  - (* no new digit *)
    assert (D2 : Zdigits2 m2 = Zdigits2 m1).
    { destruct (Z.eq_dec m1 0) as [->|Nz].
      - simpl in Lt. assert (m2 = 0) by lia. subst. reflexivity.
      - pose proof (Zdigits2_lower m1 ltac:(lia)).
        apply Zdigits2_unique; [lia|]. destruct m1; simpl; lia. }
    rewrite D2.
    assert (Z0' : fexp prec emax (Zdigits2 m1 + e1) - e1 = 0).
    { destruct (Z.eq_dec m1 0) as [->|Nz].
      - rewrite (Z1 eq_refl). reflexivity.
      - rewrite C1 by lia. lia. }
    rewrite Z0'. simpl Z.max. rewrite Z.pow_0_r, Z.div_1_r, Z.add_0_r.
    repeat split; try lia. intros P. rewrite D2. lia.
  - (* the mantissa became a power of two *)
    assert (E2 : m2 = 2 ^ Zdigits2 m1) by lia.
    assert (D2 : Zdigits2 m2 = Zdigits2 m1 + 1).
    { apply Zdigits2_unique; [|lia].
      replace (Zdigits2 m1 + 1 - 1) with (Zdigits2 m1) by lia.
      rewrite Z.pow_add_r, E2 by lia. pose proof (pow2_pos _ N1). lia. }
    rewrite D2.
    destruct (Z.eq_dec m1 0) as [->|Nz].
    + rewrite (Z1 eq_refl). simpl. rewrite Z.div_1_r.
      simpl in E2. subst m2. repeat split; try lia; try reflexivity.
    + specialize (C1 ltac:(lia)).
      assert (Dp : 0 < Zdigits2 m1) by (destruct m1; simpl; lia).
      assert (N2 : fexp prec emax (Zdigits2 m1 + 1 + e1) - e1 = 0
                   \/ fexp prec emax (Zdigits2 m1 + 1 + e1) - e1 = 1)
        by (fexp_unfold; lia).
      destruct N2 as [N2|N2]; rewrite N2.
      * simpl Z.max. rewrite Z.pow_0_r, Z.div_1_r, Z.add_0_r.
        repeat split; try lia. intros _. rewrite D2. lia.
      * simpl Z.max. rewrite Z.pow_1_r.
        assert (E3 : m2 / 2 = 2 ^ (Zdigits2 m1 - 1)).
        { rewrite E2. replace (Zdigits2 m1) with (1 + (Zdigits2 m1 - 1)) at 1 by lia.
          rewrite Z.pow_add_r by lia. rewrite Z.pow_1_r.
          rewrite Z.mul_comm, Z.div_mul by lia. reflexivity. }
        rewrite E3.
        pose proof (pow2_pos (Zdigits2 m1 - 1) ltac:(lia)) as P.
        repeat split; try lia.
        -- rewrite V_shift by lia. f_equal. rewrite E2.
           replace (Zdigits2 m1) with ((Zdigits2 m1 - 1) + 1) at 2 by lia.
           rewrite Z.pow_add_r by lia. reflexivity.
        -- intros _.
           assert (D3 : Zdigits2 (2 ^ (Zdigits2 m1 - 1)) = Zdigits2 m1).
           { apply Zdigits2_unique; [|lia]. split; [lia|].
             apply Z.pow_lt_mono_r; lia. }
           rewrite D3. fexp_unfold. lia.
Qed.

(** *** The rounded result *)


Lemma round_aux_spec (mx ex : Z) (lx : location) :
  0 <= mx -> -2200 <= ex -> ex <= fexp prec emax (Zdigits2 mx + ex) ->
  let e1 := fexp prec emax (Zdigits2 mx + ex) in
  let m1 := mx / 2 ^ (e1 - ex) in
  exists m3 e3,
    binary_round_aux prec emax false mx ex lx = pack m3 e3 /\
    0 <= m3 /\ e1 <= e3 /\
    (0 < m3 -> fexp prec emax (Zdigits2 m3 + e3) = e3) /\
    V m1 e1 <= V m3 e3 <= V (m1 + 1) e1 /\
    (lx = loc_Exact -> mx mod 2 ^ (e1 - ex) = 0 -> V m3 e3 = V mx ex).
Proof.
  intros Hm He Hn e1 m1.
  destruct (truncation mx ex Hm Hn) as (T0 & T1 & T2 & T3 & T4).
  fold e1 in T0, T1, T2, T3, T4. fold m1 in T0, T2, T3, T4.
  unfold binary_round_aux.
  destruct (shr_fexp prec emax mx ex lx) as [r1 e1'] eqn:S1.
  unfold shr_fexp in S1. apply shr_spec in S1; [|lia].
  fold e1 in S1. destruct S1 as (Ee & Em & Ex).
  assert (Mx : Z.max 0 (e1 - ex) = e1 - ex) by lia.
  rewrite Mx in Em, Ex. fold m1 in Em.
  assert (Ee' : e1' = e1) by lia. clear Ee. subst e1'.
  destruct (round_nearest_even_bounds (shr_m r1) (loc_of_shr_record r1)) as [Rb Re].
  set (m2 := round_nearest_even (shr_m r1) (loc_of_shr_record r1)) in *.
  rewrite Em in Rb, Re.
  destruct (shr_fexp prec emax m2 e1 loc_Exact) as [r3 e3] eqn:S3.
  apply (renormalisation m1 m2 e1) in S3; auto; try lia.
  2:{ intros P. rewrite (T2 P). reflexivity. }
  destruct S3 as (P3 & E3 & V3 & C3).
  exists (shr_m r3), e3.
  split; [reflexivity|]. split; [exact P3|]. split; [exact E3|]. split; [exact C3|].
  split; [split|].
  - rewrite V3. apply V_le; lia.
  - rewrite V3. apply V_le; lia.
  - intros El Md. rewrite V3. specialize (Ex El Md). rewrite (Re Ex).
    assert (Es : V m1 e1 = V (m1 * 2 ^ (e1 - ex)) ex).
    { rewrite <- V_shift by lia. f_equal. lia. }
    rewrite Es. f_equal.
    pose proof (pow2_pos (e1 - ex) ltac:(lia)) as P.
    pose proof (Z.div_mod mx (2 ^ (e1 - ex)) ltac:(lia)) as D.
    fold m1 in D. rewrite Md in D. lia.
Qed.


(** *** Comparison of canonical values *)

Lemma bounded_spec (m : positive) (e : Z) :
  bounded prec emax m e = true <->
  fexp prec emax (Z.pos (digits2_pos m) + e) = e /\ e <= 971.
Proof.
  unfold bounded, canonical_mantissa.
  rewrite andb_true_iff, Z.eqb_eq, Z.leb_le. reflexivity.
Qed.

Lemma bounded_facts (m : positive) (e : Z) :
  bounded prec emax m e = true ->
  -1074 <= e <= 971 /\ Z.pos m < 2 ^ 53 /\ (-1074 < e -> 2 ^ 52 <= Z.pos m).
Proof.
  rewrite bounded_spec. intros [C E].
  pose proof (digits_upper m) as U. pose proof (digits_lower m) as L.
  assert (D : Z.pos (digits2_pos m) <= 53) by (fexp_unfold; lia).
  repeat split; try (fexp_unfold; lia).
  - assert (2 ^ Z.pos (digits2_pos m) <= 2 ^ 53) by (apply Z.pow_le_mono_r; lia). lia.
  - intros He. assert (D' : Z.pos (digits2_pos m) = 53) by (fexp_unfold; lia).
    rewrite D' in L. exact L.
Qed.

Lemma V_exponent_lt (m1 m2 e1 e2 : Z) :
  -1074 <= e1 < e2 -> 0 <= m1 < 2 ^ 53 -> 2 ^ 52 <= m2 -> V m1 e1 < V m2 e2.
Proof.
  intros He H1 H2.
  replace e2 with (e1 + (e2 - e1)) by lia. rewrite V_shift by lia.
  apply V_lt; [lia|].
  assert (2 ^ 1 <= 2 ^ (e2 - e1)) by (apply Z.pow_le_mono_r; lia).
  change (2 ^ 1) with 2 in *. change (2 ^ 53) with (2 ^ 52 * 2) in H1. nia.
Qed.

Lemma V_compare (m1 m2 : positive) (e1 e2 : Z) :
  bounded prec emax m1 e1 = true -> bounded prec emax m2 e2 = true ->
  SFcompare (S754_finite false m1 e1) (S754_finite false m2 e2)
  = Some (V (Z.pos m1) e1 ?= V (Z.pos m2) e2).
Proof.
  intros B1 B2. apply bounded_facts in B1, B2.
  destruct B1 as (E1 & U1 & L1), B2 as (E2 & U2 & L2).
  unfold SFcompare. f_equal. destruct (Z.compare_spec e1 e2) as [->|Lt|Gt].
  - change (Pos.compare_cont Eq m1 m2) with (Z.pos m1 ?= Z.pos m2).
    destruct (Z.compare_spec (Z.pos m1) (Z.pos m2)) as [E|L|G]; symmetry.
    + injection E as ->. apply Z.compare_refl.
    + apply Z.compare_lt_iff. apply V_lt; lia.
    + apply Z.compare_gt_iff. apply V_lt; lia.
  - symmetry. apply Z.compare_lt_iff. apply V_exponent_lt; lia.
  - symmetry. apply Z.compare_gt_iff. apply V_exponent_lt; lia.
Qed.

(** *** Rounding against a representable bound *)

Lemma grid_up (m1 e1 : Z) (mb : positive) (eb : Z) :
  0 <= m1 -> -1074 <= e1 -> (-1074 < e1 -> 2 ^ 52 <= m1) ->
  bounded prec emax mb eb = true ->
  V m1 e1 < V (Z.pos mb) eb -> V (m1 + 1) e1 <= V (Z.pos mb) eb.
Proof.
  intros H1 He N B L. apply bounded_facts in B. destruct B as (Eb & Ub & Lb).
  destruct (Z_le_gt_dec e1 eb) as [Le|Gt].
  - replace eb with (e1 + (eb - e1)) in * by lia. rewrite V_shift in * by lia.
    apply V_lt_inv in L; [|lia]. apply V_le; lia.
  - exfalso. assert (V (Z.pos mb) eb < V m1 e1) by (apply V_exponent_lt; lia). lia.
Qed.

Lemma grid_down (m1 e1 : Z) (mb : positive) (eb : Z) :
  0 <= m1 -> -1074 <= e1 -> (-1074 < e1 -> 2 ^ 52 <= m1) ->
  bounded prec emax mb eb = true ->
  V (Z.pos mb) eb < V (m1 + 1) e1 -> V (Z.pos mb) eb <= V m1 e1.
Proof.
  intros H1 He N B L. apply bounded_facts in B. destruct B as (Eb & Ub & Lb).
  destruct (Z_le_gt_dec e1 eb) as [Le|Gt].
  - replace eb with (e1 + (eb - e1)) in * by lia. rewrite V_shift in * by lia.
    apply V_lt_inv in L; [|lia]. apply V_le; lia.
  - assert (V (Z.pos mb) eb < V m1 e1) by (apply V_exponent_lt; lia). lia.
Qed.

Lemma pack_le (m3 e3 : Z) (mb : positive) (eb : Z) :
  0 <= m3 -> -1074 <= e3 ->
  (0 < m3 -> fexp prec emax (Zdigits2 m3 + e3) = e3) ->
  bounded prec emax mb eb = true ->
  V m3 e3 <= V (Z.pos mb) eb ->
  SFleb (pack m3 e3) (S754_finite false mb eb) = true.
Proof.
  intros H3 He C B L. destruct m3 as [|p|p]; try lia; [reflexivity|].
  specialize (C ltac:(lia)). unfold pack.
  destruct (e3 <=? emax - prec) eqn:El.
  - apply Z.leb_le in El. change (emax - prec) with 971 in El.
    unfold SFleb. rewrite V_compare; auto.
    + destruct (Z.compare_spec (V (Z.pos p) e3) (V (Z.pos mb) eb)); auto; lia.
    + apply bounded_spec. split; auto.
  - exfalso. apply Z.leb_gt in El. change (emax - prec) with 971 in El.
    apply bounded_facts in B. destruct B as (Eb & Ub & Lb).
    change (Zdigits2 (Z.pos p)) with (Z.pos (digits2_pos p)) in C.
    assert (D : Z.pos (digits2_pos p) = 53) by (fexp_unfold; lia).
    pose proof (digits_lower p) as Lp. rewrite D in Lp. simpl Z.sub in Lp.
    assert (V (Z.pos mb) eb < V (Z.pos p) e3) by (apply V_exponent_lt; lia). lia.
Qed.

Lemma pack_ge (m3 e3 : Z) (mb : positive) (eb : Z) :
  0 <= m3 -> -1074 <= e3 ->
  (0 < m3 -> fexp prec emax (Zdigits2 m3 + e3) = e3) ->
  bounded prec emax mb eb = true ->
  V (Z.pos mb) eb <= V m3 e3 ->
  SFleb (S754_finite false mb eb) (pack m3 e3) = true.
Proof.
  intros H3 He C B L.
  assert (Pb : 0 < V (Z.pos mb) eb).
  { unfold V. apply Z.mul_pos_pos; [lia|]. apply pow2_pos.
    apply bounded_facts in B. lia. }
  destruct m3 as [|p|p]; try lia.
  - change (V 0 e3) with 0 in L. lia.
  - specialize (C ltac:(lia)). unfold pack.
    destruct (e3 <=? emax - prec) eqn:El; [|reflexivity].
    apply Z.leb_le in El. change (emax - prec) with 971 in El.
    unfold SFleb. rewrite V_compare; auto.
    + destruct (Z.compare_spec (V (Z.pos mb) eb) (V (Z.pos p) e3)); auto; lia.
    + apply bounded_spec. split; auto.
Qed.

(** A value below a binary64 number rounds to at most that number. *)
Lemma round_aux_le (mx ex : Z) (lx : location) (mb : positive) (eb : Z) :
  0 <= mx -> -2200 <= ex -> ex <= fexp prec emax (Zdigits2 mx + ex) ->
  bounded prec emax mb eb = true ->
  V mx ex <= V (Z.pos mb) eb ->
  (lx <> loc_Exact -> V mx ex < V (Z.pos mb) eb) ->
  SFleb (binary_round_aux prec emax false mx ex lx) (S754_finite false mb eb) = true.
Proof.
  intros Hm He Hn B Le Lt.
  destruct (truncation mx ex Hm Hn) as (T0 & T1 & T2 & T3 & T4).
  destruct (round_aux_spec mx ex lx Hm He Hn) as (m3 & e3 & -> & P3 & E3 & C3 & [_ U3] & X3).
  set (e1 := fexp prec emax (Zdigits2 mx + ex)) in *.
  set (m1 := mx / 2 ^ (e1 - ex)) in *.
  assert (Hn' : 0 <= e1 - ex) by lia.
  pose proof (floor_pow2 mx (e1 - ex) Hm Hn') as F. fold m1 in F.
  assert (Es : V m1 e1 = V (m1 * 2 ^ (e1 - ex)) ex).
  { rewrite <- V_shift by lia. f_equal. lia. }
  apply pack_le; auto; try lia.
  assert (Dec : (lx = loc_Exact /\ mx mod 2 ^ (e1 - ex) = 0)
                \/ (lx <> loc_Exact \/ mx mod 2 ^ (e1 - ex) <> 0)).
  { destruct lx; [|right; left; discriminate].
    destruct (Z.eq_dec (mx mod 2 ^ (e1 - ex)) 0); [left|right]; auto. }
  destruct Dec as [[El Md]|Ne].
  - rewrite (X3 El Md). exact Le.
  - assert (St : V m1 e1 < V (Z.pos mb) eb).
    { rewrite Es. destruct Ne as [Nl|Nm].
      - specialize (Lt Nl). assert (V (m1 * 2 ^ (e1 - ex)) ex <= V mx ex)
          by (apply V_le; lia). lia.
      - assert (V (m1 * 2 ^ (e1 - ex)) ex < V mx ex).
        { apply V_lt; [lia|].
          pose proof (pow2_pos (e1 - ex) Hn') as P.
          pose proof (Z.div_mod mx (2 ^ (e1 - ex)) ltac:(lia)) as D. fold m1 in D.
          pose proof (Z.mod_pos_bound mx (2 ^ (e1 - ex)) P). lia. }
        lia. }
    pose proof (grid_up m1 e1 mb eb T0 T1 T4 B St). lia.
Qed.

(** A value above a binary64 number rounds to at least that number. *)
Lemma round_aux_ge (mx ex : Z) (lx : location) (mb : positive) (eb : Z) :
  0 <= mx -> -2200 <= ex -> ex <= fexp prec emax (Zdigits2 mx + ex) ->
  bounded prec emax mb eb = true ->
  (lx = loc_Exact -> V (Z.pos mb) eb <= V mx ex) ->
  (lx <> loc_Exact -> V (Z.pos mb) eb < V (mx + 1) ex) ->
  SFleb (S754_finite false mb eb) (binary_round_aux prec emax false mx ex lx) = true.
Proof.
  intros Hm He Hn B Le Lt.
  destruct (truncation mx ex Hm Hn) as (T0 & T1 & T2 & T3 & T4).
  destruct (round_aux_spec mx ex lx Hm He Hn) as (m3 & e3 & -> & P3 & E3 & C3 & [L3 _] & _).
  set (e1 := fexp prec emax (Zdigits2 mx + ex)) in *.
  set (m1 := mx / 2 ^ (e1 - ex)) in *.
  assert (Hn' : 0 <= e1 - ex) by lia.
  pose proof (floor_pow2 mx (e1 - ex) Hm Hn') as F. fold m1 in F.
  assert (Es : V (m1 + 1) e1 = V ((m1 + 1) * 2 ^ (e1 - ex)) ex).
  { rewrite <- V_shift by lia. f_equal. lia. }
  apply pack_ge; auto; try lia.
  assert (St : V (Z.pos mb) eb < V (m1 + 1) e1).
  { rewrite Es. destruct lx as [|c].
    - specialize (Le eq_refl).
      assert (V mx ex < V ((m1 + 1) * 2 ^ (e1 - ex)) ex) by (apply V_lt; lia). lia.
    - specialize (Lt ltac:(discriminate)).
      assert (V (mx + 1) ex <= V ((m1 + 1) * 2 ^ (e1 - ex)) ex) by (apply V_le; lia). lia. }
  pose proof (grid_down m1 e1 mb eb T0 T1 T4 B St). lia.
Qed.


Lemma V_scale_up (a e b f k : Z) :
  0 <= k -> -2200 <= e -> -2200 <= f ->
  (V a e <= V b f <-> V a (e + k) <= V b (f + k)).
Proof.
  intros Hk He Hf. rewrite !V_shift by lia. unfold V.
  rewrite <- !Z.mul_assoc, !(Z.mul_comm (2 ^ k)), !Z.mul_assoc.
  pose proof (pow2_pos k Hk). split; intros H0.
  - apply Z.mul_le_mono_nonneg_r; lia.
  - apply Z.mul_le_mono_pos_r in H0; lia.
Qed.

(** Inequalities between values do not depend on the scale. *)
Lemma V_scale (a e b f k : Z) :
  -2200 <= e -> -2200 <= f -> -2200 <= e + k -> -2200 <= f + k ->
  (V a e <= V b f <-> V a (e + k) <= V b (f + k)).
Proof.
  intros He Hf Hek Hfk. destruct (Z_le_gt_dec 0 k).
  - now apply V_scale_up.
  - rewrite (V_scale_up a (e + k) b (f + k) (- k)) by lia.
    replace (e + k + - k) with e by lia. replace (f + k + - k) with f by lia.
    reflexivity.
Qed.

Lemma pack_valid (m3 e3 : Z) :
  (0 < m3 -> fexp prec emax (Zdigits2 m3 + e3) = e3) ->
  valid_binary (pack m3 e3) = true.
Proof.
  intros C. destruct m3 as [|p|p]; try reflexivity. unfold pack.
  destruct (e3 <=? emax - prec) eqn:El; [|reflexivity].
  apply bounded_spec. apply Z.leb_le in El. split; [apply C; lia | exact El].
Qed.

(** *** Alignment before an addition *)

Lemma shl_align_spec (m : positive) (e e' : Z) :
  let '(mz, ez) := shl_align m e e' in
  ez = Z.min e e' /\ Z.pos mz = Z.pos m * 2 ^ (e - ez).
Proof.
  unfold shl_align. destruct (e' - e) as [|d|d] eqn:E.
  - split; [lia|]. rewrite Z.sub_diag. simpl. lia.
  - split; [lia|]. rewrite Z.sub_diag. simpl. lia.
  - split; [lia|].
    change (Pos.iter xO m d) with (shift_pos d m).
    rewrite shift_pos_correct, Zpower_pos_nat, Zpower_nat_Z, positive_nat_Z.
    replace (e - e') with (Z.pos d) by lia. lia.
Qed.

Lemma shl_align_digits (m : positive) (e e' : Z) :
  let '(mz, ez) := shl_align m e e' in
  Z.pos (digits2_pos mz) + ez = Z.pos (digits2_pos m) + e.
Proof.
  pose proof (shl_align_spec m e e') as S.
  destruct (shl_align m e e') as [mz ez]. destruct S as [-> Em].
  assert (Hn : 0 <= e - Z.min e e') by lia.
  pose proof (digits_upper m) as U. pose proof (digits_lower m) as L.
  pose proof (pow2_pos _ Hn) as P.
  change (Z.pos (digits2_pos mz)) with (Zdigits2 (Z.pos mz)).
  rewrite (Zdigits2_unique (Z.pos mz) (Z.pos (digits2_pos m) + (e - Z.min e e'))); [lia| |lia].
  rewrite Em.
  replace (Z.pos (digits2_pos m) + (e - Z.min e e') - 1)
    with ((Z.pos (digits2_pos m) - 1) + (e - Z.min e e')) by lia.
  rewrite !Z.pow_add_r by lia. split.
  - apply Z.mul_le_mono_nonneg_r; lia.
  - apply Z.mul_lt_mono_pos_r; lia.
Qed.

(** What [binary_round] hands to [binary_round_aux]: the same value, at an
    exponent no higher than the format's. *)
Lemma binary_round_input (m : positive) (e : Z) :
  -2200 <= e ->
  exists mz ez,
    binary_round prec emax false m e = binary_round_aux prec emax false (Z.pos mz) ez loc_Exact /\
    -2200 <= ez /\ ez <= fexp prec emax (Zdigits2 (Z.pos mz) + ez) /\
    V (Z.pos mz) ez = V (Z.pos m) e.
Proof.
  intros He. unfold binary_round.
  pose proof (shl_align_spec m e (fexp prec emax (Z.pos (digits2_pos m) + e))) as S.
  pose proof (shl_align_digits m e (fexp prec emax (Z.pos (digits2_pos m) + e))) as D.
  destruct (shl_align m e _) as [mz ez]. destruct S as [Ez Em].
  exists mz, ez. split; [reflexivity|].
  assert (Hez : -2200 <= ez) by (rewrite Ez; fexp_unfold; lia).
  split; [exact Hez|]. split.
  - change (Zdigits2 (Z.pos mz)) with (Z.pos (digits2_pos mz)). rewrite D. lia.
  - rewrite Em. rewrite <- V_shift by lia. f_equal. lia.
Qed.

Lemma binary_round_le (m : positive) (e : Z) (mb : positive) (eb : Z) :
  -2200 <= e -> bounded prec emax mb eb = true ->
  V (Z.pos m) e <= V (Z.pos mb) eb ->
  SFleb (binary_round prec emax false m e) (S754_finite false mb eb) = true.
Proof.
  intros He B L. destruct (binary_round_input m e He) as (mz & ez & -> & Hz & Hn & Ev).
  apply round_aux_le; auto; try lia. congruence.
Qed.

Lemma binary_round_ge (m : positive) (e : Z) (mb : positive) (eb : Z) :
  -2200 <= e -> bounded prec emax mb eb = true ->
  V (Z.pos mb) eb <= V (Z.pos m) e ->
  SFleb (S754_finite false mb eb) (binary_round prec emax false m e) = true.
Proof.
  intros He B L. destruct (binary_round_input m e He) as (mz & ez & -> & Hz & Hn & Ev).
  apply round_aux_ge; auto; try lia. congruence.
Qed.

Lemma binary_round_valid (m : positive) (e : Z) :
  -2200 <= e -> valid_binary (binary_round prec emax false m e) = true.
Proof.
  intros He. destruct (binary_round_input m e He) as (mz & ez & -> & Hz & Hn & Ev).
  destruct (round_aux_spec (Z.pos mz) ez loc_Exact ltac:(lia) Hz Hn)
    as (m3 & e3 & -> & _ & _ & C & _).
  now apply pack_valid.
Qed.


(** *** Values of finite non-negative numbers *)

Lemma V_pos (m : positive) (e : Z) : -2200 <= e -> 0 < V (Z.pos m) e.
Proof. intros. unfold V. apply Z.mul_pos_pos; [lia | apply pow2_pos; lia]. Qed.


Lemma SFleb_val (x y : spec_float) :
  valid_binary x = true -> valid_binary y = true ->
  sf_fin_nonneg x = true -> sf_fin_nonneg y = true ->
  (SFleb x y = true <-> sf_val x <= sf_val y).
Proof.
  intros Vx Vy Fx Fy.
  destruct x as [bx|bx| |[] mx ex]; try discriminate;
    destruct y as [by'|by'| |[] my ey]; try discriminate; simpl in *.
  - unfold SFleb. simpl. split; [lia|reflexivity].
  - unfold SFleb. simpl. pose proof (bounded_facts my ey Vy).
    pose proof (V_pos my ey). split; [lia|reflexivity].
  - unfold SFleb. simpl. pose proof (bounded_facts mx ex Vx).
    pose proof (V_pos mx ex). split; [discriminate|lia].
  - unfold SFleb. rewrite V_compare by assumption.
    destruct (Z.compare_spec (V (Z.pos mx) ex) (V (Z.pos my) ey));
      split; intros; try reflexivity; try discriminate; lia.
Qed.

(** Two canonical numbers of one value are the same number. *)
Lemma sf_val_inj (mx my : positive) (ex ey : Z) :
  bounded prec emax mx ex = true -> bounded prec emax my ey = true ->
  V (Z.pos mx) ex = V (Z.pos my) ey -> mx = my /\ ex = ey.
Proof.
  intros Bx By E. pose proof (V_compare mx my ex ey Bx By) as C.
  rewrite E, Z.compare_refl in C. unfold SFcompare in C. injection C as C.
  destruct (Z.compare_spec ex ey) as [->|L|G]; try discriminate.
  split; [|reflexivity]. now apply Pos.compare_eq.
Qed.

(** *** Addition of finite non-negative numbers *)

Lemma SFadd_finite (mx my : positive) (ex ey : Z) :
  -1074 <= ex -> -1074 <= ey ->
  exists m e, SFadd prec emax (S754_finite false mx ex) (S754_finite false my ey)
              = binary_round prec emax false m e
              /\ -1074 <= e /\ V (Z.pos m) e = V (Z.pos mx) ex + V (Z.pos my) ey.
Proof.
  intros Hx Hy. unfold SFadd. simpl cond_Zopp.
  pose proof (shl_align_spec mx ex (Z.min ex ey)) as Sx.
  pose proof (shl_align_spec my ey (Z.min ex ey)) as Sy.
  destruct (shl_align mx ex (Z.min ex ey)) as [ax ezx].
  destruct (shl_align my ey (Z.min ex ey)) as [ay ezy].
  destruct Sx as [Ezx Eax], Sy as [Ezy Eay]. simpl fst.
  exists (ax + ay)%positive, (Z.min ex ey). split; [reflexivity|]. split; [lia|].
  rewrite Pos2Z.inj_add. unfold V at 1. rewrite Z.mul_add_distr_r. f_equal.
  - rewrite Eax. fold (V (Z.pos mx * 2 ^ (ex - ezx)) (Z.min ex ey)).
    rewrite <- V_shift by lia. f_equal. lia.
  - rewrite Eay. fold (V (Z.pos my * 2 ^ (ey - ezy)) (Z.min ex ey)).
    rewrite <- V_shift by lia. f_equal. lia.
Qed.

Lemma SFadd_le (x y : spec_float) (mb : positive) (eb : Z) :
  valid_binary x = true -> valid_binary y = true ->
  sf_fin_nonneg x = true -> sf_fin_nonneg y = true ->
  bounded prec emax mb eb = true ->
  sf_val x + sf_val y <= V (Z.pos mb) eb ->
  SFleb (SFadd prec emax x y) (S754_finite false mb eb) = true.
Proof.
  intros Vx Vy Fx Fy B L.
  destruct x as [bx|bx| |[] mx ex]; try discriminate;
    destruct y as [by'|by'| |[] my ey]; try discriminate;
    simpl in Vx, Vy, L.
  - destruct bx, by'; reflexivity.
  - apply (SFleb_val (S754_finite false my ey) (S754_finite false mb eb)); auto.
  - apply (SFleb_val (S754_finite false mx ex) (S754_finite false mb eb)); auto.
    simpl. lia.
  - pose proof (bounded_facts mx ex Vx). pose proof (bounded_facts my ey Vy).
    destruct (SFadd_finite mx my ex ey) as (m & e & -> & He & Ev); try lia.
    apply binary_round_le; auto; lia.
Qed.

Lemma SFadd_ge (x y : spec_float) (mb : positive) (eb : Z) :
  valid_binary x = true -> valid_binary y = true ->
  sf_fin_nonneg x = true -> sf_fin_nonneg y = true ->
  bounded prec emax mb eb = true ->
  V (Z.pos mb) eb <= sf_val x + sf_val y ->
  SFleb (S754_finite false mb eb) (SFadd prec emax x y) = true.
Proof.
  intros Vx Vy Fx Fy B L.
  pose proof (bounded_facts mb eb B) as Fb. pose proof (V_pos mb eb ltac:(lia)) as Pb.
  destruct x as [bx|bx| |[] mx ex]; try discriminate;
    destruct y as [by'|by'| |[] my ey]; try discriminate;
    simpl in Vx, Vy, L.
  - lia.
  - apply (SFleb_val (S754_finite false mb eb) (S754_finite false my ey)); auto.
  - apply (SFleb_val (S754_finite false mb eb) (S754_finite false mx ex)); auto.
    simpl. lia.
  - pose proof (bounded_facts mx ex Vx). pose proof (bounded_facts my ey Vy).
    destruct (SFadd_finite mx my ex ey) as (m & e & -> & He & Ev); try lia.
    apply binary_round_ge; auto; lia.
Qed.

End Rounding.

(** ** Binary64 arithmetic: magnitudes *)





Lemma fin_nonneg_not_nan (x : float) : fin_nonneg x = true -> np_isnan x = false.
Proof.
  intros H. apply np_isnan_false. unfold fin_nonneg in H.
  destruct (Prim2SF x); try discriminate; congruence.
Qed.

(** A positive finite value is determined by its scaled value. *)
Lemma fval_inj (x y : float) :
  fin_nonneg x = true -> fin_nonneg y = true ->
  (0 < fval x)%Z -> fval x = fval y -> x = y.
Proof.
  unfold fin_nonneg, fval. intros Fx Fy P E. apply Prim2SF_inj.
  pose proof (Prim2SF_valid x) as Vx. pose proof (Prim2SF_valid y) as Vy.
  destruct (Prim2SF x) as [b|b| |[] mx ex]; try discriminate; simpl in P; try lia.
  destruct (Prim2SF y) as [b|b| |[] my ey]; try discriminate; simpl in E; try lia.
  change (bounded prec emax mx ex = true) in Vx.
  change (bounded prec emax my ey = true) in Vy.
  destruct (sf_val_inj mx my ex ey Vx Vy E) as [-> ->]. reflexivity.
Qed.

(** The sum of two finite non-negative values whose exact sum is a binary64
    value is that value. *)
Lemma add_exact (x y b : float) :
  fin_nonneg x = true -> fin_nonneg y = true -> fin_nonneg b = true ->
  (0 < fval b)%Z -> (fval x + fval y = fval b)%Z -> x + y = b.
Proof.
  unfold fin_nonneg, fval. intros Fx Fy Fb P E. apply Prim2SF_inj.
  pose proof (Prim2SF_valid x) as Vx. pose proof (Prim2SF_valid y) as Vy.
  pose proof (Prim2SF_valid b) as Vb. pose proof (Prim2SF_valid (x + y)) as Vr.
  rewrite add_spec in *.
  destruct (Prim2SF b) as [s|s| |[] mb eb]; try discriminate; simpl in P; try lia.
  simpl in E. change (bounded prec emax mb eb = true) in Vb.
  pose proof (SFadd_le _ _ mb eb Vx Vy Fx Fy Vb ltac:(lia)) as Le.
  pose proof (SFadd_ge _ _ mb eb Vx Vy Fx Fy Vb ltac:(lia)) as Ge.
  unfold SF64add in *.
  destruct (SFadd prec emax (Prim2SF x) (Prim2SF y)) as [s|s| |s m e].
  - discriminate.
  - destruct s; discriminate.
  - discriminate.
  - destruct s; [discriminate|]. change (bounded prec emax m e = true) in Vr.
    unfold SFleb in Le, Ge. rewrite V_compare in Le, Ge by assumption.
    assert (Ev : V (Z.pos m) e = V (Z.pos mb) eb).
    { destruct (Z.compare_spec (V (Z.pos m) e) (V (Z.pos mb) eb)); auto; try discriminate.
      destruct (Z.compare_spec (V (Z.pos mb) eb) (V (Z.pos m) e)); auto; try discriminate.
      lia. }
    destruct (sf_val_inj m mb e eb Vr Vb Ev) as [-> ->]. reflexivity.
Qed.

Lemma SFleb_antisym (r : spec_float) (mb : positive) (eb : Z) :
  valid_binary r = true -> bounded prec emax mb eb = true ->
  SFleb r (S754_finite false mb eb) = true ->
  SFleb (S754_finite false mb eb) r = true ->
  r = S754_finite false mb eb.
Proof.
  intros Vr Vb Le Ge. destruct r as [s|s| |s m e].
  - discriminate.
  - destruct s; discriminate.
  - discriminate.
  - destruct s; [discriminate|]. change (bounded prec emax m e = true) in Vr.
    unfold SFleb in Le, Ge. rewrite V_compare in Le, Ge by assumption.
    assert (Ev : V (Z.pos m) e = V (Z.pos mb) eb).
    { destruct (Z.compare_spec (V (Z.pos m) e) (V (Z.pos mb) eb)); auto; try discriminate.
      destruct (Z.compare_spec (V (Z.pos mb) eb) (V (Z.pos m) e)); auto; try discriminate.
      lia. }
    destruct (sf_val_inj m mb e eb Vr Vb Ev) as [-> ->]. reflexivity.
Qed.

(** *** Integers as binary64 values *)

Lemma int_canonical (k : Z) :
  (1 <= k <= 2 ^ 53)%Z ->
  exists m e, bounded prec emax m e = true /\ V (Z.pos m) e = (k * 2 ^ 2200)%Z.
Proof.
  intros [L U]. destruct (Z.eq_dec k (2 ^ 53)) as [->|N].
  - exists (4503599627370496)%positive, 1%Z. split; reflexivity.
  - pose proof (Zdigits2_upper k ltac:(lia)) as Ud.
    pose proof (Zdigits2_lower k ltac:(lia)) as Ld.
    set (d := Zdigits2 k) in *.
    assert (Hd : (1 <= d <= 53)%Z).
    { split.
      - destruct k; simpl in d; subst d; lia.
      - destruct (Z_le_gt_dec d 53); auto.
        assert (2 ^ 53 <= 2 ^ (d - 1))%Z by (apply Z.pow_le_mono_r; lia). lia. }
    pose proof (pow2_pos (53 - d) ltac:(lia)) as P.
    exists (Z.to_pos (k * 2 ^ (53 - d))), (d - 53)%Z.
    assert (Ep : Z.pos (Z.to_pos (k * 2 ^ (53 - d))) = (k * 2 ^ (53 - d))%Z)
      by (apply Z2Pos.id; nia).
    split.
    + apply bounded_spec.
      change (Z.pos (digits2_pos (Z.to_pos (k * 2 ^ (53 - d)))))
        with (Zdigits2 (Z.pos (Z.to_pos (k * 2 ^ (53 - d))))).
      rewrite Ep.
      assert (A1 : (2 ^ (53 - 1) = 2 ^ (d - 1) * 2 ^ (53 - d))%Z).
      { rewrite <- Z.pow_add_r by lia. f_equal. lia. }
      assert (A2 : (2 ^ 53 = 2 ^ d * 2 ^ (53 - d))%Z).
      { rewrite <- Z.pow_add_r by lia. f_equal. lia. }
      rewrite (Zdigits2_unique (k * 2 ^ (53 - d)) 53); [fexp_unfold; lia| |lia].
      rewrite A1, A2. split.
      * apply Z.mul_le_mono_nonneg_r; lia.
      * apply Z.mul_lt_mono_pos_r; lia.
    + rewrite Ep. rewrite <- V_shift by lia.
      replace (d - 53 + (53 - d))%Z with 0%Z by lia. reflexivity.
Qed.

Lemma float_of_Z_prim (k : Z) :
  (0 <= k)%Z -> Prim2SF (float_of_Z k) = binary_normalize prec emax k 0 false.
Proof.
  intros H. unfold float_of_Z. apply Prim2SF_SF2Prim.
  destruct k as [|p|p]; try lia; [reflexivity|].
  apply binary_round_valid. lia.
Qed.

(** Integers up to [2^53] convert exactly. *)
Lemma float_of_Z_exact (k : Z) :
  (0 <= k <= 2 ^ 53)%Z ->
  fin_nonneg (float_of_Z k) = true /\ fval (float_of_Z k) = (k * 2 ^ 2200)%Z.
Proof.
  intros [L U]. unfold fin_nonneg, fval. rewrite float_of_Z_prim by lia.
  destruct k as [|p|p]; try lia; [split; reflexivity|].
  destruct (int_canonical (Z.pos p)) as (m & e & B & Ev); [lia|].
  assert (E : binary_normalize prec emax (Z.pos p) 0 false = S754_finite false m e).
  { apply SFleb_antisym; auto.
    - apply binary_round_valid. lia.
    - apply binary_round_le; auto; try lia. rewrite Ev. unfold V. simpl. lia.
    - apply binary_round_ge; auto; try lia. rewrite Ev. unfold V. simpl. lia. }
  rewrite E. split; [reflexivity|exact Ev].
Qed.

(** Larger integers convert to at least [2^53], possibly to infinity. *)
Lemma float_of_Z_large (k : Z) :
  (2 ^ 53 <= k)%Z ->
  Prim2SF (float_of_Z k) = S754_infinity false \/
  (fin_nonneg (float_of_Z k) = true /\ (2 ^ 53 * 2 ^ 2200 <= fval (float_of_Z k))%Z).
Proof.
  intros L. unfold fin_nonneg, fval. rewrite float_of_Z_prim by lia.
  destruct k as [|p|p]; try lia.
  assert (Vr : valid_binary (binary_normalize prec emax (Z.pos p) 0 false) = true)
    by (apply binary_round_valid; lia).
  assert (B : bounded prec emax 4503599627370496 1 = true) by reflexivity.
  assert (G : SFleb (S754_finite false 4503599627370496 1)
                    (binary_normalize prec emax (Z.pos p) 0 false) = true).
  { apply binary_round_ge; auto; try lia.
    change (V 4503599627370496 1) with (2 ^ 53 * 2 ^ 2200)%Z. unfold V. simpl Z.add.
    apply Z.mul_le_mono_nonneg_r; lia. }
  destruct (binary_normalize prec emax (Z.pos p) 0 false) as [s|s| |s m e].
  - discriminate.
  - destruct s; [discriminate|]. now left.
  - discriminate.
  - destruct s; [discriminate|]. right. split; [reflexivity|].
    change (bounded prec emax m e = true) in Vr.
    unfold SFleb in G. rewrite V_compare in G by assumption.
    change (V 4503599627370496 1) with (2 ^ 53 * 2 ^ 2200)%Z in G. simpl.
    destruct (Z.compare_spec (2 ^ 53 * 2 ^ 2200) (V (Z.pos m) e)); try discriminate; lia.
Qed.

Lemma add_ints (a b : Z) :
  (0 <= a)%Z -> (0 <= b)%Z -> (a + b <= 2 ^ 53)%Z ->
  float_of_Z a + float_of_Z b = float_of_Z (a + b).
Proof.
  intros Ha Hb H.
  destruct (float_of_Z_exact a ltac:(lia)) as [Fa Va].
  destruct (float_of_Z_exact b ltac:(lia)) as [Fb Vb].
  destruct (float_of_Z_exact (a + b) ltac:(lia)) as [Fs Vs].
  destruct (Z.eq_dec (a + b) 0) as [E|N].
  - assert (a = 0%Z) by lia. assert (b = 0%Z) by lia. subst. reflexivity.
  - apply add_exact; auto; lia.
Qed.


(** A sum of ones and zeros counts the ones, up to [2^53]. *)
Lemma fsum_indicator_from (l : list bool) (a : Z) :
  (0 <= a <= 2 ^ 53)%Z ->
  fold_left PrimFloat.add (map float_of_bool l) (float_of_Z a)
  = float_of_Z (Z.min (a + count_true l) (2 ^ 53)).
Proof.
  revert a. induction l as [|b l IH]; intros a Ha.
  - simpl. unfold count_true. simpl. f_equal. lia.
  - simpl. destruct b; unfold count_true; simpl length.
    + destruct (Z.eq_dec a (2 ^ 53)) as [->|N].
      * change (float_of_Z (2 ^ 53) + float_of_bool true) with (float_of_Z (2 ^ 53)).
        rewrite IH by lia. f_equal. unfold count_true. lia.
      * change (float_of_bool true) with (float_of_Z 1).
        rewrite add_ints by lia. rewrite IH by lia. f_equal. unfold count_true. lia.
    + change (float_of_bool false) with (float_of_Z 0).
      rewrite add_ints by lia. rewrite Z.add_0_r. rewrite IH by lia. reflexivity.
Qed.

Lemma fsum_indicator (l : list bool) :
  fsum (map float_of_bool l) = float_of_Z (Z.min (count_true l) (2 ^ 53)).
Proof.
  unfold fsum. change 0 with (float_of_Z 0).
  rewrite fsum_indicator_from by lia. reflexivity.
Qed.

Lemma count_true_bounds (l : list bool) : (0 <= count_true l <= Z.of_nat (length l))%Z.
Proof.
  unfold count_true. pose proof (filter_length_le (fun b => b) l). lia.
Qed.

(** *** A quotient of a value by a larger one, and a product by a value below 1 *)

Section Magnitudes.
Local Open Scope Z_scope.

Lemma new_location_exact (n r : Z) : new_location n r = loc_Exact <-> r = 0.
Proof.
  unfold new_location, new_location_even, new_location_odd.
  destruct (Z.even n); destruct (Z.eqb_spec r 0); split; intros; try congruence;
    try reflexivity; try discriminate.
Qed.

Lemma shift_match (m s : Z) :
  0 <= s ->
  match s with Z.pos _ => Z.shiftl m s | 0 => m | Z.neg _ => 0 end = m * 2 ^ s.
Proof.
  intros H. destruct s as [|p|p]; [simpl; lia | apply Z.shiftl_mul_pow2; lia | lia].
Qed.

Lemma SFdiv_core_binary_spec (m1 m2 : positive) (e1 e2 : Z) :
  bounded prec emax m1 e1 = true -> bounded prec emax m2 e2 = true ->
  exists q e' l r s,
    SFdiv_core_binary prec emax (Z.pos m1) e1 (Z.pos m2) e2 = (q, e', l) /\
    0 <= q /\ -2200 <= e' /\ e' <= fexp prec emax (Zdigits2 q + e') /\
    0 <= s /\ e1 - e2 = e' + s /\
    Z.pos m1 * 2 ^ s = q * Z.pos m2 + r /\ 0 <= r < Z.pos m2 /\
    (l = loc_Exact <-> r = 0).
Proof.
  intros B1 B2.
  pose proof (bounded_facts m1 e1 B1) as (E1 & U1 & L1).
  pose proof (bounded_facts m2 e2 B2) as (E2 & U2 & L2).
  unfold SFdiv_core_binary.
  set (d1 := Zdigits2 (Z.pos m1)). set (d2 := Zdigits2 (Z.pos m2)).
  set (e' := Z.min (fexp prec emax (d1 + e1 - (d2 + e2))) (e1 - e2)).
  set (s := e1 - e2 - e').
  assert (Hs : 0 <= s) by (subst s e'; lia).
  assert (He' : -2200 <= e') by (subst e'; fexp_unfold; lia).
  set (m' := match s with Z.pos _ => Z.shiftl (Z.pos m1) s | 0 => Z.pos m1 | Z.neg _ => 0 end).
  assert (Em : m' = Z.pos m1 * 2 ^ s) by (apply shift_match; exact Hs).
  pose proof (Z_div_mod m' (Z.pos m2) ltac:(lia)) as D.
  destruct (Z.div_eucl m' (Z.pos m2)) as [q r]. destruct D as [Dq Dr].
  pose proof (pow2_pos s Hs) as Ps.
  assert (Hq : 0 <= q) by nia.
  exists q, e', (new_location (Z.pos m2) r), r, s.
  split; [reflexivity|]. split; [exact Hq|]. split; [exact He'|].
  split; [|split; [exact Hs|split; [subst s; lia|split; [lia|split; [exact Dr|]]]]].
  - (* the quotient has enough digits *)
    destruct (Z_le_gt_dec e' (-1074)) as [Lo|Hi]; [fexp_unfold; lia|].
    assert (Hd : 53 <= d1 + s - d2) by (subst s e'; fexp_unfold; lia).
    pose proof (digits_lower m1) as Lm1. pose proof (digits_upper m2) as Um2.
    change (Z.pos (digits2_pos m1)) with d1 in Lm1.
    change (Z.pos (digits2_pos m2)) with d2 in Um2.
    assert (D1 : 0 < d1) by (subst d1; simpl; lia).
    assert (D2 : 0 < d2) by (subst d2; simpl; lia).
    assert (Hq52 : 2 ^ 52 <= q).
    { assert (A : 2 ^ (52 + d2) <= 2 ^ (d1 - 1 + s)) by (apply Z.pow_le_mono_r; lia).
      rewrite !Z.pow_add_r in A by lia.
      pose proof (pow2_pos d2 ltac:(lia)). pose proof (pow2_pos (d1 - 1) ltac:(lia)).
      assert (2 ^ 52 * Z.pos m2 < (q + 1) * Z.pos m2) by nia.
      assert (2 ^ 52 < q + 1) by (apply Z.mul_lt_mono_pos_r with (p := Z.pos m2); lia).
      lia. }
    pose proof (Zdigits2_le (2 ^ 52) q ltac:(lia)) as Dq52.
    change (Zdigits2 (2 ^ 52)) with 53 in Dq52. fexp_unfold. lia.
  - apply new_location_exact.
Qed.

Lemma SFdiv_le_one (m1 m2 : positive) (e1 e2 : Z) :
  bounded prec emax m1 e1 = true -> bounded prec emax m2 e2 = true ->
  V (Z.pos m1) e1 <= V (Z.pos m2) e2 ->
  SFleb (SFdiv prec emax (S754_finite false m1 e1) (S754_finite false m2 e2))
        (S754_finite false 4503599627370496 (-52)) = true.
Proof.
  intros B1 B2 L.
  pose proof (bounded_facts m1 e1 B1) as (E1 & U1 & L1).
  pose proof (bounded_facts m2 e2 B2) as (E2 & U2 & L2).
  destruct (SFdiv_core_binary_spec m1 m2 e1 e2 B1 B2)
    as (q & e' & l & r & s & Ec & Hq & He' & Hn & Hs & Es & Eq & Hr & Hl).
  unfold SFdiv. rewrite Ec. simpl xorb.
  assert (Lv : V (q * Z.pos m2 + r) e' <= V (Z.pos m2) 0).
  { rewrite <- Eq. rewrite <- V_shift by lia.
    replace (e' + s) with (e1 + - e2) by lia. replace 0 with (e2 + - e2) by lia.
    apply V_scale; auto; lia. }
  unfold V in Lv. simpl Z.add in Lv.
  pose proof (pow2_pos (e' + 2200) ltac:(lia)) as P.
  set (X := 2 ^ (e' + 2200)) in *. set (T := 2 ^ 2200) in *.
  assert (One : V 4503599627370496 (-52) = T) by reflexivity.
  apply (round_aux_le q e' l 4503599627370496 (-52) Hq He' Hn eq_refl).
  - rewrite One. unfold V. fold X.
    assert (Z.pos m2 * (q * X) <= Z.pos m2 * T) by nia.
    apply Z.mul_le_mono_pos_l in H; lia.
  - intros Nl. rewrite One. unfold V. fold X.
    assert (r <> 0) by (intros R; apply Nl, Hl, R).
    assert (Z.pos m2 * (q * X) < Z.pos m2 * T) by nia.
    apply Z.mul_lt_mono_pos_l in H0; lia.
Qed.

Lemma SFmul_le_self (mc mr : positive) (ec er : Z) :
  bounded prec emax mc ec = true -> bounded prec emax mr er = true ->
  V (Z.pos mr) er <= V 4503599627370496 (-52) ->
  SFleb (SFmul prec emax (S754_finite false mc ec) (S754_finite false mr er))
        (S754_finite false mc ec) = true.
Proof.
  intros Bc Br L.
  pose proof (bounded_facts mc ec Bc) as (Ec & Uc & Lc).
  pose proof (bounded_facts mr er Br) as (Er & Ur & Lr).
  unfold SFmul. simpl xorb.
  assert (Her : er <= 0).
  { destruct (Z_le_gt_dec er 0); auto. exfalso.
    assert (V 4503599627370496 (-52) < V (Z.pos mr) er).
    { apply V_exponent_lt; lia. }
    lia. }
  apply round_aux_le; [lia | lia | | exact Bc | | ].
  - destruct (Z.eq_dec ec (-1074)) as [->|N]; [fexp_unfold; lia|].
    assert (2 ^ 52 <= Z.pos (mc * mr)) by (rewrite Pos2Z.inj_mul; nia).
    pose proof (Zdigits2_le (2 ^ 52) (Z.pos (mc * mr)) ltac:(lia)) as D.
    change (Zdigits2 (2 ^ 52)) with 53 in D. fexp_unfold. lia.
  - apply (V_scale _ _ _ _ ec) in L; try lia.
    rewrite Pos2Z.inj_mul. unfold V in *.
    replace (-52 + ec + 2200) with (52 + (ec + 2200 - 104)) in L by lia.
    assert (Es : 4503599627370496 * 2 ^ (52 + (ec + 2200 - 104)) = 2 ^ (ec + 2200)).
    { change 4503599627370496 with (2 ^ 52). rewrite <- Z.pow_add_r by lia.
      f_equal. lia. }
    rewrite Es in L.
    replace (ec + er + 2200) with (er + ec + 2200) by lia.
    rewrite <- Z.mul_assoc. apply Z.mul_le_mono_nonneg_l; lia.
  - intros N. now elim N.
Qed.

End Magnitudes.

Lemma div_le_one (x y : float) :
  fin_nonneg x = true ->
  Prim2SF y = S754_infinity false \/
  (fin_nonneg y = true /\ (0 < fval y)%Z /\ (fval x <= fval y)%Z) ->
  (x / y <=? 1) = true.
Proof.
  unfold fin_nonneg, fval. intros Fx Hy. rewrite leb_spec, div_spec.
  change (Prim2SF 1) with (S754_finite false 4503599627370496 (-52)).
  pose proof (Prim2SF_valid x) as Vx. pose proof (Prim2SF_valid y) as Vy.
  destruct (Prim2SF x) as [sx|sx| |[] mx ex]; try discriminate.
  - destruct Hy as [->|(Fy & Py & _)]; [reflexivity|].
    destruct (Prim2SF y) as [sy|sy| |[] my ey]; try discriminate; simpl in Py; try lia.
    reflexivity.
  - destruct Hy as [->|(Fy & Py & L)]; [reflexivity|].
    destruct (Prim2SF y) as [sy|sy| |[] my ey]; try discriminate; simpl in Py; try lia.
    simpl in L. now apply SFdiv_le_one.
Qed.

Lemma mul_le_self (c r : float) :
  fin_nonneg c = true -> (0 < fval c)%Z ->
  (0 <=? r) = true -> (r <=? 1) = true -> (c * r <=? c) = true.
Proof.
  unfold fin_nonneg, fval. intros Fc Pc H0 H1. rewrite leb_spec, mul_spec in *.
  change (Prim2SF 1) with (S754_finite false 4503599627370496 (-52)) in H1.
  change (Prim2SF 0) with (S754_zero false) in H0.
  pose proof (Prim2SF_valid c) as Vc. pose proof (Prim2SF_valid r) as Vr.
  destruct (Prim2SF c) as [sc|sc| |[] mc ec]; try discriminate; simpl in Pc; try lia.
  destruct (Prim2SF r) as [sr|sr| |sr mr er]; try discriminate.
  - reflexivity.
  - destruct sr; discriminate.
  - destruct sr; [discriminate|].
    apply SFmul_le_self; auto.
    unfold SFleb in H1. rewrite V_compare in H1; auto.
    destruct (Z.compare_spec (V (Z.pos mr) er) (V 4503599627370496 (-52)));
      try discriminate; lia.
Qed.

(** ** Binary64 arithmetic: propagation of NaN and of zeros *)

Lemma is_finite_spec (x : float) :
  is_finite x = true <->
  match Prim2SF x with S754_zero _ | S754_finite _ _ _ => True | _ => False end.
Proof.
  unfold is_finite. rewrite negb_true_iff, orb_false_iff.
  change (is_nan x) with (np_isnan x). rewrite np_isnan_false.
  pose proof (is_infinity_spec x) as I.
  destruct (is_infinity x).
  - destruct (proj1 I eq_refl) as [s ->]. split; [intros [_ ?]; discriminate | tauto].
  - destruct (Prim2SF x) as [s|s| |s m e]; split; intros; try tauto;
      try (split; congruence).
    exfalso. assert (false = true) by (apply I; eauto). discriminate.
Qed.

Lemma add_nan_l (x : float) : nan + x = nan.
Proof. apply Prim2SF_inj. rewrite add_spec. reflexivity. Qed.

Lemma add_nan_r (x : float) : x + nan = nan.
Proof.
  apply Prim2SF_inj. rewrite add_spec. change (Prim2SF nan) with S754_nan.
  destruct (Prim2SF x) as [s|s| |s m e]; reflexivity.
Qed.




Lemma div_nan_l (x : float) : nan / x = nan.
Proof. apply Prim2SF_inj. rewrite div_spec. reflexivity. Qed.


Lemma fold_add_nan (l : list float) : fold_left PrimFloat.add l nan = nan.
Proof. induction l as [|x l IH]; simpl; auto. now rewrite add_nan_l. Qed.

(** A sum with a NaN term is NaN. *)
Lemma fsum_nan (l : list float) : In nan l -> fsum l = nan.
Proof.
  unfold fsum. generalize 0. induction l as [|x l IH]; intros acc H; [contradiction|].
  simpl. destruct H as [->|H].
  - rewrite add_nan_r. apply fold_add_nan.
  - now apply IH.
Qed.

(** Division by a zero gives an infinity or NaN, never an exception. *)
Lemma div_by_zero (x d : float) :
  PrimFloat.is_zero d = true -> is_infinity (x / d) || np_isnan (x / d) = true.
Proof.
  intros Z. apply is_zero_spec in Z. destruct Z as [sd Ed].
  apply orb_true_iff.
  destruct (Prim2SF x) as [s|s| |s m e] eqn:Ex.
  - right. apply np_isnan_spec. rewrite div_spec, Ex, Ed. reflexivity.
  - left. apply is_infinity_spec. rewrite div_spec, Ex, Ed. simpl. eauto.
  - right. apply np_isnan_spec. rewrite div_spec, Ex, Ed. reflexivity.
  - left. apply is_infinity_spec. rewrite div_spec, Ex, Ed. simpl. eauto.
Qed.

(** *** Zeros *)

Lemma sub_self_zero (x : float) : is_finite x = true -> PrimFloat.is_zero (x - x) = true.
Proof.
  rewrite is_finite_spec. intros F. apply is_zero_spec. rewrite sub_spec.
  destruct (Prim2SF x) as [s|s| |s m e]; try contradiction.
  - destruct s; simpl; eauto.
  - unfold SF64sub, SFsub. rewrite Z.sub_diag. simpl. eauto.
Qed.

Lemma mul_zero_r (q z : float) :
  is_finite q = true -> PrimFloat.is_zero z = true -> PrimFloat.is_zero (q * z) = true.
Proof.
  rewrite is_finite_spec, !is_zero_spec. intros F [s Ez]. rewrite mul_spec, Ez.
  destruct (Prim2SF q) as [sq|sq| |sq m e]; try contradiction; simpl; eauto.
Qed.


Lemma add_zero_zero (x y : float) :
  PrimFloat.is_zero x = true -> PrimFloat.is_zero y = true -> PrimFloat.is_zero (x + y) = true.
Proof.
  rewrite !is_zero_spec. intros [sx Ex] [sy Ey]. rewrite add_spec, Ex, Ey.
  destruct sx, sy; simpl; eauto.
Qed.

Lemma np_maximum_zero (x y : float) :
  PrimFloat.is_zero x = true -> PrimFloat.is_zero y = true ->
  PrimFloat.is_zero (np_maximum x y) = true.
Proof. intros Zx Zy. unfold np_maximum. destruct (_ || _); assumption. Qed.

(** A zero over anything but a zero or NaN is a zero. *)
Lemma div_zero_l (z d : float) :
  PrimFloat.is_zero z = true -> PrimFloat.is_zero d = false -> np_isnan d = false ->
  PrimFloat.is_zero (z / d) = true.
Proof.
  intros Zz Zd Nd. apply is_zero_spec in Zz. destruct Zz as [s Ez].
  apply np_isnan_false in Nd.
  assert (Nz : forall sd, Prim2SF d <> S754_zero sd).
  { intros sd E. assert (PrimFloat.is_zero d = true) by (apply is_zero_spec; eauto).
    congruence. }
  apply is_zero_spec. rewrite div_spec, Ez.
  destruct (Prim2SF d) as [sd|sd| |sd m e]; simpl; eauto.
  - now elim (Nz sd).
  - now elim Nd.
Qed.

Lemma fsum_zeros (l : list float) :
  Forall (fun x => PrimFloat.is_zero x = true) l -> PrimFloat.is_zero (fsum l) = true.
Proof.
  unfold fsum. assert (Z0 : PrimFloat.is_zero 0 = true) by reflexivity.
  revert Z0. generalize 0. induction l as [|x l IH]; intros acc Za H; simpl; auto.
  inversion H; subst. apply IH; auto. now apply add_zero_zero.
Qed.

(** *** Sums never produce a negative zero from a positive one *)

Lemma binary_round_aux_opp (m e : Z) (l : location) :
  binary_round_aux prec emax true m e l = SFopp (binary_round_aux prec emax false m e l).
Proof.
  unfold binary_round_aux.
  destruct (shr_fexp prec emax m e l) as [r1 e1].
  destruct (shr_fexp prec emax _ e1 loc_Exact) as [r2 e2].
  destruct (shr_m r2); [| destruct (e2 <=? emax - prec)%Z |]; reflexivity.
Qed.

Lemma binary_round_nonzero (s : bool) (m : positive) (e : Z) (z : bool) :
  (-1074 <= e)%Z -> binary_round prec emax s m e <> S754_zero z.
Proof.
  intros He.
  assert (P : forall z', binary_round prec emax false m e <> S754_zero z').
  { intros z' E.
    assert (G : SFleb (S754_finite false 1 (-1074)) (binary_round prec emax false m e) = true).
    { apply binary_round_ge; [lia|reflexivity|].
      unfold V. rewrite Z.mul_1_l.
      assert (2 ^ (-1074 + 2200) <= 2 ^ (e + 2200))%Z by (apply Z.pow_le_mono_r; lia).
      nia. }
    rewrite E in G. discriminate. }
  destruct s; [|apply P].
  unfold binary_round in *. destruct (shl_align m e _) as [mz ez].
  rewrite binary_round_aux_opp. intros E.
  destruct (binary_round_aux prec emax false (Z.pos mz) ez loc_Exact) eqn:R;
    try discriminate.
  now elim (P s).
Qed.

Lemma add_not_negzero (acc x : float) :
  Prim2SF acc <> S754_zero true -> Prim2SF (acc + x) <> S754_zero true.
Proof.
  intros N. rewrite add_spec.
  pose proof (Prim2SF_valid acc) as Va. pose proof (Prim2SF_valid x) as Vx.
  destruct (Prim2SF acc) as [sa|sa| |sa ma ea]; destruct (Prim2SF x) as [sx|sx| |sx mx ex];
    try discriminate; try (destruct sa, sx; simpl; congruence).
  apply bounded_facts in Va, Vx.
  unfold SF64add, SFadd.
  destruct (_ + _)%Z; simpl; try discriminate; apply binary_round_nonzero; lia.
Qed.

Lemma add_zero_r (acc : float) : Prim2SF acc <> S754_zero true -> acc + 0 = acc.
Proof.
  intros N. apply Prim2SF_inj. rewrite add_spec. change (Prim2SF 0) with (S754_zero false).
  destruct (Prim2SF acc) as [[]|sa| |sa ma ea]; try reflexivity. congruence.
Qed.

Lemma fold_add_nan_as_zero (l : list float) (acc : float) :
  Prim2SF acc <> S754_zero true ->
  fold_left PrimFloat.add (map (fun x => if np_isnan x then 0 else x) l) acc
  = fold_left PrimFloat.add (filter (fun x => negb (np_isnan x)) l) acc.
Proof.
  revert acc. induction l as [|x l IH]; intros acc N; simpl; auto.
  destruct (np_isnan x); simpl.
  - rewrite add_zero_r by assumption. now apply IH.
  - apply IH. now apply add_not_negzero.
Qed.

(** Replacing the NaN terms of a sum by zeros is dropping them. *)
Lemma fsum_nan_as_zero (l : list float) :
  fsum (map (fun x => if np_isnan x then 0 else x) l)
  = fsum (filter (fun x => negb (np_isnan x)) l).
Proof. apply fold_add_nan_as_zero. discriminate. Qed.

(** ** Reductions *)

Lemma size_of_app (s t : list nat) : size_of (s ++ t) = (size_of s * size_of t)%nat.
Proof. induction s as [|n s IH]; simpl; [lia|]. rewrite IH. lia. Qed.

Lemma columns_length {A} (w : nat) (rows : list (list A)) : length (columns w rows) = w.
Proof. revert rows. induction w as [|w IH]; intros rows; simpl; auto. Qed.

Lemma flat_map_length_const {A B} (f : A -> list B) (n : nat) (l : list A) :
  (forall x, length (f x) = n) -> length (flat_map f l) = (length l * n)%nat.
Proof.
  intros H. induction l as [|x l IH]; simpl; auto.
  rewrite length_app, H, IH. lia.
Qed.

Lemma lanes_length {A} (s : list nat) (ax : nat) (d : list A) :
  length (lanes s ax d) = size_of (drop_axis s ax).
Proof.
  unfold lanes, drop_axis. rewrite size_of_app.
  rewrite flat_map_length_const with (n := size_of (skipn (S ax) s)).
  - now rewrite chunks_length.
  - intros block. apply columns_length.
Qed.

(** An axis that [normalize_axis] accepts is one of an array of at least one
    dimension, and fits a C [int]. *)
Lemma normalize_axis_ok (n : nat) (k : Z) (ax : nat) :
  normalize_axis n k = Ok ax -> c_int k = true /\ c_long k = true /\ n <> 0%nat.
Proof.
  unfold normalize_axis, c_long. destruct (c_int k) eqn:Ek; simpl; [|discriminate].
  intros H. unfold c_int in Ek. apply andb_prop in Ek as [E1 E2].
  apply Z.leb_le in E1. apply Z.ltb_lt in E2.
  split; [reflexivity|]. split.
  - apply andb_true_intro. split; [apply Z.leb_le|apply Z.ltb_lt]; lia.
  - intros ->. simpl in H.
    destruct ((0 <=? k)%Z && (k <? 0)%Z) eqn:E3.
    + apply andb_prop in E3 as [E3 E4]. apply Z.leb_le in E3. apply Z.ltb_lt in E4. lia.
    + discriminate H.
Qed.


(** The two ways in which a reduction along an axis returns. *)
Lemma reduce_inv {A B} (f : list A -> B) (a : ndarray A) (k : Z) (r : ndarray B) :
  reduce f a (Some k) = Ok r ->
  (ndim a = 0%nat /\ r = scalar (f (data a)))
  \/ (exists ax, normalize_axis (ndim a) k = Ok ax
                /\ r = mk_ndarray (drop_axis (shape a) ax)
                                  (map f (lanes (shape a) ax (data a)))).
Proof.
  unfold reduce. destruct (negb (c_long k)); [discriminate|].
  destruct (negb (c_int k)); [discriminate|].
  destruct ((ndim a =? 0)%nat && ((k =? 0) || (k =? -1))%Z) eqn:E0.
  - apply andb_prop in E0 as [E0 _]. apply Nat.eqb_eq in E0.
    intros E. injection E as <-. left. split; [exact E0|reflexivity].
  - destruct (normalize_axis (ndim a) k) as [ax|e]; simpl; [|discriminate].
    intros E. injection E as <-. right. exists ax. split; reflexivity.
Qed.

(** A reduction always returns a well-formed array. *)
Lemma reduce_wf {A B} (f : list A -> B) (a : ndarray A) (axis : option Z) (r : ndarray B) :
  reduce f a axis = Ok r -> wf r.
Proof.
  destruct axis as [k|].
  - intros E. destruct (reduce_inv _ _ _ _ E) as [[_ ->]|(ax & _ & ->)]; [reflexivity|].
    unfold wf. simpl. now rewrite length_map, lanes_length.
  - intros E. injection E as <-. reflexivity.
Qed.

Lemma reduce_shape {A B} (f g : list A -> B) (a b : ndarray A) (axis : option Z)
  (r r' : ndarray B) :
  shape a = shape b -> reduce f a axis = Ok r -> reduce g b axis = Ok r' ->
  shape r = shape r'.
Proof.
  intros E. destruct axis as [k|].
  - intros R R'.
    destruct (reduce_inv _ _ _ _ R) as [[Na ->]|(ax & Ha & ->)];
      destruct (reduce_inv _ _ _ _ R') as [[Nb ->]|(ax' & Hb & ->)]; simpl.
    + reflexivity.
    + unfold ndim in *. rewrite <- E in Hb.
      destruct (normalize_axis_ok _ _ _ Hb) as (_ & _ & Hn). contradiction.
    + unfold ndim in *. rewrite E in Ha.
      destruct (normalize_axis_ok _ _ _ Ha) as (_ & _ & Hn). contradiction.
    + unfold ndim in *. rewrite E in Ha. rewrite Ha in Hb. injection Hb as <-.
      now rewrite E.
  - intros R R'. injection R as <-. injection R' as <-. reflexivity.
Qed.

Lemma Forall_firstn_skipn {A} (P : A -> Prop) (n : nat) (d : list A) :
  Forall P d -> Forall P (firstn n d) /\ Forall P (skipn n d).
Proof. intros H. apply Forall_app. now rewrite firstn_skipn. Qed.

Lemma Forall_chunks {A} (P : A -> Prop) (n k : nat) (d : list A) :
  Forall P d -> Forall (Forall P) (chunks n k d).
Proof.
  revert d. induction k as [|k IH]; intros d H; simpl; constructor.
  - now apply Forall_firstn_skipn.
  - apply IH. now apply Forall_firstn_skipn.
Qed.

Lemma Forall_columns {A} (P : A -> Prop) (w : nat) (rows : list (list A)) :
  Forall (Forall P) rows -> Forall (Forall P) (columns w rows).
Proof.
  revert rows. induction w as [|w IH]; intros rows H; simpl; constructor.
  - apply Forall_flat_map. eapply Forall_impl; [|exact H].
    intros row Hr. apply (Forall_firstn_skipn P 1 row Hr).
  - apply IH. apply Forall_map. eapply Forall_impl; [|exact H].
    intros [|x row] Hr; simpl; auto. now inversion Hr.
Qed.

(** The elements of a lane are elements of the array. *)
Lemma Forall_lanes {A} (P : A -> Prop) (s : list nat) (ax : nat) (d : list A) :
  Forall P d -> Forall (Forall P) (lanes s ax d).
Proof.
  intros H. unfold lanes. apply Forall_flat_map.
  eapply Forall_impl; [|apply Forall_chunks; exact H].
  intros block Hb. apply Forall_columns. now apply Forall_chunks.
Qed.

Lemma reduce_Forall {A B} (P : A -> Prop) (Q : B -> Prop) (f : list A -> B)
  (a : ndarray A) (axis : option Z) (r : ndarray B) :
  (forall lane, Forall P lane -> Q (f lane)) ->
  Forall P (data a) -> reduce f a axis = Ok r -> Forall Q (data r).
Proof.
  intros Hf Ha. destruct axis as [k|].
  - intros E. destruct (reduce_inv _ _ _ _ E) as [[_ ->]|(ax & _ & ->)]; simpl.
    + constructor; auto.
    + apply Forall_map.
      eapply Forall_impl; [|apply Forall_lanes; exact Ha]. exact Hf.
  - intros E. injection E as <-. simpl. constructor; auto.
Qed.

Lemma Forall_zip_with {A B C} (P : A -> Prop) (Q : B -> Prop) (R : C -> Prop)
  (f : A -> B -> C) (l : list A) (m : list B) :
  (forall x y, P x -> Q y -> R (f x y)) ->
  Forall P l -> Forall Q m -> Forall R (zip_with f l m).
Proof.
  intros H Hl. revert m. induction Hl as [|x l Px Hl IH]; intros m Hm; simpl; auto.
  destruct Hm as [|y m Qy Hm]; constructor; auto.
Qed.

Lemma elementwise_shape {A B C} (f : A -> B -> C) (a : ndarray A) (b : ndarray B)
  (r : ndarray C) :
  shape a = shape b -> elementwise f a b = Ok r -> shape r = shape a.
Proof.
  intros E. unfold elementwise. rewrite <- E, broadcast_shapes_same.
  intros R. injection R as <-. reflexivity.
Qed.

Lemma drop_axis_default (s : list nat) (ax : nat) :
  size_of (drop_axis s ax) = length (lanes s ax (@nil unit)).
Proof. now rewrite lanes_length. Qed.

(** Once the axis is checked, [np.mean] is the reduction. *)
Lemma np_mean_checked (a : ndarray float) (axis : option Z) :
  check_axis (ndim a) axis = Ok tt -> np_mean a axis = reduce fmean a axis.
Proof. unfold np_mean. intros ->. reflexivity. Qed.

Lemma check_axis_inv (n : nat) (axis : option Z) (u : unit) :
  check_axis n axis = Ok u ->
  match axis with
  | None => True
  | Some k => exists ax, normalize_axis n k = Ok ax
  end.
Proof.
  destruct axis as [k|]; simpl; [|trivial].
  destruct (normalize_axis n k) as [ax|e]; simpl; [|discriminate]. intros _. now exists ax.
Qed.

Lemma check_axis_cases (n : nat) (axis : option Z) :
  check_axis n axis = Ok tt \/ exists e, check_axis n axis = Raise e.
Proof.
  destruct axis as [k|]; simpl; [|now left].
  destruct (normalize_axis n k) as [ax|e]; simpl; [now left|right; now exists e].
Qed.

(** [np.average] returns only when the axis passes the check, and then with
    the mean followed by the size test, or with the weighted average. *)
Lemma np_average_inv (a : ndarray float) (weights : option (ndarray float))
  (axis : option Z) (r : ndarray float) :
  np_average a weights axis = Ok r ->
  check_axis (ndim a) axis = Ok tt
  /\ match weights with
     | None => reduce fmean a axis = Ok r /\ size_of (shape r) <> 0%nat
     | Some wgt => np_average a (Some wgt) axis = Ok r
     end.
Proof.
  intros E. destruct (check_axis_cases (ndim a) axis) as [Ec|[e Ec]].
  - split; [exact Ec|]. destruct weights as [wgt|]; [exact E|].
    unfold np_average in E. rewrite (np_mean_checked _ _ Ec), Ec in E. simpl in E.
    destruct (reduce fmean a axis) as [avg|e] eqn:Ea; simpl in E; [|discriminate].
    destruct (size_of (shape avg) =? 0)%nat eqn:Ez; [discriminate|].
    injection E as <-. split; [reflexivity|]. now apply Nat.eqb_neq.
  - unfold np_average in E. rewrite Ec in E. discriminate.
Qed.

(** [np.average] returns a well-formed array. *)
Lemma np_average_wf (a : ndarray float) (weights : option (ndarray float))
  (axis : option Z) (r : ndarray float) :
  np_average a weights axis = Ok r -> wf r.
Proof.
  unfold np_average.
  destruct (check_axis_cases (ndim a) axis) as [Ec|[e Ec]];
    [|rewrite Ec; discriminate].
  rewrite (np_mean_checked _ _ Ec). rewrite Ec. simpl.
  destruct weights as [wgt|].
  - destruct (shape_eqb (shape a) (shape wgt)) eqn:Es.
    + apply shape_eqb_eq in Es.
      destruct (np_sum wgt axis) as [scl|e] eqn:Escl; simpl; [|discriminate].
      destruct (existsb _ _); [discriminate|].
      destruct (np_multiply a wgt) as [prod|e] eqn:Ep; simpl; [|discriminate].
      destruct (np_sum prod axis) as [tot|e] eqn:Etot; simpl; [|discriminate].
      intros D.
      assert (Sp : shape prod = shape wgt).
      { rewrite <- Es. eapply elementwise_shape; eauto. }
      pose proof (reduce_wf _ _ _ _ Etot) as Wt. pose proof (reduce_wf _ _ _ _ Escl) as Ws.
      pose proof (reduce_shape _ _ _ _ _ _ _ Sp Etot Escl) as St.
      unfold np_divide in D. rewrite (elementwise_same_shape _ _ _ Wt Ws St) in D.
      injection D as <-. unfold wf. simpl. rewrite zip_with_length.
      unfold wf in Wt, Ws. rewrite Wt, Ws, St. lia.
    + destruct axis as [k|]; simpl; [|intros H; discriminate H].
      destruct (normalize_axis (ndim a) k) as [ax|e]; simpl; [|intros H; discriminate H].
      destruct (shape_eqb (shape wgt) _); [|intros H; discriminate H].
      destruct (fsum (data wgt) =? 0); [intros H; discriminate H|].
      intros E. injection E as <-. unfold wf. simpl.
      now rewrite length_map, lanes_length.
  - destruct (reduce fmean a axis) as [avg|e] eqn:Ea; simpl; [|discriminate].
    destruct (size_of (shape avg) =? 0)%nat; [discriminate|].
    intros E. injection E as <-. eapply reduce_wf; eauto.
Qed.

(** ** Safe division *)

Lemma mask_assign_self {A} (p : A -> bool) (v : A) (a : ndarray A) :
  mask_assign a (nd_map p a) v = nd_map (fun x => if p x then v else x) a.
Proof.
  unfold mask_assign, nd_map. simpl. f_equal.
  induction (data a) as [|x l IH]; simpl; congruence.
Qed.

Lemma divide_no_nan_same_shape (a b : ndarray float) :
  wf a -> wf b -> shape a = shape b -> shape a <> [] ->
  _divide_no_nan a b = Ok (mk_ndarray (shape a) (zip_with safe_quotient (data a) (data b))).
Proof.
  intros Ha Hb E N. unfold _divide_no_nan, np_divide.
  rewrite (elementwise_same_shape _ _ _ Ha Hb E). simpl.
  destruct (shape a) as [|n s] eqn:Es; [contradiction|].
  rewrite !mask_assign_self. unfold nd_map. simpl. f_equal. f_equal.
  rewrite map_map, map_zip_with. apply zip_with_ext. intros x y.
  unfold safe_quotient, np_isnan. simpl.
  destruct (negb (x / y =? x / y)); reflexivity.
Qed.

(** Two 0-d operands have a quotient that is a number, not an array. *)
Lemma divide_no_nan_scalars (a b : ndarray float) :
  shape a = [] -> shape b = [] -> _divide_no_nan a b = Raise TypeError.
Proof.
  intros Ea Eb. unfold _divide_no_nan, np_divide, elementwise.
  rewrite Ea, Eb. reflexivity.
Qed.

(** C1: [_divide_no_nan] replaces the NaN of 0/0 and the +inf of 1/0 by 0.0,
    but leaves the -inf of -1/0 in place: its second test compares with
    [float('inf')] only. *)
Theorem divide_no_nan_keeps_negative_infinity :
  _divide_no_nan (vector [0; 1; -1; 6]) (vector [0; 0; 0; 3])
  = Ok (vector [0; 0; neg_infinity; 2]).
Proof. vm_compute. reflexivity. Qed.

(** ** Weight validation *)

Lemma metric_protections_sum (y y_hat w : ndarray float) :
  (0 <? fsum (data w)) = false ->
  _metric_protections y y_hat (Some w) = Raise (AssertionError "Sum of weights cannot be 0").
Proof. intros H. unfold _metric_protections. now rewrite H. Qed.

Lemma metric_protections_shape (y y_hat w : ndarray float) :
  (0 <? fsum (data w)) = true -> shape w <> shape y ->
  _metric_protections y y_hat (Some w)
  = Raise (AssertionError ("Wrong weight dimension weights.shape " ++ py_tuple (shape w)
                           ++ ", y.shape " ++ py_tuple (shape y))).
Proof.
  intros H N. unfold _metric_protections. rewrite H. simpl.
  apply shape_eqb_neq in N. now rewrite N.
Qed.

Lemma metric_protections_ok (y y_hat w : ndarray float) :
  _metric_protections y y_hat (Some w) = Ok tt <->
  (0 <? fsum (data w)) = true /\ shape w = shape y.
Proof.
  unfold _metric_protections.
  destruct (0 <? fsum (data w)); simpl.
  - destruct (shape_eqb (shape w) (shape y)) eqn:E; simpl.
    + apply shape_eqb_eq in E. tauto.
    + apply shape_eqb_neq in E. split; [discriminate | tauto].
  - split; [discriminate | intros [? _]; discriminate].
Qed.

(** Degenerate or misshapen weights are refused with an [AssertionError]. *)
Lemma metric_protections_raises (y y_hat w : ndarray float) :
  (0 <? fsum (data w)) = false \/ shape w <> shape y ->
  exists msg, _metric_protections y y_hat (Some w) = Raise (AssertionError msg).
Proof.
  intros H. destruct (0 <? fsum (data w)) eqn:S.
  - destruct H as [H|H]; [discriminate|].
    eexists. now apply metric_protections_shape.
  - eexists. now apply metric_protections_sum.
Qed.

(** The metrics that call the validator fail as it does, before anything else. *)
Lemma validated_metrics_raise (y y_hat : ndarray float) (weights : option (ndarray float))
  (axis : option Z) (e : exn) :
  _metric_protections y y_hat weights = Raise e ->
  mae y y_hat weights axis = Raise e /\
  mse y y_hat weights axis = Raise e /\
  rmse y y_hat weights axis = Raise e /\
  mape y y_hat weights axis = Raise e /\
  smape y y_hat weights axis = Raise e /\
  (forall y_hat2, rmae y y_hat y_hat2 weights axis = Raise e) /\
  (forall q, quantile_loss y y_hat q weights axis = Raise e).
Proof.
  intros H. unfold rmae, rmse, mae, mse, mape, smape, quantile_loss.
  rewrite H. simpl. repeat split; reflexivity.
Qed.

Lemma validated_quantile_metrics_raise (y y_hat quantiles w : ndarray float)
  (axis : option Z) (e : exn) :
  _metric_protections y y_hat (Some w) = Raise e ->
  mqloss y y_hat quantiles (Some w) axis = Raise e /\
  scaled_crps y y_hat quantiles (Some w) axis = Raise e.
Proof.
  intros H. unfold scaled_crps, mqloss. rewrite H. simpl. split; reflexivity.
Qed.

(** C2: [mase] accepts a weights parameter and never calls the validator;
    weights whose sum is negative, which every other metric refuses, go
    through and a value is returned. *)
Theorem mase_skips_weight_validation :
  let y := vector [1] in
  let y_hat := vector [0] in
  let y_train := vector [1; 2] in
  let weights := vector [-1] in
  mae y y_hat (Some weights) None = Raise (AssertionError "Sum of weights cannot be 0")
  /\ mase y y_hat y_train 1 (Some weights) None = Ok (scalar 1).
Proof. vm_compute. split; reflexivity. Qed.

(** ** The weighted reduction and [axis] *)

(** C4: with weights, [mae] indexes the errors and the weights by a boolean
    mask, which flattens them; an axis other than the first is then out of
    bounds, and axis 0 averages the whole array instead of each column (the
    unweighted path reduces along the axis). *)
Theorem weighted_mae_ignores_axis :
  let y := matrix [[1; 2]; [3; 4]] in
  let y_hat := matrix [[0; 0]; [0; 0]] in
  let weights := matrix [[1; 1]; [1; 1]] in
  mae y y_hat (Some weights) (Some 1%Z) = Raise AxisError
  /\ mae y y_hat (Some weights) (Some 0%Z) = Ok (scalar 2.5)
  /\ mae y y_hat None (Some 0%Z) = Ok (vector [2; 3])
  /\ mae y y_hat None (Some 1%Z) = Ok (vector [1.5; 3.5]).
Proof. vm_compute. repeat split; reflexivity. Qed.

(** ** Root mean squared error *)

(** C5: [rmse] is the square root of [mse], element by element, and fails
    exactly when [mse] fails. *)
Theorem rmse_sqrt_mse (y y_hat : ndarray float) (weights : option (ndarray float))
  (axis : option Z) :
  match mse y y_hat weights axis, rmse y y_hat weights axis with
  | Ok m, Ok r => shape r = shape m /\ data r = map PrimFloat.sqrt (data m)
  | Raise e, Raise e' => e = e'
  | _, _ => False
  end.
Proof.
  unfold rmse. destruct (mse y y_hat weights axis) as [m|e]; simpl; auto.
Qed.

(** ** Mean absolute scaled error *)

Lemma slice_index_neg (n : nat) (s : Z) :
  (0 < s)%Z -> slice_index n (- s) = (n - Z.to_nat s)%nat.
Proof.
  intros H. unfold slice_index.
  destruct (Z.ltb_spec (- s) 0); lia.
Qed.

Lemma slice_index_pos (n : nat) (s : Z) :
  (0 < s)%Z -> slice_index n s = Nat.min n (Z.to_nat s).
Proof.
  intros H. unfold slice_index.
  destruct (Z.ltb_spec s 0); lia.
Qed.

(** For a positive seasonality the two slices of [mase] pair each row with
    the row one season later. *)
Lemma mase_scale_errors (y_train : ndarray float) (seasonality : Z) :
  (0 < seasonality)%Z -> wf y_train -> shape y_train <> [] ->
  (head <- slice_to y_train (- seasonality) ;;
   tail <- slice_from y_train seasonality ;;
   diff <- np_subtract head tail ;;
   Ok (np_abs diff))
  = Ok (seasonal_naive_errors y_train (Z.to_nat seasonality)).
Proof.
  intros Hs W Hn. unfold slice_to, slice_from, slice_rows, seasonal_naive_errors.
  destruct (shape y_train) as [|n rest] eqn:Es; [congruence|]. simpl hd. simpl tl.
  rewrite slice_index_neg, slice_index_pos by assumption.
  set (s := Z.to_nat seasonality). set (inner := size_of rest).
  unfold wf in W. rewrite Es in W. simpl in W. fold inner in W.
  simpl bind. rewrite Nat.sub_0_r. simpl skipn at 1.
  assert (El : (n - Nat.min n s = n - s)%nat) by lia. rewrite El.
  unfold np_subtract. rewrite elementwise_same_shape.
  - simpl. unfold np_abs, nd_map. simpl. f_equal. f_equal.
    rewrite map_zip_with.
    destruct (Nat.le_gt_cases s n) as [Le|Gt].
    + rewrite (Nat.min_r n s) by lia.
      rewrite (@firstn_all2 _ ((n - s) * inner) (skipn (s * inner) (data y_train)));
        [reflexivity|].
      rewrite length_skipn. nia.
    + replace (n - s)%nat with 0%nat by lia. reflexivity.
  - unfold wf. simpl. rewrite length_firstn. fold inner.
    assert ((n - s) * inner <= n * inner)%nat by (apply Nat.mul_le_mono_r; lia). lia.
  - unfold wf. simpl. rewrite length_firstn, length_skipn. fold inner. rewrite W.
    destruct (Nat.le_gt_cases s n) as [Le|Gt].
    + rewrite (Nat.min_r n s) by lia. rewrite <- Nat.mul_sub_distr_r. apply Nat.min_id.
    + replace (n - s)%nat with 0%nat by lia. reflexivity.
  - reflexivity.
Qed.

(** C7: with the weighted mean [delta] of the absolute errors and the
    unweighted mean [scale] of the seasonal naive errors of the training
    series, [mase] returns their quotient, element by element; a zero
    [scale] gives an infinity or NaN at its position, and no exception. *)
Theorem mase_ratio (y y_hat y_train : ndarray float) (seasonality : Z)
  (weights : option (ndarray float)) (axis : option Z) (delta scale : ndarray float) :
  (0 < seasonality)%Z -> wf y_train -> shape y_train <> [] ->
  (errors <- np_subtract y y_hat ;; np_average (np_abs errors) weights axis) = Ok delta ->
  np_average (seasonal_naive_errors y_train (Z.to_nat seasonality)) None axis = Ok scale ->
  shape delta = shape scale ->
  mase y y_hat y_train seasonality weights axis
  = Ok (mk_ndarray (shape delta) (zip_with PrimFloat.div (data delta) (data scale)))
  /\ Forall2 (fun d q => PrimFloat.is_zero d = true -> is_infinity q || np_isnan q = true)
       (data scale) (zip_with PrimFloat.div (data delta) (data scale)).
Proof.
  intros Hs W Hn Hd Hsc Sh.
  pose proof (mase_scale_errors y_train seasonality Hs W Hn) as Sc.
  assert (Wd : wf delta).
  { destruct (np_subtract y y_hat) as [errors|e]; simpl in Hd; [|discriminate].
    eapply np_average_wf; eauto. }
  assert (Ws : wf scale) by (eapply np_average_wf; eauto).
  split.
  - unfold mase.
    destruct (np_subtract y y_hat) as [errors|e]; cbn [bind] in Hd |- *; [|discriminate].
    rewrite Hd. cbn [bind].
    destruct (slice_to y_train (- seasonality)) as [head|e]; cbn [bind] in Sc |- *;
      [|discriminate].
    destruct (slice_from y_train seasonality) as [tail|e]; cbn [bind] in Sc |- *;
      [|discriminate].
    destruct (np_subtract head tail) as [diff|e]; cbn [bind] in Sc |- *; [|discriminate].
    assert (E : np_abs diff = seasonal_naive_errors y_train (Z.to_nat seasonality))
      by congruence.
    rewrite E, Hsc. cbn [bind].
    unfold np_divide. now rewrite elementwise_same_shape.
  - unfold wf in Wd, Ws. rewrite Sh in Wd.
    assert (L : length (data delta) = length (data scale)) by lia.
    clear - L. revert L. generalize (data delta) (data scale).
    induction l as [|x l IH]; intros [|d m] L; simpl in *; try discriminate; constructor.
    + apply div_by_zero.
    + apply IH. lia.
Qed.

Lemma mase_ratio_witness :
  mase (vector [1; 3]) (vector [0; 1]) (vector [2; 2; 2]) 1 None None
  = Ok (mk_ndarray [] (zip_with PrimFloat.div [1.5] [0]))
  /\ Forall2 (fun d q => PrimFloat.is_zero d = true -> is_infinity q || np_isnan q = true)
       [0] (zip_with PrimFloat.div [1.5] [0]).
Proof.
  apply (mase_ratio (vector [1; 3]) (vector [0; 1]) (vector [2; 2; 2]) 1 None None
           (scalar 1.5) (scalar 0)).
  - reflexivity.
  - reflexivity.
  - discriminate.
  - reflexivity.
  - reflexivity.
  - reflexivity.
Defined.

(** ** Coverage and calibration *)

Lemma wf_zip_with {A B C} (f : A -> B -> C) (a : ndarray A) (b : ndarray B) :
  wf a -> wf b -> shape a = shape b ->
  wf (mk_ndarray (shape a) (zip_with f (data a) (data b))).
Proof.
  unfold wf. intros Ha Hb E. simpl. rewrite zip_with_length, Ha, Hb, E. lia.
Qed.

Lemma interval_indicator_zip (y lo hi : list float) :
  zip_with andb (zip_with (fun a b => b <=? a) y lo) (zip_with PrimFloat.leb y hi)
  = interval_indicator y lo hi.
Proof.
  revert lo hi. induction y as [|a y IH]; intros [|l lo] [|h hi]; simpl; auto.
  rewrite IH. f_equal.
  destruct (np_isnan a) eqn:N; simpl; auto.
  apply np_isnan_eq in N. subst a. now rewrite leb_nan_r.
Qed.

Lemma bound_indicator_zip (y hi : list float) :
  zip_with PrimFloat.leb y hi = bound_indicator y hi.
Proof.
  revert hi. induction y as [|a y IH]; intros [|h hi]; simpl; auto.
  rewrite IH. f_equal.
  destruct (np_isnan a) eqn:N; simpl; auto.
  apply np_isnan_eq in N. subst a. now rewrite leb_nan_l.
Qed.

Lemma interval_indicator_length (y lo hi : list float) :
  length lo = length y -> length hi = length y ->
  length (interval_indicator y lo hi) = length y.
Proof.
  revert lo hi. induction y as [|a y IH]; intros [|l lo] [|h hi]; simpl; auto;
    try discriminate.
  all: intros H1 H2; f_equal; apply IH; lia.
Qed.

Lemma bound_indicator_length (y hi : list float) :
  length hi = length y -> length (bound_indicator y hi) = length y.
Proof.
  revert hi. induction y as [|a y IH]; intros [|h hi]; simpl; auto; try discriminate.
  all: intros H; f_equal; apply IH; lia.
Qed.

(** What [coverage] and [calibration] compute on arrays of one shape. *)
Lemma coverage_same_shape (y y_hat_lo y_hat_hi : ndarray float) :
  wf y -> wf y_hat_lo -> wf y_hat_hi ->
  shape y_hat_lo = shape y -> shape y_hat_hi = shape y ->
  coverage y y_hat_lo y_hat_hi
  = Ok (scalar (100 * fmean (map float_of_bool
                  (interval_indicator (data y) (data y_hat_lo) (data y_hat_hi))))).
Proof.
  intros Wy Wl Wh El Eh. unfold coverage.
  rewrite (elementwise_same_shape _ _ _ Wy Wl (eq_sym El)). cbn [bind].
  rewrite (elementwise_same_shape _ _ _ Wy Wh (eq_sym Eh)). cbn [bind].
  rewrite elementwise_same_shape.
  - cbn [bind]. unfold mean_bool. simpl data. now rewrite interval_indicator_zip.
  - now apply wf_zip_with.
  - now apply wf_zip_with.
  - reflexivity.
Qed.

Lemma calibration_same_shape (y y_hat_hi : ndarray float) :
  wf y -> wf y_hat_hi -> shape y_hat_hi = shape y ->
  calibration y y_hat_hi
  = Ok (scalar (fmean (map float_of_bool (bound_indicator (data y) (data y_hat_hi))))).
Proof.
  intros Wy Wh Eh. unfold calibration.
  rewrite (elementwise_same_shape _ _ _ Wy Wh (eq_sym Eh)). cbn [bind].
  unfold mean_bool. simpl data. now rewrite bound_indicator_zip.
Qed.

Lemma float_of_Z_unsigned (k : Z) : (0 <= k)%Z -> unsigned (float_of_Z k) = true.
Proof.
  intros H. unfold unsigned. rewrite float_of_Z_prim by assumption.
  destruct k as [|p|p]; try lia; [reflexivity|]. apply binary_round_signed.
Qed.

Lemma fin_positive_ltb (x : float) :
  Prim2SF x = S754_infinity false \/ (fin_nonneg x = true /\ (0 < fval x)%Z) ->
  (0 <? x) = true.
Proof.
  unfold fin_nonneg, fval. rewrite ltb_spec. change (Prim2SF 0) with (S754_zero false).
  intros [->|[F P]]; [reflexivity|].
  destruct (Prim2SF x) as [s|s| |[] m e]; try discriminate; simpl in P; try lia.
  reflexivity.
Qed.

(** The mean of a non-empty boolean array lies between 0 and 1. *)
Lemma mean_indicator_bounds (l : list bool) :
  l <> [] ->
  (0 <=? fmean (map float_of_bool l)) = true /\ (fmean (map float_of_bool l) <=? 1) = true.
Proof.
  intros Hl. unfold fmean. rewrite fsum_indicator, length_map.
  pose proof (count_true_bounds l) as [C0 C1].
  assert (Hn : (1 <= Z.of_nat (length l))%Z) by (destruct l; simpl; [congruence|lia]).
  set (k := Z.min (count_true l) (2 ^ 53)) in *.
  destruct (float_of_Z_exact k ltac:(subst k; lia)) as [Fk Vk].
  assert (P2 : (0 < 2 ^ 2200)%Z) by (apply pow2_pos; lia).
  assert (Den : Prim2SF (float_of_nat (length l)) = S754_infinity false \/
                (fin_nonneg (float_of_nat (length l)) = true /\
                 (0 < fval (float_of_nat (length l)))%Z /\
                 (fval (float_of_Z k) <= fval (float_of_nat (length l)))%Z)).
  { unfold float_of_nat.
    destruct (Z_le_gt_dec (Z.of_nat (length l)) (2 ^ 53)) as [Le|Gt].
    - right. destruct (float_of_Z_exact (Z.of_nat (length l)) ltac:(lia)) as [Fn Vn].
      rewrite Vk, Vn. split; [exact Fn|]. split; [nia|]. subst k. nia.
    - destruct (float_of_Z_large (Z.of_nat (length l)) ltac:(lia)) as [I|[Fn Vn]];
        [now left|right].
      rewrite Vk. split; [exact Fn|]. split; [nia|]. subst k. nia. }
  assert (Le1 : (float_of_Z k / float_of_nat (length l) <=? 1) = true)
    by (apply div_le_one; assumption).
  split; [|exact Le1].
  apply nonneg_leb. split.
  - apply div_nonneg.
    + unfold nonneg_or_nan. unfold fin_nonneg in Fk.
      destruct (Prim2SF (float_of_Z k)) as [s|s| |[] mk ek]; try discriminate; reflexivity.
    + apply fin_positive_ltb. destruct Den as [I|(F & P & _)]; auto.
  - now apply leb_true_not_nan in Le1.
Qed.

(** C9: on non-empty arrays of one shape [coverage] is 100 times the mean
    of the interval indicator, a scalar between 0 and 100, and [calibration]
    the mean of the bound indicator, a scalar between 0 and 1. *)
Theorem coverage_calibration_bounds (y y_hat_lo y_hat_hi : ndarray float) :
  wf y -> wf y_hat_lo -> wf y_hat_hi ->
  shape y_hat_lo = shape y -> shape y_hat_hi = shape y -> data y <> [] ->
  (exists c,
     coverage y y_hat_lo y_hat_hi = Ok (scalar c) /\
     c = 100 * fmean (map float_of_bool
                        (interval_indicator (data y) (data y_hat_lo) (data y_hat_hi))) /\
     (0 <=? c) = true /\ (c <=? 100) = true) /\
  (exists u,
     calibration y y_hat_hi = Ok (scalar u) /\
     u = fmean (map float_of_bool (bound_indicator (data y) (data y_hat_hi))) /\
     (0 <=? u) = true /\ (u <=? 1) = true).
Proof.
  intros Wy Wl Wh El Eh Ne.
  assert (Ll : length (data y_hat_lo) = length (data y)).
  { unfold wf in *. rewrite Wy, Wl, El. reflexivity. }
  assert (Lh : length (data y_hat_hi) = length (data y)).
  { unfold wf in *. rewrite Wy, Wh, Eh. reflexivity. }
  split.
  - eexists. split; [now apply coverage_same_shape|]. split; [reflexivity|].
    set (ind := interval_indicator (data y) (data y_hat_lo) (data y_hat_hi)).
    assert (Ni : ind <> []).
    { intros E. apply (f_equal (@length bool)) in E. subst ind.
      rewrite interval_indicator_length in E by assumption.
      destruct (data y); [congruence|discriminate]. }
    destruct (mean_indicator_bounds ind Ni) as [M0 M1].
    assert (Le : (100 * fmean (map float_of_bool ind) <=? 100) = true).
    { apply mul_le_self; auto; reflexivity. }
    split; [|exact Le]. apply nonneg_leb. split.
    + apply mul_nonneg; [reflexivity|]. now apply nonneg_leb in M0.
    + now apply leb_true_not_nan in Le.
  - eexists. split; [now apply calibration_same_shape|]. split; [reflexivity|].
    apply mean_indicator_bounds.
    intros E. apply (f_equal (@length bool)) in E.
    rewrite bound_indicator_length in E by assumption.
    destruct (data y); [congruence|discriminate].
Qed.

Lemma coverage_calibration_bounds_witness :
  let y := vector [1; nan; 5] in
  let y_hat_lo := vector [0; 0; 0] in
  let y_hat_hi := vector [2; 2; 2] in
  (exists c,
     coverage y y_hat_lo y_hat_hi = Ok (scalar c) /\
     c = 100 * fmean (map float_of_bool
                        (interval_indicator (data y) (data y_hat_lo) (data y_hat_hi))) /\
     (0 <=? c) = true /\ (c <=? 100) = true) /\
  (exists u,
     calibration y y_hat_hi = Ok (scalar u) /\
     u = fmean (map float_of_bool (bound_indicator (data y) (data y_hat_hi))) /\
     (0 <=? u) = true /\ (u <=? 1) = true).
Proof.
  apply (coverage_calibration_bounds (vector [1; nan; 5]) (vector [0; 0; 0])
           (vector [2; 2; 2])); try reflexivity.
  discriminate.
Defined.

(** On empty arrays the mean is 0/0: both metrics return NaN, which lies in
    no interval. *)
Lemma coverage_of_nothing_is_nan :
  coverage (vector []) (vector []) (vector []) = Ok (scalar nan)
  /\ calibration (vector []) (vector []) = Ok (scalar nan)
  /\ (0 <=? nan) = false /\ (nan <=? 100) = false /\ (nan <=? 1) = false.
Proof. vm_compute. repeat split; reflexivity. Qed.

(** *** NaN observations *)

Lemma wf_vector {A} (l : list A) : wf (vector l).
Proof. unfold wf, vector. simpl. lia. Qed.

Lemma select_length_eq {A B} (m : list bool) (d : list A) (d' : list B) :
  length d = length d' -> length (select m d) = length (select m d').
Proof.
  revert d d'. induction m as [|b m IH]; intros [|x d] [|x' d']; simpl; auto;
    try discriminate.
  intros H. destruct b; simpl; auto.
Qed.

Lemma interval_indicator_nil_lo (y hi : list float) : interval_indicator y [] hi = [].
Proof. destruct y; reflexivity. Qed.

Lemma interval_indicator_nil_hi (y lo : list float) : interval_indicator y lo [] = [].
Proof. destruct y; [|destruct lo]; reflexivity. Qed.

Lemma bound_indicator_nil (y : list float) : bound_indicator y [] = [].
Proof. destruct y; reflexivity. Qed.

Lemma select_nil {A} (m : list bool) : select m (@nil A) = [].
Proof. destruct m; reflexivity. Qed.

Lemma interval_indicator_observed (y lo hi : list float) :
  let keep := map (fun a => negb (np_isnan a)) y in
  count_true (interval_indicator (select keep y) (select keep lo) (select keep hi))
  = count_true (interval_indicator y lo hi).
Proof.
  cbv zeta. revert lo hi. induction y as [|a y IH]; intros lo hi; [reflexivity|].
  destruct lo as [|l lo].
  { now rewrite select_nil, !interval_indicator_nil_lo. }
  destruct hi as [|h hi].
  { now rewrite select_nil, !interval_indicator_nil_hi. }
  specialize (IH lo hi). simpl. unfold count_true in *.
  destruct (np_isnan a) eqn:N; simpl.
  - exact IH.
  - rewrite N. simpl. destruct ((l <=? a) && (a <=? h)); simpl; lia.
Qed.

Lemma bound_indicator_observed (y hi : list float) :
  let keep := map (fun a => negb (np_isnan a)) y in
  count_true (bound_indicator (select keep y) (select keep hi))
  = count_true (bound_indicator y hi).
Proof.
  cbv zeta. revert hi. induction y as [|a y IH]; intros hi; [reflexivity|].
  destruct hi as [|h hi].
  { now rewrite select_nil, !bound_indicator_nil. }
  specialize (IH hi). simpl. unfold count_true in *.
  destruct (np_isnan a) eqn:N; simpl.
  - exact IH.
  - rewrite N. simpl. destruct (a <=? h); simpl; lia.
Qed.

Lemma select_observed_length (y : list float) :
  length y = (length (select (map (fun a => negb (np_isnan a)) y) y)
              + length (filter np_isnan y))%nat.
Proof.
  induction y as [|a y IH]; simpl; auto.
  destruct (np_isnan a); simpl; lia.
Qed.

(** C10: a NaN observation fails both comparisons, so it adds nothing to the
    count of covered positions, and it stays in the number of positions the
    count is divided by; leaving the NaN observations out keeps the count and
    divides it by less. *)
Theorem nan_observations_count_as_misses (y y_hat_lo y_hat_hi : ndarray float) :
  wf y -> wf y_hat_lo -> wf y_hat_hi ->
  shape y_hat_lo = shape y -> shape y_hat_hi = shape y ->
  let keep := observed y in
  let covered := float_of_Z (Z.min (count_true (interval_indicator (data y) (data y_hat_lo)
                                                  (data y_hat_hi))) (2 ^ 53)) in
  let below := float_of_Z (Z.min (count_true (bound_indicator (data y) (data y_hat_hi)))
                                 (2 ^ 53)) in
  let n := length (select keep (data y)) in
  let n_nan := length (filter np_isnan (data y)) in
  coverage y y_hat_lo y_hat_hi = Ok (scalar (100 * (covered / float_of_nat (n + n_nan))))
  /\ coverage (vector (select keep (data y))) (vector (select keep (data y_hat_lo)))
       (vector (select keep (data y_hat_hi)))
     = Ok (scalar (100 * (covered / float_of_nat n)))
  /\ calibration y y_hat_hi = Ok (scalar (below / float_of_nat (n + n_nan)))
  /\ calibration (vector (select keep (data y))) (vector (select keep (data y_hat_hi)))
     = Ok (scalar (below / float_of_nat n)).
Proof.
  intros Wy Wl Wh El Eh keep covered below n n_nan.
  assert (Ll : length (data y_hat_lo) = length (data y)).
  { unfold wf in *. rewrite Wy, Wl, El. reflexivity. }
  assert (Lh : length (data y_hat_hi) = length (data y)).
  { unfold wf in *. rewrite Wy, Wh, Eh. reflexivity. }
  assert (Ln : length (data y) = (n + n_nan)%nat) by apply select_observed_length.
  assert (Sl : length (select keep (data y_hat_lo)) = n)
    by (apply select_length_eq; assumption).
  assert (Sh : length (select keep (data y_hat_hi)) = n)
    by (apply select_length_eq; assumption).
  repeat split.
  - rewrite coverage_same_shape by assumption. unfold fmean.
    rewrite fsum_indicator, length_map, interval_indicator_length by assumption.
    rewrite Ln. reflexivity.
  - rewrite coverage_same_shape; try apply wf_vector;
      try (unfold vector; simpl; f_equal; assumption).
    unfold fmean. simpl data.
    rewrite fsum_indicator, length_map, interval_indicator_length by assumption.
    unfold keep, observed. rewrite interval_indicator_observed. reflexivity.
  - rewrite calibration_same_shape by assumption. unfold fmean.
    rewrite fsum_indicator, length_map, bound_indicator_length by assumption.
    rewrite Ln. reflexivity.
  - rewrite calibration_same_shape; try apply wf_vector;
      try (unfold vector; simpl; f_equal; assumption).
    unfold fmean. simpl data.
    rewrite fsum_indicator, length_map, bound_indicator_length by assumption.
    unfold keep, observed. rewrite bound_indicator_observed. reflexivity.
Qed.

Lemma nan_observations_count_as_misses_witness :
  coverage (vector [1; nan; 5; nan]) (vector [0; 0; 0; 0]) (vector [2; 2; 2; 2])
  = Ok (scalar 25)
  /\ coverage (vector [1; 5]) (vector [0; 0]) (vector [2; 2]) = Ok (scalar 50)
  /\ calibration (vector [1; nan; 5; nan]) (vector [2; 2; 2; 2]) = Ok (scalar 0.25)
  /\ calibration (vector [1; 5]) (vector [2; 2]) = Ok (scalar 0.5).
Proof.
  apply (nan_observations_count_as_misses (vector [1; nan; 5; nan]) (vector [0; 0; 0; 0])
           (vector [2; 2; 2; 2])); reflexivity.
Defined.
(** ** Symmetric mean absolute percentage error *)

Lemma div_nonneg_unsigned (x y : float) :
  nonneg_or_nan x = true -> unsigned y = true -> nonneg_or_nan (x / y) = true.
Proof.
  unfold nonneg_or_nan, unsigned. rewrite div_spec.
  destruct (Prim2SF x) as [[]|[]| |[] mx ex]; simpl; try discriminate;
    destruct (Prim2SF y) as [[]|[]| |[] my ey]; simpl; try discriminate; auto.
  intros _ _. unfold SF64div, SFdiv.
  destruct (SFdiv_core_binary prec emax (Z.pos mx) ex (Z.pos my) ey) as [[mz ez] lz].
  apply sf_signed_nonneg, binary_round_aux_signed.
Qed.

Lemma div_nonneg_nonzero (x y : float) :
  nonneg_or_nan x = true -> nonneg_or_nan y = true -> (y =? 0) = false ->
  nonneg_or_nan (x / y) = true.
Proof.
  unfold nonneg_or_nan. rewrite div_spec, FloatAxioms.eqb_spec.
  change (Prim2SF 0) with (S754_zero false).
  destruct (Prim2SF x) as [[]|[]| |[] mx ex]; simpl; try discriminate;
    destruct (Prim2SF y) as [[]|[]| |[] my ey]; simpl; try discriminate; auto.
  intros _ _ _. unfold SF64div, SFdiv.
  destruct (SFdiv_core_binary prec emax (Z.pos mx) ex (Z.pos my) ey) as [[mz ez] lz].
  apply sf_signed_nonneg, binary_round_aux_signed.
Qed.

Lemma fold_add_nonneg (l : list float) (acc : float) :
  nonneg_or_nan acc = true -> Forall (fun x => nonneg_or_nan x = true) l ->
  nonneg_or_nan (fold_left PrimFloat.add l acc) = true.
Proof.
  revert acc. induction l as [|x l IH]; intros acc Ha H; simpl; auto.
  inversion H; subst. apply IH; auto. now apply add_nonneg.
Qed.

Lemma fsum_nonneg (l : list float) :
  Forall (fun x => nonneg_or_nan x = true) l -> nonneg_or_nan (fsum l) = true.
Proof. apply fold_add_nonneg. reflexivity. Qed.

Lemma fmean_nonneg (l : list float) :
  Forall (fun x => nonneg_or_nan x = true) l -> nonneg_or_nan (fmean l) = true.
Proof.
  intros H. unfold fmean. apply div_nonneg_unsigned.
  - now apply fsum_nonneg.
  - apply float_of_Z_unsigned. lia.
Qed.

(** What safe division leaves when both operands are absolute values. *)
Lemma safe_quotient_nonneg (x y : float) :
  unsigned x = true -> unsigned y = true -> nonneg_or_nan (safe_quotient x y) = true.
Proof.
  intros Hx Hy. unfold safe_quotient. cbv zeta.
  destruct (np_isnan (x / y)); [reflexivity|].
  destruct (x / y =? infinity); [reflexivity|].
  apply unsigned_nonneg. now apply div_unsigned.
Qed.

Lemma leb_nonneg (x : float) : (0 <=? x) = true -> nonneg_or_nan x = true.
Proof. intros H. now apply nonneg_leb in H. Qed.

(** The average of values that are not negative, under weights that are not
    negative, is not negative. *)
Lemma np_average_nonneg (a : ndarray float) (weights : option (ndarray float))
  (axis : option Z) (r : ndarray float) :
  wf a ->
  match weights with
  | None => True
  | Some w => wf w /\ shape w = shape a /\ Forall (fun x => (0 <=? x) = true) (data w)
  end ->
  Forall (fun x => nonneg_or_nan x = true) (data a) ->
  np_average a weights axis = Ok r ->
  Forall (fun x => nonneg_or_nan x = true) (data r).
Proof.
  intros Wa Hw Ha Avg. apply np_average_inv in Avg as [Ec Avg]. revert Avg.
  unfold np_average. rewrite Ec. cbn [bind]. destruct weights as [wgt|].
  - destruct Hw as (Ww & Sw & Pw). rewrite <- Sw, shape_eqb_refl.
    destruct (np_sum wgt axis) as [scl|e] eqn:Escl; cbn [bind]; [|discriminate].
    destruct (existsb (fun x => x =? 0) (data scl)) eqn:Ez; [discriminate|].
    unfold np_multiply. rewrite (elementwise_same_shape _ _ _ Wa Ww (eq_sym Sw)).
    cbn [bind].
    destruct (np_sum (mk_ndarray (shape a) (zip_with mul (data a) (data wgt))) axis)
      as [tot|e] eqn:Etot; cbn [bind]; [|discriminate].
    intros D.
    pose proof (reduce_wf _ _ _ _ Etot) as Wt. pose proof (reduce_wf _ _ _ _ Escl) as Ws.
    assert (St : shape tot = shape scl).
    { eapply reduce_shape; [|exact Etot|exact Escl]. simpl. congruence. }
    unfold np_divide in D. rewrite (elementwise_same_shape _ _ _ Wt Ws St) in D.
    injection D as <-. simpl.
    apply Forall_zip_with with (P := fun x => nonneg_or_nan x = true)
                               (Q := fun y => nonneg_or_nan y = true /\ (y =? 0) = false).
    + intros x y Hx [Hy Hz]. now apply div_nonneg_nonzero.
    + eapply reduce_Forall; [| |exact Etot].
      * intros lane Hl. apply fsum_nonneg. exact Hl.
      * simpl. apply Forall_zip_with with (P := fun x => nonneg_or_nan x = true)
                                         (Q := fun x => (0 <=? x) = true); auto.
        intros x y Hx Hy. apply mul_nonneg; auto using leb_nonneg.
    + apply Forall_forall. intros s Hs. split.
      * assert (F : Forall (fun x => nonneg_or_nan x = true) (data scl)).
        { eapply reduce_Forall with (P := fun x => (0 <=? x) = true); [|exact Pw|exact Escl].
          intros lane Hl. apply fsum_nonneg.
          eapply Forall_impl; [|exact Hl]. intros x. apply leb_nonneg. }
        rewrite Forall_forall in F. now apply F.
      * destruct (s =? 0) eqn:E; auto.
        assert (existsb (fun x => x =? 0) (data scl) = true)
          by (apply existsb_exists; eauto).
        congruence.
  - intros [R _]. eapply reduce_Forall; [|exact Ha|exact R].
    intros lane. apply fmean_nonneg.
Qed.

(** The builtin [all] returns true only on an array of trues. *)
Lemma py_all_items_true (items : list (list bool)) :
  py_all_items items = Ok true -> Forall (fun it => it = [true]) items.
Proof.
  induction items as [|it items IH]; simpl; [constructor|].
  destruct it as [|b [|b' it]]; try discriminate.
  destruct b; [|discriminate]. intros H. constructor; auto.
Qed.

Lemma concat_singletons (items : list (list bool)) :
  Forall (fun it => it = [true]) items -> Forall (fun b => b = true) (concat items).
Proof.
  induction 1 as [|it items E _ IH]; simpl; [constructor|].
  subst it. simpl. constructor; auto.
Qed.

Lemma py_all_true (a : ndarray bool) :
  wf a -> py_all a = Ok true -> Forall (fun b => b = true) (data a).
Proof.
  unfold wf, py_all. destruct (shape a) as [|n rest]; [discriminate|].
  simpl. intros W H. apply py_all_items_true in H.
  apply concat_singletons in H. rewrite chunks_concat in H; auto.
Qed.

Lemma smape_values_wf (y y_hat : ndarray float) (weights : option (ndarray float))
  (axis : option Z) (v : ndarray float) :
  smape_values y y_hat weights axis = Ok v -> wf v.
Proof.
  unfold smape_values.
  destruct (_metric_protections y y_hat weights) as [[]|e]; cbn [bind]; [|discriminate].
  destruct (np_subtract y y_hat) as [diff|e]; cbn [bind]; [|discriminate].
  destruct (np_add (np_abs y) (np_abs y_hat)) as [scale|e]; cbn [bind]; [|discriminate].
  destruct (_divide_no_nan (np_abs diff) scale) as [quot|e]; cbn [bind]; [|discriminate].
  destruct (np_average quot weights axis) as [avg|e] eqn:Ea; cbn [bind]; [|discriminate].
  intros E. injection E as <-. apply np_average_wf in Ea.
  unfold wf in *. simpl. now rewrite length_map.
Qed.

(** [smape] is its computation followed by its assertion. *)
Lemma smape_assertion (y y_hat : ndarray float) (weights : option (ndarray float))
  (axis : option Z) :
  smape y y_hat weights axis =
  (v <- smape_values y y_hat weights axis ;;
   ok <- match shape v, data v with
         | [], [x] => Ok (x <=? 200)
         | _, _ => py_all (nd_map (fun x => x <=? 200) v)
         end ;;
   _ <- py_assert ok "SMAPE should be lower than 200" ;;
   Ok v).
Proof.
  unfold smape, smape_values.
  destruct (_metric_protections y y_hat weights) as [[]|e]; cbn [bind]; [|reflexivity].
  destruct (np_subtract y y_hat) as [diff|e]; cbn [bind]; [|reflexivity].
  destruct (np_add (np_abs y) (np_abs y_hat)) as [scale|e]; cbn [bind]; [|reflexivity].
  destruct (_divide_no_nan (np_abs diff) scale) as [quot|e]; cbn [bind]; [|reflexivity].
  destruct (np_average quot weights axis) as [avg|e]; cbn [bind]; reflexivity.
Qed.

Lemma chunks_singletons {A} (d : list A) :
  chunks 1 (length d) d = map (fun x => [x]) d.
Proof. induction d as [|x d IH]; simpl; [reflexivity|]. now rewrite IH. Qed.

Lemma py_all_items_singletons {A} (p : A -> bool) (l : list A) :
  py_all_items (map (fun b => [b]) (map p l)) = Ok (forallb p l).
Proof.
  induction l as [|x l IH]; simpl; [reflexivity|]. destruct (p x); simpl; auto.
Qed.

(** The truth value the assertion of [smape] tests, for a number or a
    one-dimensional array. *)
Lemma smape_test (v : ndarray float) :
  wf v -> (ndim v <= 1)%nat ->
  match shape v, data v with
  | [], [x] => Ok (x <=? 200)
  | _, _ => py_all (nd_map (fun x => x <=? 200) v)
  end = Ok (forallb (fun x => x <=? 200) (data v)).
Proof.
  unfold wf, ndim, py_all. destruct v as [s d]. simpl.
  destruct s as [|n [|m s]]; simpl; intros W N; try lia.
  - destruct d as [|x [|x' d]]; try discriminate W. simpl. now rewrite andb_true_r.
  - assert (E : n = length d) by lia. subst n.
    assert (M : chunks 1 (length (map (fun x => x <=? 200) d)) (map (fun x => x <=? 200) d)
                = map (fun b => [b]) (map (fun x => x <=? 200) d))
      by apply chunks_singletons.
    rewrite length_map in M.
    assert (T : py_all_items (chunks 1 (length d) (map (fun x => x <=? 200) d))
                = Ok (forallb (fun x => x <=? 200) d))
      by (rewrite M; apply py_all_items_singletons).
    destruct d; exact T.
Qed.

Lemma smape_passed (v : ndarray float) :
  wf v ->
  match shape v, data v with
  | [], [x] => Ok (x <=? 200)
  | _, _ => py_all (nd_map (fun x => x <=? 200) v)
  end = Ok true ->
  Forall (fun x => (x <=? 200) = true) (data v).
Proof.
  intros W Eok. destruct (shape v) as [|n rest] eqn:Sr.
  - unfold wf in W. rewrite Sr in W. change (length (data v) = 1%nat) in W.
    destruct (data v) as [|x [|x' l]]; try discriminate W.
    injection Eok as E. constructor; auto.
  - assert (Eall : py_all (nd_map (fun x => x <=? 200) v) = Ok true).
    { destruct (data v) as [|x l]; exact Eok. }
    apply py_all_true in Eall.
    + simpl in Eall. now apply Forall_map in Eall.
    + unfold wf in *. simpl. now rewrite length_map.
Qed.

Lemma smape_values_nonneg (y y_hat : ndarray float) (weights : option (ndarray float))
  (axis : option Z) (v : ndarray float) :
  wf y -> wf y_hat -> shape y_hat = shape y -> nonneg_weights weights ->
  smape_values y y_hat weights axis = Ok v ->
  Forall (fun x => nonneg_or_nan x = true) (data v).
Proof.
  intros Wy Wh Sh Nw. unfold smape_values.
  destruct (_metric_protections y y_hat weights) as [[]|e] eqn:Ev; cbn [bind];
    [|discriminate].
  assert (Lh : length (data y_hat) = length (data y)) by (unfold wf in *; congruence).
  unfold np_subtract. rewrite (elementwise_same_shape _ _ _ Wy Wh (eq_sym Sh)).
  cbn [bind]. unfold np_add. rewrite elementwise_same_shape;
    [| unfold wf, np_abs in *; simpl; now rewrite length_map
     | unfold wf, np_abs in *; simpl; now rewrite length_map
     | simpl; congruence ].
  cbn [bind].
  destruct (list_eq_dec Nat.eq_dec (shape y) []) as [E0|N0];
    [rewrite divide_no_nan_scalars; [discriminate|exact E0|exact E0]|].
  rewrite divide_no_nan_same_shape;
    [| unfold wf, np_abs in *; simpl; rewrite length_map, zip_with_length; lia
     | unfold wf, np_abs in *; simpl; rewrite zip_with_length, !length_map; lia
     | reflexivity
     | exact N0 ].
  cbn [bind].
  match goal with |- context [np_average ?q weights axis] =>
    destruct (np_average q weights axis) as [avg|e] eqn:Ea end; cbn [bind];
    [|discriminate].
  intros E. injection E as <-. simpl. apply Forall_map.
  eapply Forall_impl; [intros x Hx; apply mul_nonneg; [reflexivity|exact Hx]|].
  eapply np_average_nonneg; [| |  |exact Ea].
  - unfold wf in *. simpl. rewrite !zip_with_length, !length_map, zip_with_length. lia.
  - destruct weights as [w|]; [|exact I].
    destruct Nw as [Ww Pw]. apply metric_protections_ok in Ev. simpl. tauto.
  - simpl. apply Forall_zip_with with (P := fun x => unsigned x = true)
                                     (Q := fun x => unsigned x = true).
    + intros x s Hx Hs. now apply safe_quotient_nonneg.
    + apply Forall_map, Forall_forall. intros x _. apply abs_unsigned.
    + rewrite !zip_with_map_l, zip_with_map_r.
      apply Forall_zip_with with (P := fun _ => True) (Q := fun _ => True);
        try (apply Forall_forall; auto).
      intros a b _ _. apply add_unsigned; apply abs_unsigned.
Qed.

(** C6: every value [smape] returns is at most 200, and at least 0 when the
    weights are absent or none of them is negative; a number or
    one-dimensional result with a value that is not at most 200 is not
    returned, the assertion fails. *)
Theorem smape_bounds (y y_hat : ndarray float) (weights : option (ndarray float))
  (axis : option Z) :
  (forall r, smape y y_hat weights axis = Ok r ->
     Forall (fun x => (x <=? 200) = true) (data r)
     /\ (wf y -> wf y_hat -> shape y_hat = shape y -> nonneg_weights weights ->
         Forall (fun x => (0 <=? x) = true) (data r)))
  /\ (forall v, smape_values y y_hat weights axis = Ok v -> (ndim v <= 1)%nat ->
        forallb (fun x => x <=? 200) (data v) = false ->
        smape y y_hat weights axis
        = Raise (AssertionError "SMAPE should be lower than 200")).
Proof.
  rewrite smape_assertion. split.
  - intros r H.
    destruct (smape_values y y_hat weights axis) as [v|e] eqn:Ev; cbn [bind] in H;
      [|discriminate].
    pose proof (smape_values_wf _ _ _ _ _ Ev) as Wv.
    destruct (match shape v, data v with
              | [], [x] => Ok (x <=? 200)
              | _, _ => py_all (nd_map (fun x => x <=? 200) v)
              end) as [ok|e] eqn:Eok; cbn [bind] in H; [|discriminate].
    destruct ok; cbn [py_assert bind] in H; [|discriminate].
    injection H as <-.
    pose proof (smape_passed _ Wv Eok) as Up.
    split; [exact Up|]. intros Wy Wh Sh Nw.
    pose proof (smape_values_nonneg _ _ _ _ _ Wy Wh Sh Nw Ev) as Nn.
    rewrite Forall_forall in *. intros x Hx. apply nonneg_leb. split; [auto|].
    specialize (Up x Hx). now apply leb_true_not_nan in Up.
  - intros v Ev N F. rewrite Ev. cbn [bind].
    rewrite (smape_test _ (smape_values_wf _ _ _ _ _ Ev) N), F. reflexivity.
Qed.

Lemma smape_bounds_witness :
  (Forall (fun x => (x <=? 200) = true) [50]
   /\ Forall (fun x => (0 <=? x) = true) [50])
  /\ smape (vector [1; 1]) (vector [1; -1]) (Some (vector [-1; 2])) None
     = Raise (AssertionError "SMAPE should be lower than 200").
Proof.
  split.
  - destruct (smape_bounds (vector [1; 3]) (vector [1; 1]) None None) as [B _].
    destruct (B (scalar 50)) as [U L]; [vm_compute; reflexivity|].
    split; [exact U|]. apply L; [reflexivity|reflexivity|reflexivity|exact I].
  - destruct (smape_bounds (vector [1; 1]) (vector [1; -1]) (Some (vector [-1; 2])) None)
      as [_ R].
    apply (R (scalar 400)); [vm_compute; reflexivity|unfold ndim; simpl; lia|vm_compute; reflexivity].
Defined.

(** A negative weight that leaves the sum of the weights positive passes the
    validation and gives a negative value. *)
Lemma smape_negative_under_negative_weight :
  _metric_protections (vector [1; 1]) (vector [1; -1]) (Some (vector [2; -1])) = Ok tt
  /\ smape (vector [1; 1]) (vector [1; -1]) (Some (vector [2; -1])) None
     = Ok (scalar (-200))
  /\ (-200 <? 0) = true.
Proof. vm_compute. repeat split. Qed.

(** ** Broadcasting along the last axis *)

Lemma flat_map_chunks {A B} (h : A -> list B) (n k : nat) (d : list A) :
  length d = (k * n)%nat -> flat_map (flat_map h) (chunks n k d) = flat_map h d.
Proof.
  intros H. rewrite <- (chunks_concat n k d H) at 2.
  generalize (chunks n k d). intros cs.
  induction cs as [|c cs IH]; simpl; [reflexivity|].
  now rewrite flat_map_app, IH.
Qed.

Lemma flat_map_ext_on {A B} (P : A -> Prop) (f g : A -> list B) (l : list A) :
  (forall x, P x -> f x = g x) -> Forall P l -> flat_map f l = flat_map g l.
Proof.
  intros H. induction 1 as [|x l Px _ IH]; simpl; [reflexivity|].
  now rewrite H, IH.
Qed.

Lemma concat_repeat_singleton {A} (x : A) (n : nat) : concat (repeat [x] n) = repeat x n.
Proof. induction n as [|n IH]; simpl; congruence. Qed.

Lemma concat_repeat_mul {A} (q : list A) (a b : nat) :
  concat (repeat (concat (repeat q b)) a) = concat (repeat q (a * b)).
Proof.
  induction a as [|a IH]; simpl; [reflexivity|].
  rewrite IH, repeat_app, concat_app. reflexivity.
Qed.

Lemma size_of_ones (k n : nat) : size_of (repeat 1%nat k ++ [n]) = n.
Proof. induction k as [|k IH]; simpl in *; lia. Qed.

(** An array whose last axis has one element, repeated along that axis. *)
Lemma tile_last {A} (s : list nat) (n : nat) (d : list A) :
  length d = size_of s ->
  tile (s ++ [1%nat]) (s ++ [n]) d = flat_map (fun x => repeat x n) d.
Proof.
  revert d. induction s as [|a s IH]; intros d H.
  - destruct d as [|x [|x' d]]; try discriminate H. simpl.
    destruct n as [|[|n]]; simpl; try reflexivity.
    rewrite app_nil_r. f_equal. f_equal. apply concat_repeat_singleton.
  - simpl app. cbn [tile]. rewrite Nat.eqb_refl.
    assert (L : length d = (a * size_of (s ++ [1%nat]))%nat).
    { rewrite size_of_app. simpl in *. lia. }
    rewrite (flat_map_ext_on (fun c => length c = size_of s) _
               (flat_map (fun x => repeat x n))).
    + now apply flat_map_chunks.
    + intros c Hc. now apply IH.
    + eapply Forall_impl; [|apply chunks_block_length; exact L].
      intros c Hc. rewrite size_of_app in Hc. simpl in Hc. lia.
Qed.

(** A one-dimensional array laid along the last axis of a larger shape. *)
Lemma tile_row {A} (s : list nat) (q : list A) :
  tile (repeat 1%nat (length s) ++ [length q]) (s ++ [length q]) q
  = concat (repeat q (size_of s)).
Proof.
  induction s as [|a s IH].
  - simpl app. rewrite tile_same by (simpl; lia). simpl. now rewrite app_nil_r.
  - simpl length. simpl repeat. simpl app. cbn [tile].
    destruct (1 =? a)%nat eqn:E.
    + apply Nat.eqb_eq in E. subst a. rewrite size_of_ones. simpl chunks.
      rewrite firstn_all. simpl flat_map. rewrite app_nil_r, IH.
      simpl. now rewrite Nat.add_0_r.
    + rewrite IH. apply concat_repeat_mul.
Qed.

Lemma broadcast_shapes_last (s : list nat) (n : nat) :
  broadcast_shapes (s ++ [1%nat]) (s ++ [n]) = Some (s ++ [n]).
Proof.
  unfold broadcast_shapes. rewrite !rev_app_distr. simpl.
  rewrite broadcast_rev_same.
  destruct (1 =? n)%nat eqn:E.
  - apply Nat.eqb_eq in E. subst n. simpl. now rewrite rev_involutive.
  - destruct n as [|[|n]]; try discriminate E; simpl; now rewrite rev_involutive.
Qed.

Lemma broadcast_rev_nil_l (t : list nat) : broadcast_rev [] t = Some t.
Proof. reflexivity. Qed.

Lemma broadcast_shapes_row (s : list nat) (n : nat) :
  broadcast_shapes [n] (s ++ [n]) = Some (s ++ [n]).
Proof.
  unfold broadcast_shapes. rewrite rev_app_distr. simpl.
  rewrite Nat.eqb_refl. simpl. now rewrite rev_involutive.
Qed.

(** [np.expand_dims(a, -1)] against an array with one more axis. *)
Lemma elementwise_expand {A B C} (f : A -> B -> C) (a : ndarray A) (b : ndarray B)
  (n : nat) :
  wf a -> wf b -> shape b = shape a ++ [n] ->
  elementwise f (expand_last a) b
  = Ok (mk_ndarray (shape a ++ [n])
          (zip_with f (flat_map (fun x => repeat x n) (data a)) (data b))).
Proof.
  intros Wa Wb Sb. unfold elementwise, expand_last. simpl shape.
  rewrite Sb, broadcast_shapes_last. f_equal. f_equal. f_equal.
  - unfold broadcast_to, ndim. simpl shape. simpl data.
    rewrite !length_app. simpl length. rewrite Nat.sub_diag. simpl app.
    now apply tile_last.
  - rewrite <- Sb. now apply broadcast_to_same.
Qed.

(** A one-dimensional array against an array whose last axis has its length. *)
Lemma elementwise_row {A B C} (f : A -> B -> C) (q : ndarray A) (b : ndarray B)
  (s : list nat) :
  shape q = [length (data q)] -> wf b -> shape b = s ++ [length (data q)] ->
  elementwise f q b
  = Ok (mk_ndarray (s ++ [length (data q)])
          (zip_with f (concat (repeat (data q) (size_of s))) (data b))).
Proof.
  intros Sq Wb Sb. unfold elementwise.
  rewrite Sq, Sb, broadcast_shapes_row. f_equal. f_equal. f_equal.
  - unfold broadcast_to, ndim. rewrite Sq. rewrite length_app. simpl length.
    replace (length s + 1 - 1)%nat with (length s) by lia.
    apply tile_row.
  - rewrite <- Sb. now apply broadcast_to_same.
Qed.

(** ** Binary64 arithmetic: sums of values that are not negative *)

Lemma binary_round_above_zero (m : positive) (e : Z) :
  (-1074 <= e)%Z ->
  SFltb (S754_zero false) (binary_round prec emax false m e) = true.
Proof.
  intros He.
  assert (G : SFleb (S754_finite false 1 (-1074)) (binary_round prec emax false m e) = true).
  { apply binary_round_ge; [lia|reflexivity|].
    unfold V. rewrite Z.mul_1_l.
    assert (2 ^ (-1074 + 2200) <= 2 ^ (e + 2200))%Z by (apply Z.pow_le_mono_r; lia).
    nia. }
  destruct (binary_round prec emax false m e) as [s|s| |s mr er]; try discriminate.
  - destruct s; [discriminate|reflexivity].
  - destruct s; [discriminate|reflexivity].
Qed.

Lemma SFadd_above_zero (mx my : positive) (ex ey : Z) :
  bounded prec emax mx ex = true -> bounded prec emax my ey = true ->
  SFltb (S754_zero false)
        (SFadd prec emax (S754_finite false mx ex) (S754_finite false my ey)) = true.
Proof.
  intros Bx By. apply bounded_facts in Bx, By.
  destruct (SFadd_finite mx my ex ey) as (m & e & -> & He & _); try lia.
  now apply binary_round_above_zero.
Qed.

(** Adding a positive value to one that is not negative gives a positive
    value: no cancellation, no NaN. *)
Lemma add_positive (x y : float) :
  (0 <=? x) = true -> (0 <? y) = true -> (0 <? x + y) = true.
Proof.
  pose proof (Prim2SF_valid x) as Vx. pose proof (Prim2SF_valid y) as Vy.
  to_spec. change (Prim2SF 0) with (S754_zero false).
  destruct (Prim2SF x) as [sx|[]| |[] mx ex]; try discriminate;
    destruct (Prim2SF y) as [sy|[]| |[] my ey]; try discriminate; intros _ _;
    try reflexivity; try (destruct sx; reflexivity).
  now apply SFadd_above_zero.
Qed.

Lemma add_not_negative (x y : float) :
  (0 <=? x) = true -> (0 <=? y) = true -> (0 <=? x + y) = true.
Proof.
  pose proof (Prim2SF_valid x) as Vx. pose proof (Prim2SF_valid y) as Vy.
  to_spec. change (Prim2SF 0) with (S754_zero false).
  destruct (Prim2SF x) as [sx|[]| |[] mx ex]; try discriminate;
    destruct (Prim2SF y) as [sy|[]| |[] my ey]; try discriminate; intros _ _;
    try reflexivity; try (destruct sx; reflexivity); try (destruct sy; reflexivity);
    try (destruct sx, sy; reflexivity).
  pose proof (SFadd_above_zero mx my ex ey Vx Vy) as P.
  unfold SF64add. unfold SFltb, SFleb in *.
  destruct (SFcompare _ _) as [[]|]; try discriminate; reflexivity.
Qed.

Lemma fold_add_not_negative (l : list float) (acc : float) :
  (0 <=? acc) = true -> Forall (fun x => (0 <=? x) = true) l ->
  (0 <=? fold_left PrimFloat.add l acc) = true.
Proof.
  revert acc. induction l as [|x l IH]; intros acc Ha H; simpl; auto.
  inversion H; subst. apply IH; auto. now apply add_not_negative.
Qed.

Lemma fsum_not_negative (l : list float) :
  Forall (fun x => (0 <=? x) = true) l -> (0 <=? fsum l) = true.
Proof. apply fold_add_not_negative. reflexivity. Qed.

Lemma abs_not_negative (x : float) : np_isnan x = false -> (0 <=? abs x) = true.
Proof.
  rewrite np_isnan_false. to_spec. change (Prim2SF 0) with (S754_zero false).
  destruct (Prim2SF x) as [s|s| |s m e]; try congruence; reflexivity.
Qed.

Lemma positive_not_zero (d : float) :
  (0 <? d) = true -> PrimFloat.is_zero d = false /\ np_isnan d = false.
Proof.
  intros H. split; [|now apply ltb_true_not_nan in H].
  apply not_true_is_false. rewrite is_zero_spec. intros [s E].
  to_spec. rewrite E in H. destruct s; discriminate.
Qed.


Lemma fin_nonneg_is_finite (x : float) : fin_nonneg x = true -> is_finite x = true.
Proof.
  unfold fin_nonneg. rewrite is_finite_spec.
  destruct (Prim2SF x) as [s|s| |[] m e]; try discriminate; auto.
Qed.

(** *** Sums of ones *)

Lemma repeat_ones (n : nat) : repeat 1 n = map float_of_bool (repeat true n).
Proof. induction n as [|n IH]; simpl; congruence. Qed.

Lemma count_true_repeat (n : nat) : count_true (repeat true n) = Z.of_nat n.
Proof.
  unfold count_true. f_equal. induction n as [|n IH]; simpl; congruence.
Qed.

Lemma fsum_ones (n : nat) : fsum (repeat 1 n) = float_of_Z (Z.min (Z.of_nat n) (2 ^ 53)).
Proof. now rewrite repeat_ones, fsum_indicator, count_true_repeat. Qed.

Lemma float_of_Z_positive (k : Z) :
  (1 <= k <= 2 ^ 53)%Z -> (0 <? float_of_Z k) = true /\ is_finite (float_of_Z k) = true.
Proof.
  intros H. destruct (float_of_Z_exact k ltac:(lia)) as [F Vk]. split.
  - apply fin_positive_ltb. right. split; [exact F|]. rewrite Vk.
    assert (0 < 2 ^ 2200)%Z by (apply Z.pow_pos_nonneg; lia). nia.
  - now apply fin_nonneg_is_finite.
Qed.

Lemma fsum_ones_positive (n : nat) :
  (0 < n)%nat -> (0 <? fsum (repeat 1 n)) = true /\ is_finite (fsum (repeat 1 n)) = true.
Proof. intros H. rewrite fsum_ones. apply float_of_Z_positive. lia. Qed.


Lemma fsum_ones_count (n : nat) :
  (Z.of_nat n <= 2 ^ 53)%Z -> fsum (repeat 1 n) = float_of_nat n.
Proof. intros H. rewrite fsum_ones. unfold float_of_nat. f_equal. lia. Qed.

(** ** Multi-quantile loss *)

Lemma length_repeat_each {A} (n : nat) (d : list A) :
  length (flat_map (fun x => repeat x n) d) = (length d * n)%nat.
Proof. apply flat_map_length_const. intros x. apply repeat_length. Qed.

Lemma length_concat_repeat {A} (q : list A) (n : nat) :
  length (concat (repeat q n)) = (n * length q)%nat.
Proof. induction n as [|n IH]; simpl; [reflexivity|]. rewrite length_app, IH. lia. Qed.

Lemma pinball_terms_length (y y_hat quantiles : ndarray float) :
  wf y -> wf y_hat -> shape y_hat = shape y ++ [length (data quantiles)] ->
  length (pinball_terms y y_hat quantiles)
  = size_of (shape y ++ [length (data quantiles)]).
Proof.
  unfold wf, pinball_terms. intros Wy Wh Sh. cbv zeta.
  rewrite Sh in Wh. rewrite size_of_app in *. simpl in *.
  rewrite !zip_with_length, !length_concat_repeat, length_map, length_repeat_each.
  lia.
Qed.

(** [mqloss] on a forecast with one slice per quantile along a last axis: the
    weighted average of the quantile losses, each weight repeated for every
    quantile. *)
Lemma mqloss_quantile_axis (y y_hat quantiles : ndarray float)
  (weights : option (ndarray float)) (axis : option Z) :
  wf y -> wf y_hat -> shape quantiles = [length (data quantiles)] ->
  shape y_hat = shape y ++ [length (data quantiles)] ->
  mqloss y y_hat quantiles weights axis
  = (_ <- _metric_protections y y_hat (Some (default_weights y weights)) ;;
     np_average
       (mk_ndarray (shape y ++ [length (data quantiles)]) (pinball_terms y y_hat quantiles))
       (Some (mk_ndarray (shape (default_weights y weights) ++ [length (data quantiles)])
                (flat_map (fun x => repeat x (length (data quantiles)))
                          (data (default_weights y weights)))))
       axis).
Proof.
  intros Wy Wh Sq Sh. unfold mqloss. fold (default_weights y weights).
  destruct (_metric_protections y y_hat (Some (default_weights y weights))) as [[]|e];
    cbn [bind]; [|reflexivity].
  unfold py_len. rewrite Sq. cbn [bind].
  unfold np_subtract. rewrite (elementwise_expand _ _ _ _ Wy Wh Sh). cbn [bind].
  set (n_q := length (data quantiles)) in *.
  set (error := zip_with PrimFloat.sub (flat_map (fun x => repeat x n_q) (data y))
                         (data y_hat)).
  assert (We : wf (mk_ndarray (shape y ++ [n_q]) error)).
  { unfold wf, error in *. simpl. rewrite Sh in Wh.
    rewrite zip_with_length, length_repeat_each, Wh, size_of_app. simpl. lia. }
  unfold np_multiply.
  rewrite (elementwise_row _ quantiles _ (shape y) Sq We eq_refl). cbn [bind].
  assert (Sq1 : shape (nd_map (fun q => q - 1) quantiles)
                = [length (data (nd_map (fun q => q - 1) quantiles))])
    by (simpl; now rewrite length_map).
  assert (Sb : shape (mk_ndarray (shape y ++ [n_q]) error)
               = shape y ++ [length (data (nd_map (fun q => q - 1) quantiles))])
    by (simpl; now rewrite length_map).
  rewrite (elementwise_row _ (nd_map (fun q => q - 1) quantiles) _ (shape y) Sq1 We Sb).
  cbn [bind]. simpl data. rewrite length_map. fold n_q.
  rewrite elementwise_same_shape;
    [| unfold wf, error in *; simpl; rewrite Sh in Wh;
       rewrite zip_with_length, length_concat_repeat, zip_with_length, length_repeat_each,
         Wh, size_of_app; simpl; fold n_q; lia
     | unfold wf, error in *; simpl; rewrite Sh in Wh;
       rewrite zip_with_length, length_concat_repeat, length_map, zip_with_length,
         length_repeat_each, Wh, size_of_app; simpl; fold n_q; lia
     | reflexivity ].
  cbn [bind]. unfold repeat_last, expand_last. simpl shape. simpl data.
  rewrite removelast_last. reflexivity.
Qed.

(** *** Weighted averages over arrays of one shape *)

Lemma np_average_same_shape (a w : ndarray float) (axis : option Z) :
  wf a -> wf w -> shape a = shape w ->
  np_average a (Some w) axis
  = (_ <- check_axis (ndim a) axis ;;
     scl <- np_sum w axis ;;
     if existsb (fun x => x =? 0) (data scl) then Raise ZeroDivisionError
     else
       tot <- np_sum (mk_ndarray (shape a) (zip_with PrimFloat.mul (data a) (data w))) axis ;;
       np_divide tot scl).
Proof.
  intros Wa Ww E. unfold np_average.
  destruct (check_axis (ndim a) axis) as [[]|e]; cbn [bind]; [|reflexivity].
  rewrite E, shape_eqb_refl.
  destruct (np_sum w axis) as [scl|e]; cbn [bind]; [|reflexivity].
  destruct (existsb _ _); [reflexivity|].
  unfold np_multiply. rewrite (elementwise_same_shape _ _ _ Wa Ww E). cbn [bind].
  now rewrite E.
Qed.

Lemma wf_scalar {A} (x : A) : wf (scalar x).
Proof. reflexivity. Qed.

Lemma np_average_full (a w : ndarray float) :
  wf a -> wf w -> shape a = shape w -> (fsum (data w) =? 0) = false ->
  np_average a (Some w) None
  = Ok (scalar (fsum (zip_with PrimFloat.mul (data a) (data w)) / fsum (data w))).
Proof.
  intros Wa Ww E Z. rewrite np_average_same_shape by assumption.
  unfold np_sum, reduce. cbn [bind check_axis]. simpl existsb. rewrite Z. simpl.
  unfold np_divide. now rewrite elementwise_same_shape by (try apply wf_scalar; reflexivity).
Qed.


(** *** Quantile levels *)

Lemma shl_align_value (m : positive) (e e' : Z) :
  (-2200 <= Z.min e e')%Z ->
  exists a, shl_align m e (Z.min e e') = (a, Z.min e e')
            /\ V (Z.pos a) (Z.min e e') = V (Z.pos m) e.
Proof.
  intros H. pose proof (shl_align_spec m e (Z.min e e')) as S.
  destruct (shl_align m e (Z.min e e')) as [a ez]. destruct S as [Ez Ea].
  assert (Ez' : ez = Z.min e e') by lia. clear Ez. subst ez.
  exists a. split; [reflexivity|].
  rewrite Ea. rewrite <- V_shift by lia. f_equal. lia.
Qed.

(** A level between 0 and 1 stays finite when 1 is subtracted. *)
Lemma sub_one_finite (q : float) :
  (0 <=? q) = true -> (q <=? 1) = true -> is_finite (q - 1) = true.
Proof.
  intros H0 H1. pose proof (Prim2SF_valid q) as Vq.
  rewrite is_finite_spec. to_spec.
  change (Prim2SF 0) with (S754_zero false) in H0.
  change (Prim2SF 1) with (S754_finite false 4503599627370496 (-52)) in *.
  destruct (Prim2SF q) as [s|[]| |[] m e]; try discriminate.
  - destruct s; exact I.
  - change (bounded prec emax m e = true) in Vq.
    assert (L : (V (Z.pos m) e <= V 4503599627370496 (-52))%Z).
    { unfold SFleb in H1. rewrite V_compare in H1 by (auto; reflexivity).
      destruct (Z.compare_spec (V (Z.pos m) e) (V 4503599627370496 (-52)));
        try discriminate; lia. }
    apply bounded_facts in Vq.
    unfold SF64sub, SFsub. simpl cond_Zopp.
    destruct (shl_align_value m e (-52) ltac:(lia)) as (a & -> & Ea).
    pose proof (shl_align_value 4503599627370496 (-52) e ltac:(lia)) as (b & Sb & Eb).
    rewrite (Z.min_comm (-52) e) in Sb, Eb. rewrite Sb.
    simpl fst. set (ez := Z.min e (-52)) in *.
    assert (P2 : (0 < 2 ^ (ez + 2200))%Z) by (apply Z.pow_pos_nonneg; subst ez; lia).
    assert (Lab : (Z.pos a <= Z.pos b)%Z) by (unfold V in *; nia).
    destruct (Z.pos a - Z.pos b)%Z as [|p|p] eqn:Ek; try lia.
    + exact I.
    + unfold binary_normalize.
      assert (R : binary_round prec emax true p ez
                  = SFopp (binary_round prec emax false p ez)).
      { unfold binary_round. destruct (shl_align p ez _) as [mz ez'].
        apply binary_round_aux_opp. }
      rewrite R.
      assert (Le : SFleb (binary_round prec emax false p ez)
                         (S754_finite false 4503599627370496 (-52)) = true).
      { apply binary_round_le; [subst ez; lia|reflexivity|].
        unfold V in *. nia. }
      pose proof (binary_round_above_zero p ez ltac:(subst ez; lia)) as Gt.
      destruct (binary_round prec emax false p ez) as [s|s| |s mr er];
        try discriminate; try exact I.
      destruct s; discriminate.
Qed.

(** ** Scaled CRPS *)

Lemma Forall_repeat_each {A} (P : A -> Prop) (n : nat) (d : list A) :
  Forall P d -> Forall P (flat_map (fun x => repeat x n) d).
Proof.
  induction 1 as [|x d Px _ IH]; simpl; [constructor|].
  apply Forall_app. split; [|exact IH].
  apply Forall_forall. intros z Hz. apply repeat_spec in Hz. now subst.
Qed.

Lemma Forall_concat_repeat {A} (P : A -> Prop) (q : list A) (n : nat) :
  Forall P q -> Forall P (concat (repeat q n)).
Proof.
  intros H. induction n as [|n IH]; simpl; [constructor|].
  apply Forall_app. now split.
Qed.





Lemma wf_np_ones (s : list nat) : wf (np_ones s).
Proof. unfold wf, np_ones. simpl. apply repeat_length. Qed.







(** ** NaN entries *)

Lemma fnanmean_filter (l : list float) : fnanmean l = mean_of_numbers l.
Proof. unfold fnanmean, mean_of_numbers, fmean. now rewrite fsum_nan_as_zero. Qed.



Lemma nan_filtered_weighted (values w : ndarray float) (axis : option Z) :
  shape w = shape values ->
  nan_filtered_average values (Some w) axis
  = np_average (vector (select (kept values) (data values)))
               (Some (vector (select (kept values) (data w)))) axis.
Proof.
  intros E. unfold nan_filtered_average, mask_index. cbv zeta. simpl shape.
  rewrite shape_eqb_refl. cbn [bind]. rewrite E, shape_eqb_refl. reflexivity.
Qed.


Lemma mean_of_nothing (l : list float) :
  Forall (fun x => np_isnan x = true) l -> mean_of_numbers l = nan.
Proof.
  intros H. unfold mean_of_numbers.
  assert (E : filter (fun x => negb (np_isnan x)) l = []).
  { induction H as [|x l Hx _ IH]; simpl; [reflexivity|]. now rewrite Hx. }
  rewrite E. reflexivity.
Qed.

(** *** Safe division *)


Lemma safe_quotient_nan_l (d : float) : safe_quotient nan d = 0.
Proof. unfold safe_quotient. now rewrite div_nan_l. Qed.




(** *** Propagation through a plain weighted average *)









(** * Further properties of the metrics *)

(** ** Safe division, as the metrics call it *)





(** ** Weight validation, continued *)

Lemma add_positive_l (x y : float) :
  (0 <? x) = true -> (0 <=? y) = true -> (0 <? x + y) = true.
Proof.
  pose proof (Prim2SF_valid x) as Vx. pose proof (Prim2SF_valid y) as Vy.
  to_spec. change (Prim2SF 0) with (S754_zero false).
  destruct (Prim2SF x) as [sx|[]| |[] mx ex]; try discriminate;
    destruct (Prim2SF y) as [sy|[]| |[] my ey]; try discriminate; intros _ _;
    try reflexivity; try (destruct sx; discriminate); try (destruct sy; reflexivity).
  now apply SFadd_above_zero.
Qed.

Lemma ltb_leb (x : float) : (0 <? x) = true -> (0 <=? x) = true.
Proof.
  to_spec. unfold SFltb, SFleb. destruct (SFcompare _ _) as [[]|]; try discriminate; auto.
Qed.

Lemma fold_add_positive (l : list float) (acc : float) :
  (0 <? acc) = true -> Forall (fun x => (0 <=? x) = true) l ->
  (0 <? fold_left PrimFloat.add l acc) = true.
Proof.
  revert acc. induction l as [|x l IH]; intros acc Ha H; simpl; auto.
  inversion H; subst. apply IH; auto. now apply add_positive_l.
Qed.

Lemma fold_add_positive_entry (l : list float) (acc : float) :
  (0 <=? acc) = true -> Forall (fun x => (0 <=? x) = true) l ->
  Exists (fun x => (0 <? x) = true) l ->
  (0 <? fold_left PrimFloat.add l acc) = true.
Proof.
  intros Ha F Ex. revert acc Ha F.
  induction Ex as [x l Px|x l _ IH]; intros acc Ha F; inversion F; subst; simpl.
  - apply fold_add_positive; auto. now apply add_positive.
  - apply IH; auto. now apply add_not_negative.
Qed.

Lemma metric_protections_message (y y_hat w : ndarray float) :
  (0 <? fsum (data w)) = false \/ shape w <> shape y ->
  _metric_protections y y_hat (Some w) = Raise (AssertionError (validation_message y w)).
Proof.
  intros H. unfold validation_message. destruct (0 <? fsum (data w)) eqn:S.
  - destruct H as [H|H]; [discriminate|]. now apply metric_protections_shape.
  - now apply metric_protections_sum.
Qed.

(** X2: weights whose sum is not positive, or whose shape is not that of
    [y], make every metric that validates them fail with the validator's
    [AssertionError], the sum being tested first, whatever the forecast, the
    quantiles and the axis are. *)
Theorem validation_comes_first (y y_hat w : ndarray float) (axis : option Z) :
  (0 <? fsum (data w)) = false \/ shape w <> shape y ->
  let e := AssertionError (validation_message y w) in
  mae y y_hat (Some w) axis = Raise e
  /\ mse y y_hat (Some w) axis = Raise e
  /\ rmse y y_hat (Some w) axis = Raise e
  /\ mape y y_hat (Some w) axis = Raise e
  /\ smape y y_hat (Some w) axis = Raise e
  /\ (forall y_hat2, rmae y y_hat y_hat2 (Some w) axis = Raise e)
  /\ (forall q, quantile_loss y y_hat q (Some w) axis = Raise e)
  /\ (forall quantiles, mqloss y y_hat quantiles (Some w) axis = Raise e)
  /\ (forall quantiles, scaled_crps y y_hat quantiles (Some w) axis = Raise e).
Proof.
  intros H e. pose proof (metric_protections_message y y_hat w H) as P. fold e in P.
  destruct (validated_metrics_raise y y_hat (Some w) axis e P)
    as (H1 & H2 & H3 & H4 & H5 & H6 & H7).
  repeat (split; [assumption|]). split.
  - intros quantiles. now apply validated_quantile_metrics_raise.
  - intros quantiles. now apply validated_quantile_metrics_raise.
Qed.

Lemma validation_comes_first_witness :
  mape (vector [1; 2]) (vector [1; 2; 3]) (Some (matrix [[1; 1]])) (Some 7%Z)
  = Raise (AssertionError "Wrong weight dimension weights.shape (1, 2), y.shape (2,)")
  /\ smape (vector [1; 2]) (vector [1; 2]) (Some (vector [1; -1])) None
     = Raise (AssertionError "Sum of weights cannot be 0").
Proof.
  split.
  - apply (validation_comes_first (vector [1; 2]) (vector [1; 2; 3]) (matrix [[1; 1]])
             (Some 7%Z)).
    right. discriminate.
  - apply (validation_comes_first (vector [1; 2]) (vector [1; 2]) (vector [1; -1]) None).
    left. reflexivity.
Defined.

(** X3: the validator refuses weights with a NaN entry and weights that are
    all zero; it accepts weights of the shape of [y] none of which is
    negative or NaN and one of which is positive. *)
Theorem validator_on_weights (y y_hat w : ndarray float) :
  (In nan (data w) ->
   _metric_protections y y_hat (Some w)
   = Raise (AssertionError "Sum of weights cannot be 0"))
  /\ (Forall (fun x => PrimFloat.is_zero x = true) (data w) ->
      _metric_protections y y_hat (Some w)
      = Raise (AssertionError "Sum of weights cannot be 0"))
  /\ (shape w = shape y -> Forall (fun x => (0 <=? x) = true) (data w) ->
      Exists (fun x => (0 <? x) = true) (data w) ->
      _metric_protections y y_hat (Some w) = Ok tt).
Proof.
  split; [|split].
  - intros H. apply metric_protections_sum. now rewrite fsum_nan.
  - intros H. apply metric_protections_sum.
    apply fsum_zeros in H. apply is_zero_spec in H. destruct H as [s E].
    rewrite ltb_spec, E. destruct s; reflexivity.
  - intros S F Ex. apply metric_protections_ok. split; [|exact S].
    apply fold_add_positive_entry; auto.
Qed.

Lemma validator_on_weights_witness :
  _metric_protections (vector [1; 2]) (vector [0; 0]) (Some (vector [1; nan]))
  = Raise (AssertionError "Sum of weights cannot be 0")
  /\ _metric_protections (vector [1; 2]) (vector [0; 0]) (Some (vector [0; -0]))
     = Raise (AssertionError "Sum of weights cannot be 0")
  /\ _metric_protections (vector [1; 2]) (vector [0; 0]) (Some (vector [0; 3])) = Ok tt.
Proof.
  split; [|split].
  - destruct (validator_on_weights (vector [1; 2]) (vector [0; 0]) (vector [1; nan]))
      as (N & _ & _).
    apply N. simpl. right. left. reflexivity.
  - destruct (validator_on_weights (vector [1; 2]) (vector [0; 0]) (vector [0; -0]))
      as (_ & Z & _).
    apply Z. repeat constructor.
  - destruct (validator_on_weights (vector [1; 2]) (vector [0; 0]) (vector [0; 3]))
      as (_ & _ & A).
    apply A; [reflexivity|repeat constructor|].
    simpl. right. left. reflexivity.
Defined.

(** ** Errors are never negative *)

Lemma nonneg_not_below_zero (v : float) : nonneg_or_nan v = true -> (v <? 0) = false.
Proof.
  unfold nonneg_or_nan. rewrite ltb_spec. change (Prim2SF 0) with (S754_zero false).
  destruct (Prim2SF v) as [[]|[]| |[] m e]; try discriminate; reflexivity.
Qed.

Lemma mul_self_nonneg (x : float) : nonneg_or_nan (x * x) = true.
Proof.
  unfold nonneg_or_nan. rewrite mul_spec.
  destruct (Prim2SF x) as [[]|[]| |[] m e]; try reflexivity;
    apply sf_signed_nonneg, binary_round_aux_signed.
Qed.

Lemma sqrt_nonneg (x : float) : nonneg_or_nan x = true -> nonneg_or_nan (sqrt x) = true.
Proof.
  unfold nonneg_or_nan. rewrite sqrt_spec.
  destruct (Prim2SF x) as [[]|[]| |[] m e]; try discriminate; try reflexivity.
  intros _. unfold SF64sqrt, SFsqrt.
  destruct (SFsqrt_core_binary prec emax (Z.pos m) e) as [[mz ez] lz].
  apply sf_signed_nonneg, binary_round_aux_signed.
Qed.

Lemma fnanmean_nonneg (l : list float) :
  Forall (fun x => nonneg_or_nan x = true) l -> nonneg_or_nan (fnanmean l) = true.
Proof.
  intros H. unfold fnanmean. apply div_nonneg_unsigned.
  - apply fsum_nonneg. apply Forall_map. eapply Forall_impl; [|exact H].
    intros x Hx. destruct (np_isnan x); [reflexivity|exact Hx].
  - apply float_of_Z_unsigned. lia.
Qed.

Lemma Forall_select {A} (P : A -> Prop) (m : list bool) (d : list A) :
  Forall P d -> Forall P (select m d).
Proof.
  intros H. revert m. induction H as [|x d Px _ IH]; intros [|b m]; simpl; auto.
  destruct b; auto.
Qed.

(** The reduction shared by [mae], [mse] and [quantile_loss] keeps values
    that are not negative so, under weights that are not negative. *)
Lemma nan_filtered_average_nonneg (values : ndarray float)
  (weights : option (ndarray float)) (axis : option Z) (r : ndarray float) :
  Forall (fun x => nonneg_or_nan x = true) (data values) ->
  match weights with
  | None => True
  | Some w => wf values /\ wf w /\ shape w = shape values
              /\ Forall (fun x => (0 <=? x) = true) (data w)
  end ->
  nan_filtered_average values weights axis = Ok r ->
  Forall (fun x => nonneg_or_nan x = true) (data r).
Proof.
  intros Hv Hw. destruct weights as [w|].
  - destruct Hw as (Wv & Ww & Sw & Pw). rewrite nan_filtered_weighted by assumption.
    apply np_average_nonneg.
    + apply wf_vector.
    + split; [apply wf_vector|]. split.
      * unfold vector. simpl. f_equal. apply select_length_eq.
        unfold wf in *. congruence.
      * simpl. now apply Forall_select.
    + simpl. now apply Forall_select.
  - unfold nan_filtered_average, np_nanmean. intros R.
    eapply reduce_Forall; [|exact Hv|exact R]. exact fnanmean_nonneg.
Qed.

Lemma errors_nonneg (f : float -> float) (y y_hat : ndarray float)
  (weights : option (ndarray float)) (axis : option Z) (r : ndarray float) :
  (forall x, nonneg_or_nan (f x) = true) ->
  plain_or_nonneg y y_hat weights ->
  (_ <- _metric_protections y y_hat weights ;;
   d <- np_subtract y y_hat ;;
   nan_filtered_average (nd_map f d) weights axis) = Ok r ->
  Forall (fun x => nonneg_or_nan x = true) (data r).
Proof.
  intros Hf Hw.
  destruct (_metric_protections y y_hat weights) as [[]|e] eqn:Ev; cbn [bind];
    [|discriminate].
  destruct (np_subtract y y_hat) as [d|e] eqn:Ed; cbn [bind]; [|discriminate].
  apply nan_filtered_average_nonneg.
  - simpl. apply Forall_map. apply Forall_forall. intros x _. apply Hf.
  - destruct weights as [w|]; [|exact I].
    destruct Hw as (Wy & Wh & Sh & Ww & Pw).
    apply metric_protections_ok in Ev. destruct Ev as [_ Sw].
    unfold np_subtract in Ed.
    rewrite (elementwise_same_shape _ _ _ Wy Wh (eq_sym Sh)) in Ed. injection Ed as <-.
    simpl. repeat split; auto.
    unfold wf in *. simpl. rewrite length_map, zip_with_length, Wh, Sh, Wy. lia.
Qed.

(** X4: no value that [mae], [mse] or [rmse] returns is below zero, without
    weights whatever the shapes, and with weights none of which is negative
    on arrays of one shape. *)
Theorem errors_are_never_negative (y y_hat : ndarray float)
  (weights : option (ndarray float)) (axis : option Z) (r : ndarray float) :
  plain_or_nonneg y y_hat weights ->
  (mae y y_hat weights axis = Ok r -> Forall (fun v => (v <? 0) = false) (data r))
  /\ (mse y y_hat weights axis = Ok r -> Forall (fun v => (v <? 0) = false) (data r))
  /\ (rmse y y_hat weights axis = Ok r -> Forall (fun v => (v <? 0) = false) (data r)).
Proof.
  intros Hw.
  assert (A : forall r', mae y y_hat weights axis = Ok r' ->
                         Forall (fun x => nonneg_or_nan x = true) (data r')).
  { intros r'. apply (errors_nonneg PrimFloat.abs); auto.
    intros x. apply unsigned_nonneg, abs_unsigned. }
  assert (S : forall r', mse y y_hat weights axis = Ok r' ->
                         Forall (fun x => nonneg_or_nan x = true) (data r')).
  { intros r'. apply (errors_nonneg (fun x => x * x)); auto. apply mul_self_nonneg. }
  split; [|split].
  - intros R. eapply Forall_impl; [|exact (A r R)]. apply nonneg_not_below_zero.
  - intros R. eapply Forall_impl; [|exact (S r R)]. apply nonneg_not_below_zero.
  - unfold rmse. destruct (mse y y_hat weights axis) as [m|e] eqn:Em; cbn [bind];
      [|discriminate].
    intros R. injection R as <-. simpl. apply Forall_map.
    eapply Forall_impl; [|exact (S m eq_refl)].
    intros x Hx. now apply nonneg_not_below_zero, sqrt_nonneg.
Qed.

Lemma errors_are_never_negative_witness :
  Forall (fun v => (v <? 0) = false) [1].
Proof.
  destruct (errors_are_never_negative (matrix [[1; 2]; [3; nan]]) (matrix [[1; 1]; [1; 0]])
              (Some (matrix [[1; 1]; [1; 0]])) (Some 0%Z) (scalar 1)) as (M & _).
  - repeat split; repeat constructor.
  - apply M. vm_compute. reflexivity.
Defined.

(** ** Perfect forecasts *)

Lemma float_of_nat_positive (n : nat) : (0 < n)%nat -> (0 <? float_of_nat n) = true.
Proof.
  intros H. unfold float_of_nat. apply fin_positive_ltb.
  assert (P : (0 < 2 ^ 2200)%Z) by (apply Z.pow_pos_nonneg; lia).
  destruct (Z_le_gt_dec (Z.of_nat n) (2 ^ 53)) as [Le|Gt].
  - right. destruct (float_of_Z_exact (Z.of_nat n) ltac:(lia)) as [F E].
    split; [exact F|]. rewrite E. nia.
  - destruct (float_of_Z_large (Z.of_nat n) ltac:(lia)) as [I|[F L]]; [now left|right].
    split; [exact F|]. nia.
Qed.

Lemma is_zero_not_nan (x : float) : PrimFloat.is_zero x = true -> np_isnan x = false.
Proof.
  intros H. apply is_zero_spec in H. destruct H as [s E].
  apply np_isnan_false. congruence.
Qed.

Lemma is_zero_is_finite (x : float) : PrimFloat.is_zero x = true -> is_finite x = true.
Proof.
  intros H. apply is_zero_spec in H. destruct H as [s E].
  apply is_finite_spec. now rewrite E.
Qed.

Lemma abs_zero (x : float) : PrimFloat.is_zero x = true -> PrimFloat.is_zero (abs x) = true.
Proof.
  rewrite !is_zero_spec. intros [s E]. rewrite abs_spec, E. simpl. eauto.
Qed.

Lemma sqrt_zero (x : float) : PrimFloat.is_zero x = true -> PrimFloat.is_zero (sqrt x) = true.
Proof.
  rewrite !is_zero_spec. intros [s E]. rewrite sqrt_spec, E. simpl. eauto.
Qed.


Lemma fmean_zeros (l : list float) :
  l <> [] -> Forall (fun x => PrimFloat.is_zero x = true) l ->
  PrimFloat.is_zero (fmean l) = true.
Proof.
  intros N H. unfold fmean.
  assert (P : (0 <? float_of_nat (length l)) = true).
  { apply float_of_nat_positive. destruct l; [congruence|simpl; lia]. }
  apply positive_not_zero in P. destruct P as [Z Nn].
  apply div_zero_l; auto. now apply fsum_zeros.
Qed.

Lemma filter_numbers_zeros (l : list float) :
  Forall (fun x => PrimFloat.is_zero x = true) l ->
  filter (fun x => negb (np_isnan x)) l = l.
Proof.
  induction 1 as [|x l Hx _ IH]; simpl; [reflexivity|].
  rewrite (is_zero_not_nan x Hx). simpl. now rewrite IH.
Qed.

Lemma fnanmean_zeros (l : list float) :
  l <> [] -> Forall (fun x => PrimFloat.is_zero x = true) l ->
  PrimFloat.is_zero (fnanmean l) = true.
Proof.
  intros N H. rewrite fnanmean_filter. unfold mean_of_numbers.
  rewrite filter_numbers_zeros by assumption. now apply fmean_zeros.
Qed.

Lemma level_is_finite (q : float) :
  (0 <=? q) = true -> (q <=? 1) = true -> is_finite q = true.
Proof.
  intros H0 H1. apply is_finite_spec. to_spec.
  change (Prim2SF 0) with (S754_zero false) in H0.
  change (Prim2SF 1) with (S754_finite false 4503599627370496 (-52)) in H1.
  destruct (Prim2SF q) as [s|[]| |[] m e]; try discriminate; exact I.
Qed.

(** The absolute, squared and quantile errors of same-shape arrays, reduced
    without weights to one number. *)
Lemma mae_same_shape (y y_hat : ndarray float) :
  wf y -> wf y_hat -> shape y_hat = shape y ->
  mae y y_hat None None
  = Ok (scalar (fnanmean (map abs (zip_with PrimFloat.sub (data y) (data y_hat))))).
Proof.
  intros Wy Wh Sh. unfold mae. cbn [_metric_protections bind].
  unfold np_subtract. now rewrite (elementwise_same_shape _ _ _ Wy Wh (eq_sym Sh)).
Qed.

Lemma mse_same_shape (y y_hat : ndarray float) :
  wf y -> wf y_hat -> shape y_hat = shape y ->
  mse y y_hat None None
  = Ok (scalar (fnanmean (map (fun x => x * x)
                            (zip_with PrimFloat.sub (data y) (data y_hat))))).
Proof.
  intros Wy Wh Sh. unfold mse. cbn [_metric_protections bind].
  unfold np_subtract. now rewrite (elementwise_same_shape _ _ _ Wy Wh (eq_sym Sh)).
Qed.

Lemma quantile_loss_same_shape (y y_hat : ndarray float) (q : float) :
  wf y -> wf y_hat -> shape y_hat = shape y ->
  quantile_loss y y_hat q None None
  = Ok (scalar (fnanmean (map (fun d => np_maximum (q * d) ((q - 1) * d))
                            (zip_with PrimFloat.sub (data y) (data y_hat))))).
Proof.
  intros Wy Wh Sh. unfold quantile_loss. cbn [_metric_protections bind].
  unfold np_subtract. rewrite (elementwise_same_shape _ _ _ Wy Wh (eq_sym Sh)).
  cbn [bind].
  assert (L : length (data y_hat) = length (data y)) by (unfold wf in *; congruence).
  rewrite elementwise_same_shape;
    [| unfold wf in *; simpl; rewrite length_map, zip_with_length; lia
     | unfold wf in *; simpl; rewrite length_map, zip_with_length; lia
     | reflexivity ].
  cbn [bind]. simpl. rewrite zip_with_map_l, zip_with_map_r, zip_with_diag.
  reflexivity.
Qed.

Lemma self_errors_zero (y : ndarray float) :
  Forall (fun x => is_finite x = true) (data y) ->
  Forall (fun x => PrimFloat.is_zero x = true)
         (zip_with PrimFloat.sub (data y) (data y)).
Proof.
  intros F. rewrite zip_with_diag. apply Forall_map.
  eapply Forall_impl; [|exact F]. intros x. apply sub_self_zero.
Qed.

Lemma map_nonempty {A B} (f : A -> B) (l : list A) : l <> [] -> map f l <> [].
Proof. destruct l; [congruence|discriminate]. Qed.

Lemma mae_perfect (y : ndarray float) :
  wf y -> data y <> [] -> Forall (fun x => is_finite x = true) (data y) ->
  exists z, mae y y None None = Ok (scalar z) /\ PrimFloat.is_zero z = true.
Proof.
  intros Wy Ny Fy. rewrite mae_same_shape by auto. eexists. split; [reflexivity|].
  apply fnanmean_zeros.
  - apply map_nonempty. rewrite zip_with_diag. now apply map_nonempty.
  - apply Forall_map. eapply Forall_impl; [|apply self_errors_zero; exact Fy].
    intros x. apply abs_zero.
Qed.

Lemma mse_perfect (y : ndarray float) :
  wf y -> data y <> [] -> Forall (fun x => is_finite x = true) (data y) ->
  exists z, mse y y None None = Ok (scalar z) /\ PrimFloat.is_zero z = true.
Proof.
  intros Wy Ny Fy. rewrite mse_same_shape by auto. eexists. split; [reflexivity|].
  apply fnanmean_zeros.
  - apply map_nonempty. rewrite zip_with_diag. now apply map_nonempty.
  - apply Forall_map. eapply Forall_impl; [|apply self_errors_zero; exact Fy].
    intros x Hx. apply mul_zero_r; auto. now apply is_zero_is_finite.
Qed.

(** X5: a forecast equal to finite observations scores zero: [mae], [mse],
    [rmse] and, for a level between 0 and 1, [quantile_loss] reduce a
    non-empty array without weights to a zero. *)
Theorem perfect_forecast_scores_zero (y : ndarray float) (q : float) :
  wf y -> data y <> [] -> Forall (fun x => is_finite x = true) (data y) ->
  (exists z, mae y y None None = Ok (scalar z) /\ PrimFloat.is_zero z = true)
  /\ (exists z, mse y y None None = Ok (scalar z) /\ PrimFloat.is_zero z = true)
  /\ (exists z, rmse y y None None = Ok (scalar z) /\ PrimFloat.is_zero z = true)
  /\ ((0 <=? q) = true -> (q <=? 1) = true ->
      exists z, quantile_loss y y q None None = Ok (scalar z)
                /\ PrimFloat.is_zero z = true).
Proof.
  intros Wy Ny Fy.
  split; [now apply mae_perfect|]. split; [now apply mse_perfect|]. split.
  - destruct (mse_perfect y Wy Ny Fy) as (z & E & Z). unfold rmse. rewrite E.
    cbn [bind]. eexists. split; [reflexivity|]. now apply sqrt_zero.
  - intros H0 H1. rewrite quantile_loss_same_shape by auto.
    eexists. split; [reflexivity|]. apply fnanmean_zeros.
    + apply map_nonempty. rewrite zip_with_diag. now apply map_nonempty.
    + apply Forall_map. eapply Forall_impl; [|apply self_errors_zero; exact Fy].
      intros x Hx. apply np_maximum_zero.
      * apply mul_zero_r; auto. now apply level_is_finite.
      * apply mul_zero_r; auto. now apply sub_one_finite.
Qed.

Lemma perfect_forecast_scores_zero_witness :
  exists z, rmse (matrix [[1; -2]; [0; 4]]) (matrix [[1; -2]; [0; 4]]) None None
            = Ok (scalar z)
            /\ PrimFloat.is_zero z = true.
Proof.
  destruct (perfect_forecast_scores_zero (matrix [[1; -2]; [0; 4]]) 0.5)
    as (_ & _ & R & _).
  - reflexivity.
  - discriminate.
  - repeat constructor.
  - exact R.
Defined.

(** *** Percentage errors *)








(** *** Relative error against a perfect baseline *)



(** ** Binary64 arithmetic: exact quotients and products *)

Lemma SFdiv_self (m : positive) (e : Z) :
  bounded prec emax m e = true ->
  SFleb (SFdiv prec emax (S754_finite false m e) (S754_finite false m e))
        (S754_finite false 4503599627370496 (-52)) = true
  /\ SFleb (S754_finite false 4503599627370496 (-52))
           (SFdiv prec emax (S754_finite false m e) (S754_finite false m e)) = true.
Proof.
  intros B.
  destruct (SFdiv_core_binary_spec m m e e B B)
    as (q & e' & l & r & s & Ec & Hq & He' & Hn & Hs & Es & Eq & Hr & Hl).
  unfold SFdiv. rewrite Ec. simpl xorb.
  assert (P : (0 < 2 ^ s)%Z) by (apply Z.pow_pos_nonneg; lia).
  assert (K : (r = Z.pos m * (2 ^ s - q))%Z) by lia.
  assert (K0 : (2 ^ s - q = 0)%Z).
  { destruct (Z_lt_le_dec (2 ^ s - q) 1) as [Lt|Ge];
      [destruct (Z_lt_le_dec (2 ^ s - q) 0) as [Lt0|Ge0]; [|lia]|]; exfalso; nia. }
  assert (R0 : r = 0%Z) by (rewrite K, K0; lia).
  assert (Q : q = (2 ^ s)%Z) by lia.
  assert (L : l = loc_Exact) by (apply Hl; exact R0).
  assert (Ev : V q e' = V 4503599627370496 (-52)).
  { unfold V. rewrite Q. change 4503599627370496%Z with (2 ^ 52)%Z.
    rewrite <- !Z.pow_add_r by lia. f_equal. lia. }
  subst l. split.
  - apply round_aux_le; auto; try reflexivity; try lia. intros N. now elim N.
  - apply round_aux_ge; auto; try reflexivity; try lia. intros N. now elim N.
Qed.

(** A positive finite value over itself is 1. *)
Lemma div_self (x : float) : fin_nonneg x = true -> (0 < fval x)%Z -> x / x = 1.
Proof.
  unfold fin_nonneg, fval. intros F P. apply Prim2SF_inj.
  pose proof (Prim2SF_valid x) as Vx. pose proof (Prim2SF_valid (x / x)) as Vr.
  rewrite div_spec in *.
  change (Prim2SF 1) with (S754_finite false 4503599627370496 (-52)).
  destruct (Prim2SF x) as [s|s| |[] m e]; try discriminate; simpl in P; try lia.
  change (bounded prec emax m e = true) in Vx.
  destruct (SFdiv_self m e Vx) as [Le Ge].
  apply SFleb_antisym; auto.
Qed.

Lemma zero_div_positive (d : float) : (0 <? d) = true -> 0 / d = 0.
Proof.
  intros H. apply Prim2SF_inj. rewrite div_spec. rewrite ltb_spec in H.
  change (Prim2SF 0) with (S754_zero false) in *.
  destruct (Prim2SF d) as [s|[]| |[] m e]; try discriminate; reflexivity.
Qed.

Lemma SFmul_one (m : positive) (e : Z) :
  bounded prec emax m e = true ->
  binary_round_aux prec emax false (Z.pos (m * 4503599627370496)) (e + -52) loc_Exact
  = S754_finite false m e.
Proof.
  intros B. pose proof (bounded_facts m e B) as (E & U & L).
  assert (Pm : (2 ^ 52 <= Z.pos (m * 4503599627370496))%Z)
    by (rewrite Pos2Z.inj_mul; change (Z.pos 4503599627370496) with (2 ^ 52)%Z; nia).
  assert (Hn : (e + -52 <= fexp prec emax (Zdigits2 (Z.pos (m * 4503599627370496))
                                            + (e + -52)))%Z).
  { pose proof (Zdigits2_le (2 ^ 52) (Z.pos (m * 4503599627370496)) ltac:(lia)) as D.
    change (Zdigits2 (2 ^ 52)) with 53%Z in D. fexp_unfold. lia. }
  assert (Ev : V (Z.pos (m * 4503599627370496)) (e + -52) = V (Z.pos m) e).
  { rewrite Pos2Z.inj_mul. change (Z.pos 4503599627370496) with (2 ^ 52)%Z.
    rewrite <- V_shift by lia. f_equal. lia. }
  assert (Vr : valid_binary (binary_round_aux prec emax false
                               (Z.pos (m * 4503599627370496)) (e + -52) loc_Exact) = true).
  { destruct (round_aux_spec (Z.pos (m * 4503599627370496)) (e + -52) loc_Exact
                ltac:(lia) ltac:(lia) Hn) as (m3 & e3 & -> & _ & _ & C & _).
    now apply pack_valid. }
  apply SFleb_antisym; auto.
  - apply round_aux_le; auto; try lia. intros N. now elim N.
  - apply round_aux_ge; auto; try lia. intros N. now elim N.
Qed.

(** Multiplication by 1 changes nothing. *)
Lemma mul_one_r (x : float) : x * 1 = x.
Proof.
  apply Prim2SF_inj. pose proof (Prim2SF_valid x) as Vx. rewrite mul_spec.
  change (Prim2SF 1) with (S754_finite false 4503599627370496 (-52)).
  destruct (Prim2SF x) as [[]|[]| |s m e]; try reflexivity.
  change (bounded prec emax m e = true) in Vx.
  unfold SF64mul, SFmul. destruct s; simpl xorb.
  - rewrite binary_round_aux_opp, SFmul_one by assumption. reflexivity.
  - now apply SFmul_one.
Qed.

Lemma positive_finite_fval (x : float) :
  (0 <? x) = true -> is_finite x = true -> fin_nonneg x = true /\ (0 < fval x)%Z.
Proof.
  rewrite is_finite_spec, ltb_spec. unfold fin_nonneg, fval.
  pose proof (Prim2SF_valid x) as Vx.
  change (Prim2SF 0) with (S754_zero false).
  destruct (Prim2SF x) as [[]|s| |[] m e]; try discriminate; try contradiction.
  intros _ _. split; [reflexivity|]. simpl.
  apply bounded_facts in Vx. apply V_pos. lia.
Qed.

(** ** Coverage and calibration at their extremes *)

Lemma count_true_all (l : list bool) :
  Forall (fun b => b = true) l -> count_true l = Z.of_nat (length l).
Proof.
  unfold count_true. induction 1 as [|b l -> _ IH]; simpl; [reflexivity|].
  simpl in IH. lia.
Qed.

Lemma count_true_none (l : list bool) :
  Forall (fun b => b = false) l -> count_true l = 0%Z.
Proof.
  unfold count_true. induction 1 as [|b l -> _ IH]; simpl; [reflexivity|exact IH].
Qed.

Lemma mean_all_true (l : list bool) :
  l <> [] -> (Z.of_nat (length l) <= 2 ^ 53)%Z -> Forall (fun b => b = true) l ->
  fmean (map float_of_bool l) = 1.
Proof.
  intros N B H. unfold fmean.
  rewrite fsum_indicator, length_map, (count_true_all l H), Z.min_l by assumption.
  fold (float_of_nat (length l)).
  assert (P : (0 <? float_of_nat (length l)) = true).
  { apply float_of_nat_positive. destruct l; [congruence|simpl; lia]. }
  assert (F : is_finite (float_of_nat (length l)) = true).
  { apply fin_nonneg_is_finite. unfold float_of_nat.
    apply (proj1 (float_of_Z_exact (Z.of_nat (length l)) ltac:(lia))). }
  destruct (positive_finite_fval _ P F). now apply div_self.
Qed.

Lemma mean_none_true (l : list bool) :
  l <> [] -> Forall (fun b => b = false) l -> fmean (map float_of_bool l) = 0.
Proof.
  intros N H. unfold fmean.
  rewrite fsum_indicator, length_map, (count_true_none l H).
  change (float_of_Z (Z.min 0 (2 ^ 53))) with 0.
  apply zero_div_positive, float_of_nat_positive.
  destruct l; [congruence|simpl; lia].
Qed.

(** X8: on non-empty arrays of one shape, [coverage] is exactly 100 when
    every observation is a number within its interval and exactly 0 when
    none is; [calibration] is exactly 1 when every observation is a number at
    most its bound and exactly 0 when none is. *)
Theorem coverage_extremes (y y_hat_lo y_hat_hi : ndarray float) :
  wf y -> wf y_hat_lo -> wf y_hat_hi ->
  shape y_hat_lo = shape y -> shape y_hat_hi = shape y -> data y <> [] ->
  (Z.of_nat (length (data y)) <= 2 ^ 53)%Z ->
  let inside := interval_indicator (data y) (data y_hat_lo) (data y_hat_hi) in
  let below := bound_indicator (data y) (data y_hat_hi) in
  (Forall (fun b => b = true) inside -> coverage y y_hat_lo y_hat_hi = Ok (scalar 100))
  /\ (Forall (fun b => b = false) inside -> coverage y y_hat_lo y_hat_hi = Ok (scalar 0))
  /\ (Forall (fun b => b = true) below -> calibration y y_hat_hi = Ok (scalar 1))
  /\ (Forall (fun b => b = false) below -> calibration y y_hat_hi = Ok (scalar 0)).
Proof.
  intros Wy Wl Wh El Eh Ne Hn inside below.
  assert (Ll : length (data y_hat_lo) = length (data y)) by (unfold wf in *; congruence).
  assert (Lh : length (data y_hat_hi) = length (data y)) by (unfold wf in *; congruence).
  assert (Li : length inside = length (data y))
    by (apply interval_indicator_length; assumption).
  assert (Lb : length below = length (data y))
    by (apply bound_indicator_length; assumption).
  assert (Ni : inside <> []).
  { intros E. rewrite E in Li. destruct (data y); [congruence|discriminate]. }
  assert (Nb : below <> []).
  { intros E. rewrite E in Lb. destruct (data y); [congruence|discriminate]. }
  rewrite coverage_same_shape, calibration_same_shape by assumption.
  fold inside. fold below. repeat split; intros H.
  - rewrite mean_all_true; auto. rewrite Li. exact Hn.
  - rewrite mean_none_true; auto.
  - rewrite mean_all_true; auto. rewrite Lb. exact Hn.
  - rewrite mean_none_true; auto.
Qed.

Lemma coverage_extremes_witness :
  coverage (vector [1; 2; 3]) (vector [0; 2; 1]) (vector [1; 4; 3]) = Ok (scalar 100)
  /\ calibration (vector [1; nan; 3]) (vector [0; 4; 2]) = Ok (scalar 0).
Proof.
  split.
  - destruct (coverage_extremes (vector [1; 2; 3]) (vector [0; 2; 1]) (vector [1; 4; 3]))
      as (A & _);
        [reflexivity|reflexivity|reflexivity|reflexivity|reflexivity|discriminate
        |vm_compute; discriminate|].
    apply A. repeat constructor.
  - destruct (coverage_extremes (vector [1; nan; 3]) (vector [0; 0; 0]) (vector [0; 4; 2]))
      as (_ & _ & _ & Z);
        [reflexivity|reflexivity|reflexivity|reflexivity|reflexivity|discriminate
        |vm_compute; discriminate|].
    apply Z. repeat constructor.
Defined.

(** ** Relative error of a forecast against itself *)

(** X9: [rmae] of two equal forecasts is exactly 1 when their mean absolute
    error is a positive finite number. *)
Theorem rmae_of_equal_forecasts (y y_hat : ndarray float)
  (weights : option (ndarray float)) (axis : option Z) (m : float) :
  mae y y_hat weights axis = Ok (scalar m) ->
  (0 <? m) = true -> is_finite m = true ->
  rmae y y_hat y_hat weights axis = Ok (scalar 1).
Proof.
  intros E P F. unfold rmae. rewrite E. cbn [bind].
  unfold np_divide. rewrite elementwise_same_shape by (try apply wf_scalar; reflexivity).
  simpl. destruct (positive_finite_fval m P F). now rewrite div_self.
Qed.

Lemma rmae_of_equal_forecasts_witness :
  rmae (vector [1; 2; nan]) (vector [2; 5; 0]) (vector [2; 5; 0])
       (Some (vector [3; 1; 1])) None
  = Ok (scalar 1).
Proof.
  apply (rmae_of_equal_forecasts (vector [1; 2; nan]) (vector [2; 5; 0])
           (Some (vector [3; 1; 1])) None 1.5); vm_compute; reflexivity.
Defined.

(** ** One quantile, and none *)

Lemma flat_map_singletons {A} (d : list A) : flat_map (fun x => repeat x 1) d = d.
Proof. induction d as [|x d IH]; simpl; [reflexivity|]. f_equal. exact IH. Qed.

Lemma zip_with_repeat_l {A B C} (f : A -> B -> C) (c : A) (l : list B) :
  zip_with f (repeat c (length l)) l = map (f c) l.
Proof. induction l as [|x l IH]; simpl; [reflexivity|]. f_equal. exact IH. Qed.

Lemma zip_with_mul_ones (l : list float) :
  zip_with PrimFloat.mul l (repeat 1 (length l)) = l.
Proof. induction l as [|x l IH]; simpl; [reflexivity|]. now rewrite mul_one_r, IH. Qed.

Lemma pinball_terms_single (y y_hat : ndarray float) (q : float) :
  wf y -> wf y_hat -> shape y_hat = shape y ->
  pinball_terms y (expand_last y_hat) (vector [q]) = quantile_terms y y_hat q.
Proof.
  intros Wy Wh Sh. unfold pinball_terms, quantile_terms. cbv zeta. simpl data.
  simpl length. simpl map. rewrite flat_map_singletons, !concat_repeat_singleton.
  set (E := zip_with PrimFloat.sub (data y) (data y_hat)).
  assert (L : size_of (shape y) = length E).
  { unfold E, wf in *. rewrite zip_with_length, Wh, Sh, Wy. lia. }
  rewrite L, !zip_with_repeat_l, zip_with_map_l, zip_with_map_r, zip_with_diag.
  reflexivity.
Qed.


Lemma fnanmean_numbers (l : list float) :
  Forall (fun x => np_isnan x = false) l -> fnanmean l = fmean l.
Proof.
  intros H. rewrite fnanmean_filter. unfold mean_of_numbers. f_equal.
  induction H as [|x l Hx _ IH]; simpl; [reflexivity|]. now rewrite Hx, IH.
Qed.

(** X10: with a single quantile, the default weights and no NaN among the
    losses, [mqloss] on the forecast with a last axis of one element is
    [quantile_loss] on the forecast itself. *)
Theorem mqloss_of_one_quantile (y y_hat : ndarray float) (q : float) :
  wf y -> wf y_hat -> shape y_hat = shape y -> data y <> [] ->
  (Z.of_nat (length (data y)) <= 2 ^ 53)%Z ->
  Forall (fun t => np_isnan t = false) (quantile_terms y y_hat q) ->
  mqloss y (expand_last y_hat) (vector [q]) None None
  = quantile_loss y y_hat q None None.
Proof.
  intros Wy Wh Sh Ny Hn Nn.
  assert (Lt : length (quantile_terms y y_hat q) = length (data y)).
  { unfold quantile_terms, wf in *. rewrite length_map, zip_with_length, Wh, Sh, Wy. lia. }
  assert (Hp : (0 < size_of (shape y))%nat).
  { unfold wf in Wy. rewrite <- Wy. destruct (data y); [congruence|simpl; lia]. }
  rewrite quantile_loss_same_shape by assumption. fold (quantile_terms y y_hat q).
  rewrite fnanmean_numbers by assumption.
  rewrite mqloss_quantile_axis; try assumption;
    [| unfold wf, expand_last in *; simpl; rewrite Wh, Sh, size_of_app; simpl; lia
     | reflexivity
     | simpl; now rewrite Sh ].
  assert (Ev : _metric_protections y (expand_last y_hat) (Some (default_weights y None))
               = Ok tt).
  { apply metric_protections_ok. split; [|reflexivity].
    simpl. now apply fsum_ones_positive. }
  rewrite Ev. cbn [bind]. rewrite pinball_terms_single by assumption.
  simpl default_weights. simpl shape. simpl data. simpl length.
  rewrite flat_map_singletons.
  assert (Es : size_of (shape y) = length (quantile_terms y y_hat q))
    by (unfold wf in Wy; congruence).
  rewrite np_average_full.
  - simpl data. rewrite Es, zip_with_mul_ones, fsum_ones_count; [reflexivity|].
    rewrite Lt. exact Hn.
  - unfold wf. simpl. rewrite size_of_app. simpl. lia.
  - unfold wf. simpl. rewrite repeat_length, size_of_app. simpl. lia.
  - reflexivity.
  - simpl. apply not_true_is_false. intros E.
    destruct (fsum_ones_positive (size_of (shape y)) Hp) as [P _].
    apply positive_not_zero in P. destruct P as [P _].
    exact (eq_true_false_abs _ E P).
Qed.

Lemma mqloss_of_one_quantile_witness :
  mqloss (vector [1; 5; 2]) (matrix [[2]; [3]; [2]]) (vector [0.25]) None None
  = quantile_loss (vector [1; 5; 2]) (vector [2; 3; 2]) 0.25 None None.
Proof.
  apply (mqloss_of_one_quantile (vector [1; 5; 2]) (vector [2; 3; 2]) 0.25);
    [reflexivity|reflexivity|reflexivity|discriminate|vm_compute; discriminate
    |repeat constructor].
Defined.



(** ** Degenerate seasonalities of [mase] *)

Lemma div_nan_r (x : float) : x / nan = nan.
Proof.
  apply Prim2SF_inj. rewrite div_spec. change (Prim2SF nan) with S754_nan.
  destruct (Prim2SF x) as [s|s| |s m e]; reflexivity.
Qed.





(** ** The sign of a quantile loss *)

Lemma sf_signed_nonpos (r : spec_float) : sf_signed true r = true -> sf_nonpos r = true.
Proof. destruct r as [[]|[]| |[] m e]; simpl; auto. Qed.

Lemma sign_cases (d : float) : nonneg_or_nan d = true \/ nonpos_or_nan d = true.
Proof.
  unfold nonneg_or_nan, nonpos_or_nan.
  destruct (Prim2SF d) as [[]|[]| |[] m e]; simpl; auto.
Qed.

Lemma mul_nonneg_nonpos (x y : float) :
  nonneg_or_nan x = true -> nonpos_or_nan y = true -> nonpos_or_nan (x * y) = true.
Proof.
  unfold nonneg_or_nan, nonpos_or_nan. rewrite mul_spec.
  destruct (Prim2SF x) as [[]|[]| |[] mx ex]; simpl; try discriminate;
    destruct (Prim2SF y) as [[]|[]| |[] my ey]; simpl; try discriminate; auto.
  intros _ _. apply sf_signed_nonpos, binary_round_aux_signed.
Qed.

Lemma mul_nonpos_nonneg (x y : float) :
  nonpos_or_nan x = true -> nonneg_or_nan y = true -> nonpos_or_nan (x * y) = true.
Proof.
  unfold nonneg_or_nan, nonpos_or_nan. rewrite mul_spec.
  destruct (Prim2SF x) as [[]|[]| |[] mx ex]; simpl; try discriminate;
    destruct (Prim2SF y) as [[]|[]| |[] my ey]; simpl; try discriminate; auto.
  intros _ _. apply sf_signed_nonpos, binary_round_aux_signed.
Qed.

Lemma mul_nonpos_nonpos (x y : float) :
  nonpos_or_nan x = true -> nonpos_or_nan y = true -> nonneg_or_nan (x * y) = true.
Proof.
  unfold nonneg_or_nan, nonpos_or_nan. rewrite mul_spec.
  destruct (Prim2SF x) as [[]|[]| |[] mx ex]; simpl; try discriminate;
    destruct (Prim2SF y) as [[]|[]| |[] my ey]; simpl; try discriminate; auto.
  intros _ _. apply sf_signed_nonneg, binary_round_aux_signed.
Qed.

(** The larger of a value that is not negative and one that is not positive
    is not negative, in either order. *)
Lemma maximum_of_opposites (x y : float) :
  (nonneg_or_nan x = true /\ nonpos_or_nan y = true)
  \/ (nonpos_or_nan x = true /\ nonneg_or_nan y = true) ->
  nonneg_or_nan (np_maximum x y) = true.
Proof.
  unfold np_maximum, nonneg_or_nan, nonpos_or_nan.
  destruct ((y <=? x) || np_isnan x) eqn:C.
  - intros [[Hx _]|[Hx Hy]]; [exact Hx|].
    apply orb_true_iff in C. destruct C as [C|C].
    + rewrite leb_spec in C.
      destruct (Prim2SF x) as [[]|[]| |[] mx ex]; simpl in *; try discriminate; auto;
        destruct (Prim2SF y) as [[]|[]| |[] my ey]; simpl in *; discriminate.
    + apply np_isnan_spec in C. now rewrite C.
  - intros [[Hx Hy]|[_ Hy]]; [|exact Hy].
    apply orb_false_iff in C. destruct C as [C N].
    rewrite leb_spec in C. apply np_isnan_false in N.
    destruct (Prim2SF y) as [[]|[]| |[] my ey]; simpl in *; try discriminate; auto;
      destruct (Prim2SF x) as [[]|[]| |[] mx ex]; simpl in *; try discriminate;
      congruence.
Qed.

(** A level at most 1, less 1, is not positive. *)
Lemma sub_one_nonpos (q : float) :
  (0 <=? q) = true -> (q <=? 1) = true -> nonpos_or_nan (q - 1) = true.
Proof.
  intros H0 H1. pose proof (Prim2SF_valid q) as Vq.
  unfold nonpos_or_nan. to_spec.
  change (Prim2SF 0) with (S754_zero false) in H0.
  change (Prim2SF 1) with (S754_finite false 4503599627370496 (-52)) in *.
  destruct (Prim2SF q) as [s|[]| |[] m e]; try discriminate.
  - destruct s; reflexivity.
  - change (bounded prec emax m e = true) in Vq.
    assert (L : (V (Z.pos m) e <= V 4503599627370496 (-52))%Z).
    { unfold SFleb in H1. rewrite V_compare in H1 by (auto; reflexivity).
      destruct (Z.compare_spec (V (Z.pos m) e) (V 4503599627370496 (-52)));
        try discriminate; lia. }
    apply bounded_facts in Vq.
    unfold SF64sub, SFsub. simpl cond_Zopp.
    destruct (shl_align_value m e (-52) ltac:(lia)) as (a & -> & Ea).
    pose proof (shl_align_value 4503599627370496 (-52) e ltac:(lia)) as (b & Sb & Eb).
    rewrite (Z.min_comm (-52) e) in Sb, Eb. rewrite Sb.
    simpl fst. set (ez := Z.min e (-52)) in *.
    assert (P2 : (0 < 2 ^ (ez + 2200))%Z) by (apply Z.pow_pos_nonneg; subst ez; lia).
    assert (Lab : (Z.pos a <= Z.pos b)%Z) by (unfold V in *; nia).
    destruct (Z.pos a - Z.pos b)%Z as [|p|p] eqn:Ek; try lia.
    + reflexivity.
    + unfold binary_normalize. apply sf_signed_nonpos, binary_round_signed.
Qed.

Lemma level_nonneg (q : float) : (0 <=? q) = true -> nonneg_or_nan q = true.
Proof. intros H. now apply nonneg_leb in H. Qed.

Lemma quantile_term_nonneg (q d : float) :
  (0 <=? q) = true -> (q <=? 1) = true ->
  nonneg_or_nan (np_maximum (q * d) ((q - 1) * d)) = true.
Proof.
  intros H0 H1. apply maximum_of_opposites.
  pose proof (level_nonneg q H0) as Q. pose proof (sub_one_nonpos q H0 H1) as Q1.
  destruct (sign_cases d) as [D|D].
  - left. split; [now apply mul_nonneg|now apply mul_nonpos_nonneg].
  - right. split; [now apply mul_nonneg_nonpos|now apply mul_nonpos_nonpos].
Qed.

(** X13: for a level between 0 and 1 no value that [quantile_loss] returns
    on arrays of one shape is below zero, without weights and with weights
    none of which is negative. *)
Theorem quantile_loss_is_never_negative (y y_hat : ndarray float) (q : float)
  (weights : option (ndarray float)) (axis : option Z) (r : ndarray float) :
  (0 <=? q) = true -> (q <=? 1) = true ->
  wf y -> wf y_hat -> shape y_hat = shape y -> nonneg_weights weights ->
  quantile_loss y y_hat q weights axis = Ok r ->
  Forall (fun v => (v <? 0) = false) (data r).
Proof.
  intros H0 H1 Wy Wh Sh Hw. unfold quantile_loss.
  destruct (_metric_protections y y_hat weights) as [[]|e] eqn:Ev; cbn [bind];
    [|discriminate].
  unfold np_subtract. rewrite (elementwise_same_shape _ _ _ Wy Wh (eq_sym Sh)).
  cbn [bind].
  assert (L : length (data y_hat) = length (data y)) by (unfold wf in *; congruence).
  rewrite elementwise_same_shape;
    [| unfold wf in *; simpl; rewrite length_map, zip_with_length; lia
     | unfold wf in *; simpl; rewrite length_map, zip_with_length; lia
     | reflexivity ].
  cbn [bind]. intros R.
  eapply Forall_impl; [intros v; apply nonneg_not_below_zero|].
  eapply nan_filtered_average_nonneg; [| |exact R].
  - simpl. rewrite zip_with_map_l, zip_with_map_r, zip_with_diag. apply Forall_map.
    apply Forall_forall. intros d _. now apply quantile_term_nonneg.
  - destruct weights as [w|]; [|exact I]. destruct Hw as [Ww Pw].
    apply metric_protections_ok in Ev. destruct Ev as [_ Sw]. simpl.
    repeat split; auto.
    unfold wf in *. simpl. rewrite zip_with_length, !length_map, zip_with_length. lia.
Qed.

Lemma quantile_loss_is_never_negative_witness :
  Forall (fun v => (v <? 0) = false) [0.875; 1.5].
Proof.
  apply (quantile_loss_is_never_negative (matrix [[1; 2]; [3; 0]])
           (matrix [[0; 4]; [5; 2]]) 0.25 None (Some 1%Z) (vector [0.875; 1.5]));
    reflexivity.
Defined.

(** ** The mean absolute percentage error is a number *)










(** ** Observations and forecasts exchanged *)

Lemma SFabs_opp (r : spec_float) : SFabs (SFopp r) = SFabs r.
Proof. destruct r as [s|s| |s m e]; reflexivity. Qed.

Lemma binary_round_opp (m : positive) (e : Z) :
  binary_round prec emax true m e = SFopp (binary_round prec emax false m e).
Proof.
  unfold binary_round. destruct (shl_align m e _) as [mz ez].
  apply binary_round_aux_opp.
Qed.

Lemma binary_normalize_opp_abs (k e : Z) :
  SFabs (binary_normalize prec emax (- k) e false)
  = SFabs (binary_normalize prec emax k e false).
Proof.
  destruct k as [|p|p]; simpl; [reflexivity| |].
  - now rewrite binary_round_opp, SFabs_opp.
  - now rewrite binary_round_opp, SFabs_opp.
Qed.

(** The absolute difference does not depend on the order of its operands. *)
Lemma abs_sub_swap (a b : float) : abs (a - b) = abs (b - a).
Proof.
  apply Prim2SF_inj. rewrite !abs_spec, !sub_spec.
  destruct (Prim2SF a) as [sa|sa| |sa ma ea]; destruct (Prim2SF b) as [sb|sb| |sb mb eb];
    try reflexivity; try (destruct sa, sb; reflexivity).
  unfold SF64sub, SFsub. rewrite (Z.min_comm eb ea).
  rewrite <- binary_normalize_opp_abs. f_equal. f_equal. lia.
Qed.

Lemma square_of_abs (x : float) : x * x = abs x * abs x.
Proof.
  apply Prim2SF_inj. rewrite !mul_spec, abs_spec.
  destruct (Prim2SF x) as [[]|[]| |[] m e]; reflexivity.
Qed.

Lemma square_sub_swap (a b : float) : (a - b) * (a - b) = (b - a) * (b - a).
Proof. now rewrite square_of_abs, abs_sub_swap, <- square_of_abs. Qed.

Lemma zip_with_swap {A B C} (f : A -> B -> C) (l : list A) (m : list B) :
  zip_with f l m = zip_with (fun b a => f a b) m l.
Proof.
  revert m. induction l as [|x l IH]; intros [|y m]; simpl; auto. now rewrite IH.
Qed.

Lemma errors_swap (f : float -> float) (y y_hat : ndarray float)
  (weights : option (ndarray float)) (axis : option Z) :
  (forall a b, f (a - b) = f (b - a)) ->
  wf y -> wf y_hat -> shape y_hat = shape y ->
  (_ <- _metric_protections y y_hat weights ;;
   d <- np_subtract y y_hat ;;
   nan_filtered_average (nd_map f d) weights axis)
  = (_ <- _metric_protections y_hat y weights ;;
     d <- np_subtract y_hat y ;;
     nan_filtered_average (nd_map f d) weights axis).
Proof.
  intros Hf Wy Wh Sh.
  assert (P : _metric_protections y y_hat weights = _metric_protections y_hat y weights)
    by (unfold _metric_protections; now rewrite Sh).
  rewrite P. destruct (_metric_protections y_hat y weights) as [[]|e]; cbn [bind];
    [|reflexivity].
  unfold np_subtract.
  rewrite (elementwise_same_shape _ _ _ Wy Wh (eq_sym Sh)),
          (elementwise_same_shape _ _ _ Wh Wy Sh).
  cbn [bind]. unfold nd_map. simpl. rewrite Sh. do 2 f_equal.
  rewrite !map_zip_with, (zip_with_swap _ (data y_hat) (data y)).
  apply zip_with_ext. intros a b. apply Hf.
Qed.

(** X15: on arrays of one shape [mae], [mse] and [rmse] give the same result
    when the observations and the forecast are exchanged, with and without
    weights and along any axis. *)
Theorem errors_are_symmetric (y y_hat : ndarray float)
  (weights : option (ndarray float)) (axis : option Z) :
  wf y -> wf y_hat -> shape y_hat = shape y ->
  mae y y_hat weights axis = mae y_hat y weights axis
  /\ mse y y_hat weights axis = mse y_hat y weights axis
  /\ rmse y y_hat weights axis = rmse y_hat y weights axis.
Proof.
  intros Wy Wh Sh.
  assert (M : mse y y_hat weights axis = mse y_hat y weights axis).
  { apply (errors_swap (fun x => x * x)); auto. apply square_sub_swap. }
  split; [|split].
  - apply (errors_swap PrimFloat.abs); auto. apply abs_sub_swap.
  - exact M.
  - unfold rmse. now rewrite M.
Qed.

Lemma errors_are_symmetric_witness :
  mae (matrix [[1; 2]; [3; nan]]) (matrix [[0; 5]; [3; 1]]) None (Some 1%Z)
  = mae (matrix [[0; 5]; [3; 1]]) (matrix [[1; 2]; [3; nan]]) None (Some 1%Z).
Proof.
  apply (errors_are_symmetric (matrix [[1; 2]; [3; nan]]) (matrix [[0; 5]; [3; 1]])
           None (Some 1%Z)); reflexivity.
Defined.

(** ** The symmetric percentage error without weights *)













(** ** The sign of the multi-quantile loss *)

Lemma concat_repeat_map {A B} (f : A -> B) (q : list A) (n : nat) :
  concat (repeat (map f q) n) = map f (concat (repeat q n)).
Proof.
  induction n as [|n IH]; simpl; [reflexivity|]. now rewrite IH, map_app.
Qed.

Lemma zip_with_maximum (f : float -> float) (q e : list float) :
  zip_with np_maximum (zip_with PrimFloat.mul q e) (zip_with PrimFloat.mul (map f q) e)
  = zip_with (fun a d => np_maximum (a * d) (f a * d)) q e.
Proof.
  revert e. induction q as [|a q IH]; intros [|d e]; simpl; auto. now rewrite IH.
Qed.

Lemma pinball_terms_nonneg (y y_hat quantiles : ndarray float) :
  quantile_levels quantiles ->
  Forall (fun t => nonneg_or_nan t = true) (pinball_terms y y_hat quantiles).
Proof.
  intros [_ Lq]. unfold pinball_terms. cbv zeta.
  rewrite concat_repeat_map, zip_with_maximum.
  apply Forall_zip_with with (P := fun q => (0 <=? q) = true /\ (q <=? 1) = true)
                             (Q := fun _ => True).
  - intros q d [H0 H1] _. now apply quantile_term_nonneg.
  - now apply Forall_concat_repeat.
  - apply Forall_forall. auto.
Qed.

Lemma div_nan_or_positive (x d : float) :
  nonneg_or_nan x = true -> d = nan \/ (0 <? d) = true -> nonneg_or_nan (x / d) = true.
Proof.
  intros Hx [->|P]; [now rewrite div_nan_r|now apply div_nonneg].
Qed.

Lemma crps_scale_nan_or_positive (y : ndarray float) :
  fsum (data (np_abs y)) + eps = nan \/ (0 <? fsum (data (np_abs y)) + eps) = true.
Proof.
  simpl data.
  destruct (Forall_Exists_dec (fun x => np_isnan x = false)
              (fun x => bool_dec (np_isnan x) false) (data y)) as [F|E].
  - right. apply add_positive; [|reflexivity]. apply fsum_not_negative.
    apply Forall_map. eapply Forall_impl; [|exact F]. intros x. apply abs_not_negative.
  - left. rewrite fsum_nan; [apply add_nan_l|].
    apply Exists_exists in E. destruct E as (x & Hin & Hx).
    apply not_false_is_true in Hx. apply np_isnan_eq in Hx. subst x.
    change nan with (abs nan). now apply in_map.
Qed.

(** X17: for quantile levels between 0 and 1 and a forecast with one slice
    per level along a last axis, no value that [mqloss] or [scaled_crps]
    returns is below zero, with the default weights and with weights none of
    which is negative. *)
Theorem multi_quantile_losses_are_never_negative (y y_hat quantiles : ndarray float)
  (weights : option (ndarray float)) (axis : option Z) (r : ndarray float) :
  wf y -> wf y_hat -> quantile_levels quantiles ->
  shape y_hat = shape y ++ [length (data quantiles)] ->
  nonneg_weights weights ->
  (mqloss y y_hat quantiles weights axis = Ok r ->
   Forall (fun v => (v <? 0) = false) (data r))
  /\ (scaled_crps y y_hat quantiles weights axis = Ok r ->
      Forall (fun v => (v <? 0) = false) (data r)).
Proof.
  intros Wy Wh Lq Sh Hw.
  assert (M : forall l, mqloss y y_hat quantiles weights axis = Ok l ->
                        Forall (fun v => nonneg_or_nan v = true) (data l)).
  { intros l. rewrite (mqloss_quantile_axis _ _ _ _ _ Wy Wh (proj1 Lq) Sh).
    destruct (_metric_protections _ _ _) as [[]|e] eqn:Ev; cbn [bind]; [|discriminate].
    apply metric_protections_ok in Ev. destruct Ev as [_ Sw].
    assert (Wd : wf (default_weights y weights)
                 /\ Forall (fun x => (0 <=? x) = true) (data (default_weights y weights))).
    { destruct weights as [w|]; [exact Hw|]. split; [apply wf_np_ones|].
      apply Forall_forall. intros x Hx. apply repeat_spec in Hx. now subst. }
    destruct Wd as [Wd Pd].
    apply np_average_nonneg.
    - unfold wf. simpl. now apply pinball_terms_length.
    - split; [|split].
      + unfold wf in *. simpl. rewrite length_repeat_each, size_of_app, Wd. simpl. lia.
      + simpl. now rewrite Sw.
      + simpl. now apply Forall_repeat_each.
    - simpl. now apply pinball_terms_nonneg. }
  split.
  - intros R. eapply Forall_impl; [|exact (M r R)]. apply nonneg_not_below_zero.
  - unfold scaled_crps.
    destruct (mqloss y y_hat quantiles weights axis) as [l|e] eqn:El; cbn [bind];
      [|discriminate].
    intros R. injection R as <-. simpl data at 1. apply Forall_map.
    eapply Forall_impl; [|exact (M l eq_refl)]. intros v Hv.
    apply nonneg_not_below_zero. apply div_nan_or_positive.
    + apply mul_nonneg; [now apply mul_nonneg|].
      simpl. rewrite fsum_ones. apply unsigned_nonneg, float_of_Z_unsigned. lia.
    + apply crps_scale_nan_or_positive.
Qed.

Lemma multi_quantile_losses_are_never_negative_witness :
  Forall (fun v => (v <? 0) = false) [0.25].
Proof.
  destruct (multi_quantile_losses_are_never_negative (vector [1; 3])
              (matrix [[1; 2]; [2; 5]]) (vector [0.25; 0.75]) None None (scalar 0.25))
    as [_ S]; [reflexivity|reflexivity| |reflexivity|exact I|].
  - split; [reflexivity|repeat constructor].
  - apply S. vm_compute. reflexivity.
Defined.

